(** * MARS, the multi-provider research orchestrator: a shallow embedding

    The development follows [providers.py] and [researcher.py]:

    - Python text ([str]) is a list of code points;
    - the provider classes are records with the two call paths of the source
      (the primary API path and the CLI fallback);
    - the orchestrator's mutable fields, the console input still to be read
      and the trace of what the program did form one state, threaded through
      a state-and-exception monad;
    - what the outside answers (the network, the command-line tools, the
      order in which the awaits of one [asyncio.gather] resolve, the user's
      edit of the question file) is a [World], over which every theorem
      quantifies. *)

From Stdlib Require Import String Ascii ZArith NArith List Lia Permutation.
From stdpp Require Import base decidable option list gmap pretty.

Local Open Scope Z_scope.
Local Open Scope list_scope.

(** ** Python text *)

(** A Python [str] is a sequence of code points. *)
Abbreviation pystr := (list N) (only parsing).

(** Source literals are written as Rocq strings, which hold UTF-8 bytes;
    [utf8_decode] turns the bytes into code points. *)
Fixpoint utf8_decode (bs : list N) : pystr :=
  match bs with
  | [] => []
  | b :: r =>
    if (b <? 128)%N then b :: utf8_decode r
    else if (b <? 224)%N then
      match r with
      | c1 :: r1 => ((b - 192) * 64 + (c1 - 128))%N :: utf8_decode r1
      | _ => []
      end
    else if (b <? 240)%N then
      match r with
      | c1 :: c2 :: r2 =>
        ((b - 224) * 4096 + (c1 - 128) * 64 + (c2 - 128))%N :: utf8_decode r2
      | _ => []
      end
    else
      match r with
      | c1 :: c2 :: c3 :: r3 =>
        ((b - 240) * 262144 + (c1 - 128) * 4096 + (c2 - 128) * 64 + (c3 - 128))%N
          :: utf8_decode r3
      | _ => []
      end
  end.

Definition py (s : string) : pystr :=
  utf8_decode (map N_of_ascii (list_ascii_of_string s)).

(** The line feed. *)
Definition nl : pystr := [10%N].

(** [sep.join(parts)] *)
Fixpoint join (sep : pystr) (parts : list pystr) : pystr :=
  match parts with
  | [] => []
  | [p] => p
  | p :: rest => p ++ sep ++ join sep rest
  end.

(** [s.startswith(p)] and [s.endswith(p)] *)
Definition startswith (p s : pystr) : bool := bool_decide (take (length p) s = p).

Definition endswith (p s : pystr) : bool :=
  bool_decide (drop (length s - length p) s = p) && bool_decide (length p <= length s)%nat.

(** [s[i:-j]]: from index [i] up to [j] characters before the end. *)
Definition slice_between (i j : nat) (s : pystr) : pystr :=
  take (length s - j - i) (drop i s).

(** [str.isspace] of one character: the code points Python treats as white
    space. *)
Definition isspace (c : N) : bool :=
  ((9 <=? c) && (c <=? 13) || (28 <=? c) && (c <=? 32) || (c =? 133) || (c =? 160)
   || (c =? 5760) || (8192 <=? c) && (c <=? 8202) || (c =? 8232) || (c =? 8233)
   || (c =? 8239) || (c =? 8287) || (c =? 12288))%N.

Fixpoint lstrip (s : pystr) : pystr :=
  match s with
  | c :: r => if isspace c then lstrip r else s
  | [] => []
  end.

(** [s.strip()] *)
Definition strip (s : pystr) : pystr := rev (lstrip (rev (lstrip s))).

(** [s.lower()].  The letters A-Z go to a-z.  Python also maps cased letters
    outside ASCII; none of them is mapped to an ASCII [q] or [s], the only
    texts a lowered input is compared with, so they are left as they are. *)
Definition lower_char (c : N) : N :=
  if ((65 <=? c) && (c <=? 90))%N then (c + 32)%N else c.

Definition lower (s : pystr) : pystr := map lower_char s.

(** [s or default] on text: the empty text is false. *)
Definition or_default (s default : pystr) : pystr :=
  match s with [] => default | _ => s end.

(** [str(n)] of an integer. *)
Definition str_of_Z (n : Z) : pystr := py (pretty n).

(** ** Ordered dictionaries

    A Python [dict] keeps its keys in insertion order, and the orchestrator
    iterates over its dictionaries, so they are association lists; an
    assignment to a key that is present replaces its value in place. *)
Abbreviation pydict V := (list (pystr * V)) (only parsing).

Fixpoint dict_set {V} (k : pystr) (v : V) (d : pydict V) : pydict V :=
  match d with
  | [] => [(k, v)]
  | (k', v') :: r =>
    if decide (k' = k) then (k, v) :: r else (k', v') :: dict_set k v r
  end.

Fixpoint dict_get {V} (k : pystr) (d : pydict V) : option V :=
  match d with
  | [] => None
  | (k', v') :: r => if decide (k' = k) then Some v' else dict_get k r
  end.

Definition dict_keys {V} (d : pydict V) : list pystr := d.*1.

Definition dict_values {V} (d : pydict V) : list V := d.*2.

(** [k in d] *)
Definition dict_mem {V} (k : pystr) (d : pydict V) : bool :=
  bool_decide (k ∈ dict_keys d).

(** ** Providers ([providers.py]) *)

(** The three provider classes behind the factory. *)
Inductive ProviderKind : Type := Claude | Gemini | GPT.

Global Instance ProviderKind_eq_dec : EqDecision ProviderKind.
Proof. solve_decision. Defined.

(** The per-provider configuration dictionary: the keys the modelled code
    reads.  [None] is an absent key.  The model and agent identifiers and
    [max_tokens] only parametrise the network call, which is the world's. *)
Record ProviderConfig : Type := mkProviderConfig {
  cfg_enabled : option bool;
  cfg_role : option pystr;
  cfg_api_key : option pystr;
}.

(** [AIProvider.__init__] and the subclasses' [__init__]: the attributes the
    call paths read. *)
Record Provider : Type := mkProvider {
  kind : ProviderKind;
  role : pystr;
  api_key : pystr;
}.

(** [_resolve_key], the same in the three classes: a key wrapped as
    [${NAME}] is looked up in the environment, with the empty text when
    [NAME] is not set. *)
Definition _resolve_key (env : gmap pystr pystr) (key : pystr) : pystr :=
  if startswith (py "${") key && endswith (py "}") key then
    let env_var := slice_between 2 1 key in
    default [] (env !! env_var)
  else key.

Definition new_provider (env : gmap pystr pystr) (k : ProviderKind)
    (config : ProviderConfig) : Provider :=
  {| kind := k;
     role := default (py "연구 전문가") (cfg_role config);
     api_key := _resolve_key env (default [] (cfg_api_key config)) |}.

(** An exception, with the text [str(e)] gives. *)
Inductive res (A : Type) : Type :=
  | Val (a : A)
  | Exn (e : pystr).
Arguments Val {A} a.
Arguments Exn {A} e.

(** [create_provider]: the factory; an unknown name raises. *)
Definition provider_class (name : pystr) : option ProviderKind :=
  if decide (name = py "claude") then Some Claude
  else if decide (name = py "gemini") then Some Gemini
  else if decide (name = py "gpt") then Some GPT
  else None.

Definition create_provider (env : gmap pystr pystr) (name : pystr)
    (config : ProviderConfig) : res Provider :=
  match provider_class name with
  | None => Exn (py "알 수 없는 프로바이더: " ++ name)
  | Some cls => Val (new_provider env cls config)
  end.

(** ** Session data ([researcher.py]) *)

Inductive EntryType : Type := critique | respond.

Definition EntryType_str (t : EntryType) : pystr :=
  match t with critique => py "critique" | respond => py "respond" end.

(** One element of [self.debate]. *)
Record DebateEntry : Type := mkEntry {
  d_round : Z;
  d_type : EntryType;
  d_provider : pystr;
  d_content : pystr;
}.

(** What [_save_state] serialises into [state.json]. *)
Record Snapshot : Type := mkSnapshot {
  snap_query : pystr;
  snap_context : pystr;
  snap_role_set : pystr;
  snap_research : pydict pystr;
  snap_debate : list DebateEntry;
  snap_consensus : pystr;
}.

(** A prompt is one of the source's templates with the values interpolated
    into it; the fixed wording of a template is not kept. *)
Inductive Prompt : Type :=
  | PClarify (role query : pystr)
  | PResearch (role query ctx : pystr)
  | PCritique (role others own : pystr)
  | PRespond (role crits : pystr)
  | PConsensus (history : pystr)
  | PVerify (consensus : pystr)
  | PAmend (consensus feedbacks : pystr)
  | PFocused (topic consensus : pystr)
  | PSynthesis (topic views : pystr)
  | PReport (query ctx rsumm consensus : pystr).

(** The files the orchestrator writes beside [state.json], by the parts of
    their names. *)
Inductive Artifact : Type :=
  | QAFile
  | ResearchReport (name : pystr)
  | CritiqueFile (rnd : Z) (name : pystr)
  | ResponseFile (rnd : Z) (name : pystr)
  | ConsensusFile (rnd : Z)
  | VerifyFile (rnd : Z) (name : pystr)
  | ConsensusFinal
  | ExtraFile (idx : nat) (name : pystr)
  | ExtraSynthesis (idx : nat)
  | FinalReport.

(** What one [input()] meets. *)
Inductive input_ev : Type :=
  | Line (s : pystr)
  | Eof
  | Interrupt.

(** What a call to a provider comes back with: a text, or an exception. *)
Inductive outcome : Type :=
  | Ok (text : pystr)
  | Fail (msg : pystr).

Definition outcome_of_res (r : res pystr) : outcome :=
  match r with Val t => Ok t | Exn e => Fail e end.

Definition res_of_outcome (o : outcome) : res pystr :=
  match o with Ok t => Val t | Fail e => Exn e end.

Inductive Phase : Type := Phase0 | PhaseA | PhaseB | PhaseC | PhaseD.

Inductive RoundKind : Type := Critique | Respond | Consensus.

(** Which call site of the orchestrator a provider call comes from.  The
    tag is not part of the prompt text; the trace keeps it so that a call
    can be told to its round. *)
Inductive Origin : Type :=
  | OClarify
  | OResearch
  | OCritique (rnd : Z)
  | ORespond (rnd : Z)
  | OConsensus (rnd : Z)
  | OVerify (rnd : Z)
  | OAmend (rnd : Z)
  | OFocused (idx : nat)
  | OSynthesis (idx : nat)
  | OReport.

(** The trace: what the program did, oldest first. *)
Inductive Event : Type :=
  | EvMkdir
  | EvBanner (ph : Phase)
  | EvRound (k : RoundKind) (rnd : Z)
  | EvApi (cls : ProviderKind) (p : Prompt) (deep : bool) (r : outcome)
  | EvCli (cls : ProviderKind) (p : Prompt) (r : outcome)
  | EvCall (o : Origin) (name : pystr) (p : Prompt) (r : outcome)
  | EvSave (a : Artifact) (text : pystr)
  | EvSaveState (s : Snapshot)
  | EvInput (i : input_ev)
  | EvDone.

(** The outside.  [api_world t cls p deep] and [cli_world t cls p] are what
    the primary path and the command-line tool of provider class [cls] come
    back with when asked [p] at time [t], the number of events so far;
    [sched_world t] says which of the pending awaits of a gather resolves
    next.  The text helpers of phase 0 ([extract_json], [_build_qa_file],
    [_parse_qa_file]) are not embedded: the world gives the questions read
    from an answer, the question file written, and the context read back
    from the file the user edited ([None] when the file is gone). *)
Record World : Type := mkWorld {
  api_world : nat -> ProviderKind -> Prompt -> bool -> outcome;
  cli_world : nat -> ProviderKind -> Prompt -> outcome;
  sched_world : nat -> nat;
  questions_world : pystr -> list pystr;
  qa_file_world : pydict (list pystr) -> pystr;
  qa_answers_world : nat -> option pystr;
}.

(** The orchestrator's mutable attributes, the console input still to be
    read, and the trace. *)
Record St : Type := mkSt {
  ctx : pystr;
  research : pydict pystr;
  debate : list DebateEntry;
  consensus : pystr;
  stdin : list input_ev;
  trace : list Event;
}.

Definition set_ctx (v : pystr) (st : St) : St :=
  mkSt v (research st) (debate st) (consensus st) (stdin st) (trace st).

Definition set_research (v : pydict pystr) (st : St) : St :=
  mkSt (ctx st) v (debate st) (consensus st) (stdin st) (trace st).

Definition set_debate (v : list DebateEntry) (st : St) : St :=
  mkSt (ctx st) (research st) v (consensus st) (stdin st) (trace st).

Definition set_consensus (v : pystr) (st : St) : St :=
  mkSt (ctx st) (research st) (debate st) v (stdin st) (trace st).

Definition set_stdin (v : list input_ev) (st : St) : St :=
  mkSt (ctx st) (research st) (debate st) (consensus st) v (trace st).

Definition emit (e : Event) (st : St) : St :=
  mkSt (ctx st) (research st) (debate st) (consensus st) (stdin st) (trace st ++ [e]).

(** ** The monad: state, and exceptions that keep the state *)

Definition M (A : Type) : Type := St -> res A * St.

Global Instance M_ret : MRet M := fun A a st => (Val a, st).

Global Instance M_bind : MBind M := fun A B f m st =>
  match m st with
  | (Val a, st') => f a st'
  | (Exn e, st') => (Exn e, st')
  end.

(** [raise] *)
Definition raise {A} (e : pystr) : M A := fun st => (Exn e, st).

(** [try: m  except Exception as e: h e] *)
Definition try_except {A} (m : M A) (h : pystr -> M A) : M A := fun st =>
  match m st with
  | (Val a, st') => (Val a, st')
  | (Exn e, st') => h e st'
  end.

Definition get {A} (f : St -> A) : M A := fun st => (Val (f st), st).

Definition modify (f : St -> St) : M unit := fun st => (Val tt, f st).

Definition log (e : Event) : M unit := modify (emit e).

(** [for x in xs: body x], the body's lists collected. *)
Fixpoint for_each {A B} (body : A -> M (list B)) (xs : list A) : M (list B) :=
  match xs with
  | [] => mret []
  | x :: rest => out ← body x; outs ← for_each body rest; mret (out ++ outs)
  end.

Section Providers.
Variable W : World.

(** [_cli_fallback]: the command-line tool of the provider's class; a
    non-zero exit status raises. *)
Definition _cli_fallback (p : Provider) (prompt : Prompt) : M pystr := fun st =>
  let r := cli_world W (length (trace st)) (kind p) prompt in
  (res_of_outcome r, emit (EvCli (kind p) prompt r) st).

(** The body of [query] past the credential test: the vendor's client. *)
Definition api_call (p : Provider) (prompt : Prompt) (deep_research : bool) : M pystr :=
  fun st =>
  let r := api_world W (length (trace st)) (kind p) prompt deep_research in
  (res_of_outcome r, emit (EvApi (kind p) prompt deep_research r) st).

(** [query], the same in the three classes. *)
Definition query (p : Provider) (prompt : Prompt) (deep_research : bool) : M pystr :=
  if decide (api_key p = []) then _cli_fallback p prompt
  else api_call p prompt deep_research.

(** [AIProvider.query_with_fallback] *)
Definition query_with_fallback (p : Provider) (prompt : Prompt)
    (deep_research : bool) : M pystr :=
  try_except (query p prompt deep_research) (fun _ => _cli_fallback p prompt).

(** [asyncio.gather] over [body(x) for x in tasks], for bodies with one await,
    the provider call.  What a body reads before its await is not changed by
    the other bodies of the same gather (see [respond_crits_later_rounds]
    for the one place where the bodies write what a sibling filters), and
    what follows its await runs without interruption; so the bodies are run
    whole, one after the other, in the order in which the world resolves
    their awaits. *)
Fixpoint gather_pending {A B} (n : nat) (body : A -> M (list B)) (pending : list A)
    (acc : list B) : M (list B) :=
  match n with
  | O => mret acc
  | S n' => fun st =>
    let i := (sched_world W (length (trace st)) mod length pending)%nat in
    match pending !! i with
    | None => (Val acc, st)
    | Some x =>
      (out ← body x; gather_pending n' body (delete i pending) (acc ++ out)) st
    end
  end.

Definition gather {A B} (body : A -> M (list B)) (tasks : list A) : M (list B) :=
  gather_pending (length tasks) body tasks [].

End Providers.

(** ** The checkpoint ([class Gate]) *)

(** The three answers of a gate: the source's ['c'], ['s'] and ['q']. *)
Inductive GateDecision : Type := Proceed | SkipPhase | Abort.

(** [input()]: the next thing the console gives; a console that has nothing
    left is at its end. *)
Definition read_input : M input_ev := fun st =>
  match stdin st with
  | [] => (Val Eof, emit (EvInput Eof) st)
  | i :: rest => (Val i, emit (EvInput i) (set_stdin rest st))
  end.

(** [input(...).strip().lower()] inside [try], with the value the [except]
    branch for [EOFError] and [KeyboardInterrupt] assigns. *)
Definition choice (on_end : pystr) (i : input_ev) : pystr :=
  match i with
  | Line s => lower (strip s)
  | Eof | Interrupt => on_end
  end.

Module Gate.

(** [Gate.ask].  The title, the description and the file list are only
    printed. *)
Definition ask : M GateDecision :=
  i ← read_input;
  let ch := choice (py "q") i in
  if decide (ch = py "q") then mret Abort
  else if decide (ch = py "s") then mret SkipPhase
  else mret Proceed.

(** [Gate.ask_round] *)
Definition ask_round : M GateDecision :=
  i ← read_input;
  let ch := choice (py "q") i in
  mret (if decide (ch = py "q") then Abort else Proceed).

End Gate.

(** ** The orchestrator ([class Orchestrator]) *)

(** One entry of a role set, [ROLE_SETS[rs_name][name]]. *)
Record RoleInfo : Type := mkRoleInfo {
  ri_name : pystr;
  ri_persona : pystr;
  ri_focus : pystr;
  ri_style : pystr;
}.

(** The configuration dictionary: the keys [__init__] reads, [None] for an
    absent key. *)
Record Config : Type := mkConfig {
  cfg_deep_research : option bool;
  cfg_debate_rounds : option Z;
  cfg_providers : option (pydict ProviderConfig);
}.

(** The attributes [__init__] sets once; the mutable ones are in [St]. *)
Record Orchestrator : Type := mkOrchestrator {
  self_query : pystr;
  self_deep : bool;
  self_rounds : Z;
  self_rs_name : pystr;
  self_roles : gmap pystr RoleInfo;
  self_ai : pydict Provider;
}.

(** [_role_prompt]: the four lines, joined; [filter(None, ...)] drops an
    empty line. *)
Definition _role_prompt (ri : RoleInfo) : pystr :=
  join nl (filter (fun l : pystr => l <> [])
    [ py "역할: " ++ ri_name ri;
      py "페르소나: " ++ ri_persona ri;
      py "집중 영역: " ++ ri_focus ri;
      py "소통 스타일: " ++ ri_style ri ]).

(** The loop of [__init__] over [config.get("providers", {}).items()]: a
    disabled provider is skipped, the role of the role set is injected, and
    a provider the factory refuses is left out with a warning. *)
Fixpoint init_providers (env : gmap pystr pystr) (roles : gmap pystr RoleInfo)
    (items : pydict ProviderConfig) (ai : pydict Provider) : pydict Provider :=
  match items with
  | [] => ai
  | (name, pcfg) :: rest =>
    if negb (default true (cfg_enabled pcfg)) then init_providers env roles rest ai
    else
      let pcfg' :=
        match roles !! name with
        | Some ri => mkProviderConfig (cfg_enabled pcfg) (Some (_role_prompt ri))
                       (cfg_api_key pcfg)
        | None => pcfg
        end in
      match create_provider env name pcfg' with
      | Val p => init_providers env roles rest (dict_set name p ai)
      | Exn _ => init_providers env roles rest ai
      end
  end.

(** The message of the exception [__init__] raises. *)
Definition no_provider_error : pystr := py "활성화된 AI 프로바이더가 없습니다.".

(** [Orchestrator.__init__].  The role set ([rs_name] and its table) is
    taken as chosen; the output directory has been made when the providers
    are built. *)
Definition Orchestrator_init (env : gmap pystr pystr) (config : Config)
    (query : pystr) (deep_research : bool) (rs_name : pystr)
    (roles : gmap pystr RoleInfo) : res Orchestrator :=
  let deep := deep_research || default false (cfg_deep_research config) in
  let rounds := Z.min (default 3 (cfg_debate_rounds config)) 5 in
  let ai := init_providers env roles (default [] (cfg_providers config)) [] in
  match ai with
  | [] => Exn no_provider_error
  | _ => Val (mkOrchestrator query deep rounds rs_name roles ai)
  end.

(** The state when [__init__] has made the output directory and set the
    mutable attributes. *)
Definition initial_state (input : list input_ev) : St :=
  mkSt [] [] [] [] input [EvMkdir].

(** How [run] ended: at the [return] after a gate that said abort, or at
    its last line. *)
Inductive RunEnd : Type :=
  | StoppedAfter (ph : Phase)
  | Completed.

(** [range(1, n + 1)] *)
Definition range_from_1 (n : Z) : list Z := map Z.of_nat (seq 1 (Z.to_nat n)).

(** [enumerate(xs, 1)] *)
Definition enumerate_from_1 {A} (xs : list A) : list (nat * A) :=
  zip (seq 1 (length xs)) xs.

(** The test [not v.startswith("[")] the source uses to tell an answer from
    a failed research entry. *)
Definition is_answer (v : pystr) : bool := negb (startswith (py "[") v).

(** [while True: t = input(...).strip(); if not t: break; topics.append(t)],
    where the end of the input and an interrupt break too. *)
Fixpoint read_topics_from (inp : list input_ev) : list pystr * list input_ev * list Event :=
  match inp with
  | [] => ([], [], [EvInput Eof])
  | Line s :: rest =>
    match strip s with
    | [] => ([], rest, [EvInput (Line s)])
    | t =>
      let '(topics, rest', evs) := read_topics_from rest in
      (t :: topics, rest', EvInput (Line s) :: evs)
    end
  | i :: rest => ([], rest, [EvInput i])
  end.

Definition read_topics : M (list pystr) := fun st =>
  let '(topics, rest, evs) := read_topics_from (stdin st) in
  (Val topics,
   mkSt (ctx st) (research st) (debate st) (consensus st) rest (trace st ++ evs)).

(** [save(path, text)]; of the text, the part that is not fixed by the
    file's name is kept. *)
Definition save (a : Artifact) (text : pystr) : M unit := log (EvSave a text).

Section Phases.
Variable W : World.
Variable self : Orchestrator.

(** [self._rname] *)
Definition _rname (name : pystr) : pystr :=
  match self_roles self !! name with
  | Some ri => ri_name ri
  | None => name
  end.

(** [self._save_state] *)
Definition _save_state : M unit := fun st =>
  (Val tt,
   emit (EvSaveState (mkSnapshot (self_query self) (ctx st) (self_rs_name self)
                        (research st) (debate st) (consensus st))) st).

(** [await prov.query_with_fallback(prompt, deep)] at the call site [o]. *)
Definition call (o : Origin) (name : pystr) (prov : Provider) (prompt : Prompt)
    (deep_research : bool) : M pystr := fun st =>
  let '(r, st') := query_with_fallback W prov prompt deep_research st in
  (r, emit (EvCall o name prompt (outcome_of_res r)) st').

(** [list(self.ai)[0]], an [IndexError] on an empty dictionary. *)
Definition first_provider : res (pystr * Provider) :=
  match self_ai self with
  | [] => Exn (py "list index out of range")
  | np :: _ => Val np
  end.

(** [lead_n = "claude" if "claude" in self.ai else list(self.ai)[0]] and
    [self.ai[lead_n]], in [_round_consensus] and [phaseD_report]. *)
Definition lead_claude_first : res (pystr * Provider) :=
  match dict_get (py "claude") (self_ai self) with
  | Some prov => Val (py "claude", prov)
  | None => first_provider
  end.

Definition lift_res {A} (r : res A) : M A := fun st => (r, st).

(** *** Phase 0 *)

(** [_ask]: the questions of one provider, none when its call fails. *)
Definition clarify_ask (np : pystr * Provider) : M (list (pystr * list pystr)) :=
  let '(name, prov) := np in
  try_except
    (r ← call OClarify name prov (PClarify (role prov) (self_query self)) false;
     mret [(name, questions_world W r)])
    (fun _ => mret [(name, [])]).

(** [phase0_clarify].  [gather] hands the results back in the order of the
    tasks, whatever the order they resolved in. *)
Definition phase0_clarify : M GateDecision :=
  log (EvBanner Phase0);;
  results ← gather W clarify_ask (self_ai self);
  let all_qs := map (fun np : pystr * Provider =>
                       (np.1, default [] (dict_get np.1 results))) (self_ai self) in
  save QAFile (qa_file_world W all_qs);;
  i ← read_input;
  let ch := choice (py "s") i in
  t ← get (fun st => length (trace st));
  match (if decide (ch = py "s") then None else qa_answers_world W t) with
  | Some answers => modify (set_ctx answers)
  | None => mret tt
  end;;
  _save_state;;
  Gate.ask.

(** *** Phase A *)

(** The text stored for a provider whose research failed. *)
Definition research_failed (e : pystr) : pystr := py "[조사 실패: " ++ e ++ py "]".

(** [_do] of [phaseA_research] *)
Definition research_do (np : pystr * Provider) : M (list Artifact) :=
  let '(name, prov) := np in
  c ← get ctx;
  let prompt := PResearch (role prov) (self_query self) (or_default c (py "(없음)")) in
  try_except
    (result ← call OResearch name prov prompt (self_deep self);
     modify (fun st => set_research (dict_set name result (research st)) st);;
     save (ResearchReport name) result;;
     mret [ResearchReport name])
    (fun e =>
     modify (fun st => set_research (dict_set name (research_failed e) (research st)) st);;
     mret []).

(** The fan-out of [phaseA_research]. *)
Definition research_batch : M (list Artifact) := gather W research_do (self_ai self).

(** [ok = sum(1 for v in self.research.values() if not v.startswith("["))] *)
Definition research_ok (r : pydict pystr) : nat :=
  length (filter (fun v => is_answer v = true) (dict_values r)).

Definition phaseA_research : M GateDecision :=
  log (EvBanner PhaseA);;
  files ← research_batch;
  _save_state;;
  Gate.ask.

(** *** Phase B *)

(** The [others] of a critique prompt: the reports of the other providers
    that are answers, each under a heading and cut at 6000 characters. *)
Definition critique_others (name : pystr) (r : pydict pystr) : pystr :=
  join (nl ++ nl)
    (map (fun kv : pystr * pystr =>
            py "### " ++ kv.1 ++ py " (" ++ _rname kv.1 ++ py ")" ++ nl ++ take 6000 kv.2)
       (filter (fun kv : pystr * pystr => kv.1 <> name /\ is_answer kv.2 = true) r)).

(** [_do] of [_round_critique] *)
Definition critique_do (rnd : Z) (np : pystr * Provider) : M (list Artifact) :=
  let '(name, prov) := np in
  r ← get research;
  let others := critique_others name r in
  let own := take 6000 (default [] (dict_get name r)) in
  let prompt := PCritique (role prov) others own in
  try_except
    (r ← call (OCritique rnd) name prov prompt false;
     modify (fun st => set_debate (debate st ++ [mkEntry rnd critique name r]) st);;
     save (CritiqueFile rnd name) r;;
     mret [CritiqueFile rnd name])
    (fun _ => mret []).

Definition _round_critique (rnd : Z) : M (list Artifact) :=
  log (EvRound Critique rnd);;
  gather W (critique_do rnd) (self_ai self).

(** The debate entries a respond prompt of round [rnd] for [name] is built
    from: [rec for rec in self.debate if rec["round"] == prev and
    rec["provider"] != name], with [prev = rnd - 1]. *)
Definition respond_refs (rnd : Z) (name : pystr) (d : list DebateEntry) : list DebateEntry :=
  filter (fun rec => d_round rec = rnd - 1 /\ d_provider rec <> name) d.

Definition respond_crits (rnd : Z) (name : pystr) (d : list DebateEntry) : pystr :=
  join (nl ++ nl)
    (map (fun rec =>
            py "### " ++ d_provider rec ++ py " (" ++ _rname (d_provider rec) ++ py ")"
              ++ nl ++ take 5000 (d_content rec))
       (respond_refs rnd name d)).

(** The prompt [_do] of [_round_respond] builds. *)
Definition respond_prompt (rnd : Z) (np : pystr * Provider) (d : list DebateEntry) : Prompt :=
  PRespond (role np.2) (or_default (respond_crits rnd np.1 d) (py "(없음)")).

(** [_do] of [_round_respond] *)
Definition respond_do (rnd : Z) (np : pystr * Provider) : M (list Artifact) :=
  let '(name, prov) := np in
  d ← get debate;
  let prompt := respond_prompt rnd (name, prov) d in
  try_except
    (r ← call (ORespond rnd) name prov prompt false;
     modify (fun st => set_debate (debate st ++ [mkEntry rnd respond name r]) st);;
     save (ResponseFile rnd name) r;;
     mret [ResponseFile rnd name])
    (fun _ => mret []).

Definition _round_respond (rnd : Z) : M (list Artifact) :=
  log (EvRound Respond rnd);;
  gather W (respond_do rnd) (self_ai self).

(** The [history] of a consensus prompt: every debate entry, each cut at
    4000 characters. *)
Definition consensus_history (d : list DebateEntry) : pystr :=
  join (nl ++ nl ++ py "---" ++ nl ++ nl)
    (map (fun rec =>
            py "## R" ++ str_of_Z (d_round rec) ++ py " — " ++ d_provider rec
              ++ py " (" ++ _rname (d_provider rec) ++ py ") [" ++ EntryType_str (d_type rec)
              ++ py "]" ++ nl ++ take 4000 (d_content rec))
       d).

(** The verification pass: one call after the other, the lead left out; a
    call that fails leaves no feedback. *)
Definition verify_do (rnd : Z) (lead_n : pystr) (verify_prompt : Prompt)
    (np : pystr * Provider) : M (list (Artifact * pystr)) :=
  let '(name, prov) := np in
  if decide (name = lead_n) then mret []
  else
    try_except
      (vr ← call (OVerify rnd) name prov verify_prompt false;
       save (VerifyFile rnd name) vr;;
       mret [(VerifyFile rnd name, py "### " ++ name ++ nl ++ vr)])
      (fun _ => mret []).

Definition _round_consensus (rnd : Z) : M (list Artifact) :=
  log (EvRound Consensus rnd);;
  d ← get debate;
  let history := consensus_history d in
  '(lead_n, lead) ← lift_res lead_claude_first;
  let prompt := PConsensus (take 30000 history) in
  consensus ← call (OConsensus rnd) lead_n lead prompt false;
  modify (set_consensus consensus);;
  save (ConsensusFile rnd) consensus;;
  let verify_prompt := PVerify (take 8000 consensus) in
  verified ← for_each (verify_do rnd lead_n verify_prompt) (self_ai self);
  let feedbacks := verified.*2 in
  match feedbacks with
  | [] => mret (ConsensusFile rnd :: verified.*1)
  | _ =>
    let amend := PAmend (take 8000 consensus) (take 6000 (concat feedbacks)) in
    final ← call (OAmend rnd) lead_n lead amend false;
    modify (set_consensus final);;
    save ConsensusFinal final;;
    mret (ConsensusFile rnd :: verified.*1 ++ [ConsensusFinal])
  end.

(** The loop of [phaseB_debate] over [range(1, self.rounds + 1)], with its
    two [break]s; the value is [actual_rounds]. *)
Fixpoint debate_rounds (rnds : list Z) (actual_rounds : Z) : M Z :=
  match rnds with
  | [] => mret actual_rounds
  | rnd :: rest =>
    let is_last := bool_decide (rnd = self_rounds self) in
    let after_round : M Z :=
      _save_state;;
      if negb is_last then
        g ← Gate.ask_round;
        match g with
        | Abort => _round_consensus (rnd + 1);; mret rnd
        | _ => debate_rounds rest rnd
        end
      else debate_rounds rest rnd in
    if bool_decide (rnd = 1) then _round_critique rnd;; after_round
    else if is_last then _round_consensus rnd;; mret rnd
    else _round_respond rnd;; after_round
  end.

Definition phaseB_debate : M GateDecision :=
  log (EvBanner PhaseB);;
  actual_rounds ← debate_rounds (range_from_1 (self_rounds self)) 0;
  _save_state;;
  Gate.ask.

(** *** Phase C *)

(** [_do] of [_focused]: the file written and the pair appended to
    [results]. *)
Definition focused_do (idx : nat) (prompt : Prompt) (np : pystr * Provider)
    : M (list (Artifact * (pystr * pystr))) :=
  let '(name, prov) := np in
  try_except
    (r ← call (OFocused idx) name prov prompt false;
     save (ExtraFile idx name) r;;
     mret [(ExtraFile idx name, (name, r))])
    (fun _ => mret []).

Definition _focused (topic : pystr) (idx : nat) : M (list Artifact) :=
  c ← get consensus;
  let prompt := PFocused topic (take 4000 c) in
  out ← gather W (focused_do idx prompt) (self_ai self);
  let results := out.*2 in
  let views :=
    join (nl ++ nl ++ py "---" ++ nl ++ nl)
      (map (fun nr : pystr * pystr => py "## " ++ nr.1 ++ nl ++ take 4000 nr.2) results) in
  '(lead_n, lead) ← lift_res first_provider;
  syn ← call (OSynthesis idx) lead_n lead (PSynthesis topic views) false;
  save (ExtraSynthesis idx) syn;;
  mret (out.*1 ++ [ExtraSynthesis idx]).

(** The loop of [phaseC_extra] over [enumerate(topics, 1)]; the value is
    [files]. *)
Fixpoint extra_topics (n_topics : nat) (items : list (nat * pystr)) : M (list Artifact) :=
  match items with
  | [] => mret []
  | (i, topic) :: rest =>
    fs ← _focused topic i;
    _save_state;;
    if bool_decide (i < n_topics)%nat then
      g ← Gate.ask_round;
      match g with
      | Abort => mret fs
      | _ => more ← extra_topics n_topics rest; mret (fs ++ more)
      end
    else more ← extra_topics n_topics rest; mret (fs ++ more)
  end.

Definition phaseC_extra : M GateDecision :=
  log (EvBanner PhaseC);;
  topics ← read_topics;
  files ← extra_topics (length topics) (enumerate_from_1 topics);
  match files with
  | [] => mret Proceed
  | _ => Gate.ask
  end.

(** *** Phase D *)

Definition report_summary (r : pydict pystr) : pystr :=
  join (nl ++ nl ++ py "---" ++ nl ++ nl)
    (map (fun kv : pystr * pystr =>
            py "## " ++ kv.1 ++ py " (" ++ _rname kv.1 ++ py ")" ++ nl ++ take 5000 kv.2)
       (filter (fun kv : pystr * pystr => is_answer kv.2 = true) r)).

Definition phaseD_report : M GateDecision :=
  log (EvBanner PhaseD);;
  r ← get research;
  c ← get ctx;
  cons ← get consensus;
  let prompt := PReport (self_query self) (or_default c (py "(없음)"))
                  (take 10000 (report_summary r)) (take 8000 cons) in
  '(lead_n, lead) ← lift_res lead_claude_first;
  report ← call OReport lead_n lead prompt false;
  save FinalReport report;;
  _save_state;;
  Gate.ask.

(** *** [run] *)

Definition run (skip_clarify skip_extra : bool) : M RunEnd :=
  g0 ← (if skip_clarify then mret Proceed else phase0_clarify);
  match g0 with
  | Abort => mret (StoppedAfter Phase0)
  | _ =>
    gA ← phaseA_research;
    match gA with
    | Abort => mret (StoppedAfter PhaseA)
    | _ =>
      gB ← phaseB_debate;
      match gB with
      | Abort => mret (StoppedAfter PhaseB)
      | _ =>
        gC ← (if skip_extra then mret Proceed else phaseC_extra);
        match gC with
        | Abort => mret (StoppedAfter PhaseC)
        | _ => phaseD_report;; log EvDone;; mret Completed
        end
      end
    end
  end.

End Phases.

(** [main] past the argument parser: the [--rounds] override, the
    construction, and [asyncio.run(orc.run(...))]. *)
Definition override_rounds (rounds_arg : option Z) (config : Config) : Config :=
  match rounds_arg with
  | Some r =>
    if decide (r = 0) then config
    else mkConfig (cfg_deep_research config) (Some (Z.min r 5)) (cfg_providers config)
  | None => config
  end.


(** * Further parts of the program *)

(** ** Choosing the role set ([detect_role_set]) *)

(** [w in q] on text: [w] occurs in [q] as consecutive characters. *)
Fixpoint contains (w q : pystr) : bool :=
  startswith w q || match q with [] => false | _ :: r => contains w r end.

(** The names of the role sets. *)
Definition rs_market : pystr := py "market".
Definition rs_technical : pystr := py "technical".
Definition rs_research : pystr := py "research".
Definition rs_general : pystr := py "general".

(** The keyword table [kw] of [detect_role_set], in the order of the
    dictionary. *)
Definition market_words : list pystr :=
  [ py "시장"; py "경쟁"; py "진입"; py "전략"; py "사업"; py "비즈니스";
    py "market"; py "competitor"; py "business"; py "pricing" ].

Definition technical_words : list pystr :=
  [ py "아키텍처"; py "설계"; py "구현"; py "기술 스택"; py "프레임워크";
    py "architecture"; py "implementation"; py "stack"; py "framework" ].

Definition research_words : list pystr :=
  [ py "모델"; py "논문"; py "알고리즘"; py "벤치마크"; py "NER"; py "NLP"; py "ML";
    py "model"; py "paper"; py "algorithm"; py "survey" ].

Definition role_keywords : pydict (list pystr) :=
  [ (rs_market, market_words); (rs_technical, technical_words);
    (rs_research, research_words) ].

(** [sum(1 for w in ws if w in q)] *)
Definition keyword_hits (ws : list pystr) (q : pystr) : nat :=
  length (filter (fun w => contains w q = true) ws).

(** [max(scores, key=scores.get)]: the keys are tried in the order of the
    dictionary, and a later key replaces the best one so far only with a
    strictly greater value; on an empty dictionary [max] raises. *)
Fixpoint max_from (best : pystr * nat) (rest : pydict nat) : pystr :=
  match rest with
  | [] => best.1
  | kv :: rest' => max_from (if (best.2 <? kv.2)%nat then kv else best) rest'
  end.

Definition max_key (scores : pydict nat) : res pystr :=
  match scores with
  | [] => Exn (py "max() arg is an empty sequence")
  | kv :: rest => Val (max_from kv rest)
  end.

(** [detect_role_set], over the keyword table and over [str.lower], which
    follows the case mappings of the Unicode database. *)
Definition detect_role_set_from (kw : pydict (list pystr)) (str_lower : pystr -> pystr)
    (query : pystr) : res pystr :=
  let q := str_lower query in
  let scores := map (fun kws : pystr * list pystr => (kws.1, keyword_hits kws.2 q)) kw in
  match max_key scores with
  | Exn e => Exn e
  | Val best =>
    match dict_get best scores with
    | Some n => Val (if (0 <? n)%nat then best else rs_general)
    | None => Exn best
    end
  end.

Definition detect_role_set : (pystr -> pystr) -> pystr -> res pystr :=
  detect_role_set_from role_keywords.

(** ** The name of the output directory ([__init__]) *)

(** The character class of the slug's pattern: the Hangul syllables from
    U+AC00 to U+D7A3, the letters [a-z] and [A-Z], the digits [0-9]. *)
Definition slug_char (c : N) : bool :=
  ((44032 <=? c) && (c <=? 55203) || (97 <=? c) && (c <=? 122)
   || (65 <=? c) && (c <=? 90) || (48 <=? c) && (c <=? 57))%N.

(** The dash. *)
Definition dash : N := 45%N.

(** [re.sub(r'[^...]+', '-', s)]: every maximal run of characters outside
    the class becomes one dash.  [in_run] says that the character before
    was outside the class. *)
Fixpoint sub_runs (in_run : bool) (s : pystr) : pystr :=
  match s with
  | [] => []
  | c :: r =>
    if slug_char c then c :: sub_runs false r
    else if in_run then sub_runs true r
    else dash :: sub_runs true r
  end.

(** [s.strip(chars)] for a set of characters. *)
Fixpoint lstrip_chars (chars : N -> bool) (s : pystr) : pystr :=
  match s with
  | c :: r => if chars c then lstrip_chars chars r else s
  | [] => []
  end.

Definition strip_chars (chars : N -> bool) (s : pystr) : pystr :=
  rev (lstrip_chars chars (rev (lstrip_chars chars s))).

(** [slug = re.sub(r'[^가-힣a-zA-Z0-9]+', '-', query)[:30].strip('-')] *)
Definition slug (query : pystr) : pystr :=
  strip_chars (N.eqb dash) (take 30 (sub_runs false query)).

(** The last component of [self.out], for the time stamp [ts]. *)
Definition out_name (ts query : pystr) : pystr := ts ++ py "-" ++ slug query.

(** ** The role sets ([ROLE_SETS]) *)

Definition research_roles : gmap pystr RoleInfo :=
  list_to_map
    [ (py "claude",
       {| ri_name := py "Domain Architect (도메인 설계자)";
          ri_persona := py "해당 분야 20년 경력의 시스템 아키텍트. 복잡한 시스템 설계와 기술적 트레이드오프 분석에 탁월하다.";
          ri_focus := py "시스템 설계·트레이드오프 비교·기술 장벽 식별·확장성/유지보수성 평가";
          ri_style := py "분석적·구조화. 모든 주장에 기술적 근거 포함. '어떤 조건에서 최선인가'를 중시." |});
      (py "gemini",
       {| ri_name := py "Literature Researcher (문헌 조사관)";
          ri_persona := py "NLP/AI 분야 연구원이자 기술 트렌드 분석가. 최신 논문·오픈소스를 광범위하게 조사하고 핵심을 정리한다.";
          ri_focus := py "최신 논문/기술 동향·오픈소스 비교·벤치마크 데이터·업계 사례";
          ri_style := py "증거 중심. 출처(논문명, URL, 날짜) 필수. 데이터·수치 적극 활용." |});
      (py "gpt",
       {| ri_name := py "Critical Analyst (비판적 분석가)";
          ri_persona := py "기술 실사(due diligence) 전문 시니어 컨설턴트. 낙관적 제안의 약점을 찾아내는 데 탁월하다.";
          ri_focus := py "현실 실행 가능성·숨겨진 리스크/비용·악마의 변호인·대안 비교";
          ri_style := py "'이론적으로 맞지만 실제로는…'. 구체적 수치/사례로 반박. 약점 후 개선안 필수." |}) ].

Definition market_roles : gmap pystr RoleInfo :=
  list_to_map
    [ (py "claude",
       {| ri_name := py "Strategy Architect (전략 설계자)";
          ri_persona := py "B2B SaaS 15년 경력 전략 컨설턴트. 시장 진입·포지셔닝·GTM에 정통.";
          ri_focus := py "TAM/SAM/SOM·진입 전략·비즈니스 모델·고객 세그먼테이션";
          ri_style := py "Porter's 5 Forces, SWOT 등 프레임워크. 정량 데이터. 경쟁사 벤치마킹." |});
      (py "gemini",
       {| ri_name := py "Market Intelligence (시장 정보 수집가)";
          ri_persona := py "시장 조사 전문 애널리스트. 공개 정보에서 숨겨진 인사이트 발견.";
          ri_focus := py "경쟁 솔루션 비교·산업 트렌드/규제·고객 리뷰·해외 시장";
          ri_style := py "팩트 중심. 비교 표 적극 활용. 출처·데이터 시점 명시." |});
      (py "gpt",
       {| ri_name := py "Venture Critic (벤처 비평가)";
          ri_persona := py "기술 스타트업 투자 심사역 경력. '이 사업이 왜 실패할 수 있는가'를 먼저 생각.";
          ri_focus := py "사업 모델 약점/리스크·경쟁 우위 지속 가능성·MVP/PMF 검증";
          ri_style := py "투자자 관점. Unit Economics·Moat 질문. 비판 후 개선안 필수." |}) ].

Definition technical_roles : gmap pystr RoleInfo :=
  list_to_map
    [ (py "claude",
       {| ri_name := py "Systems Architect (시스템 아키텍트)";
          ri_persona := py "대규모 분산 시스템 수석 아키텍트. 수만 대 규모 운영 경험.";
          ri_focus := py "전체 아키텍처·모듈 분리/인터페이스·확장성/성능·배포/운영";
          ri_style := py "다이어그램 활용. '10배 규모에서도 작동하는가?' 기준. 대안 함께 제시." |});
      (py "gemini",
       {| ri_name := py "Tech Scout (기술 스카우트)";
          ri_persona := py "최신 기술 스택/도구 생태계 추적 전문가.";
          ri_focus := py "기술 스택 벤치마크·최신 도구/프레임워크·오픈소스·커뮤니티 활성도";
          ri_style := py "비교표+벤치마크. GitHub 스타·다운로드수 등 정량 지표. 최신 정보 우선." |});
      (py "gpt",
       {| ri_name := py "Implementation Engineer (구현 엔지니어)";
          ri_persona := py "실제 코드를 작성하는 시니어 개발자. 아키텍처→코드 전환 시 문제를 잘 앎.";
          ri_focus := py "구현 난이도/공수 추정·프로젝트 구조·테스트/CI/CD·소규모 팀 로드맵";
          ri_style := py "코드 스니펫으로 뒷받침. '구현하면 ~3일/~2주' 구체적 추정. 현실 검증." |}) ].

Definition general_roles : gmap pystr RoleInfo :=
  list_to_map
    [ (py "claude",
       {| ri_name := py "Lead Analyst (수석 분석가)";
          ri_persona := py "맥킨지/BCG 출신 수석 컨설턴트. 복잡한 문제를 구조화하여 분석.";
          ri_focus := py "문제 구조화·핵심 이슈 도출·프레임워크 적용·실행 가능한 Next Steps";
          ri_style := py "MECE 원칙. 피라미드 구조(결론 먼저, 근거 뒷받침)." |});
      (py "gemini",
       {| ri_name := py "Research Investigator (조사 수사관)";
          ri_persona := py "탐사 보도 기자 출신 리서치 전문가. 교차 검증·다양한 관점 수집.";
          ri_focus := py "광범위한 자료 수집·교차 검증·이해관계자 관점·데이터 신뢰성";
          ri_style := py "5W1H. 모든 주장에 최소 2개 출처 교차 검증." |});
      (py "gpt",
       {| ri_name := py "Devil's Advocate (반론 전문가)";
          ri_persona := py "철학·논리학 전공 토론 전문가. 어떤 결론이든 반대 입장에서 논증 가능.";
          ri_focus := py "논리적 약점/편향 식별·반례 제시·전제 타당성 검증·대안적 해석";
          ri_style := py "'만약 ~라면?' 사고 실험. 소크라테스식 질문. 반박 후 더 나은 결론 제시." |}) ].

Definition ROLE_SETS : pydict (gmap pystr RoleInfo) :=
  [ (rs_research, research_roles); (rs_market, market_roles);
    (rs_technical, technical_roles); (rs_general, general_roles) ].

(** The head of [__init__]: [self.rs_name = role_set or detect_role_set(query)]
    and [self.roles = ROLE_SETS.get(self.rs_name, ROLE_SETS["general"])],
    followed by the rest of the constructor.  [role_set] is [None] when the
    argument is left out. *)
Definition Orchestrator_new (str_lower : pystr -> pystr) (env : gmap pystr pystr)
    (config : Config) (query : pystr) (deep_research : bool) (role_set : option pystr)
    : res Orchestrator :=
  let chosen :=
    match role_set with
    | Some (c :: r) => Val (c :: r)
    | _ => detect_role_set str_lower query
    end in
  match chosen with
  | Exn e => Exn e
  | Val rs_name =>
    let roles := default general_roles (dict_get rs_name ROLE_SETS) in
    Orchestrator_init env config query deep_research rs_name roles
  end.

(** ** The command line of the fallback ([_cli_fallback]) *)

(** [s.replace(old, new)] for a one-character [old]. *)
Definition replace_char (old : N) (new : pystr) (s : pystr) : pystr :=
  flat_map (fun c => if (c =? old)%N then new else [c]) s.

(** The single quote and the backslash. *)
Definition quote : N := 39%N.
Definition backslash : N := 92%N.

(** [escaped = prompt.replace("'", "'\\''")] *)
Definition shell_escape (prompt : pystr) : pystr :=
  replace_char quote [quote; backslash; quote; quote] prompt.

(** The tool and its flag, per class: [claude -p], [gemini -p],
    [codex exec]. *)
Definition cli_tool (k : ProviderKind) : pystr :=
  match k with
  | Claude => py "claude -p"
  | Gemini => py "gemini -p"
  | GPT => py "codex exec"
  end.

(** [cmd = f"claude -p '{escaped}'"], handed to the shell. *)
Definition cli_command (k : ProviderKind) (prompt : pystr) : pystr :=
  cli_tool k ++ py " '" ++ shell_escape prompt ++ py "'".

(** ** Gemini's deep research ([GeminiProvider._deep_research]) *)

(** What one [client.interactions.get] comes back with: the interaction with
    its status ([completed] with its outputs, [failed] with its error, or any
    other status), or an exception of the client. *)
Inductive Interaction : Type :=
  | IxCompleted (outputs : list pystr)
  | IxFailed (error : pystr)
  | IxPending
  | IxRaises (e : pystr).

(** What the polling loop does: a [get], a sleep of so many seconds, a
    progress line with the seconds elapsed. *)
Inductive PollEvent : Type :=
  | PollGet
  | PollSleep (secs : Z)
  | PollLog (elapsed : Z).

Global Instance PollEvent_eq_dec : EqDecision PollEvent.
Proof. solve_decision. Defined.

(** [max_wait = 1800] *)
Definition max_wait : Z := 1800.

(** The [while elapsed < max_wait] loop; [get n] is what the [n]-th [get]
    finds.  [fuel] bounds the number of iterations. *)
Fixpoint poll (get : nat -> Interaction) (fuel : nat) (n : nat) (elapsed : Z)
    : option (res pystr * list PollEvent) :=
  if elapsed <? max_wait then
    match fuel with
    | O => None
    | S fuel' =>
      match get n with
      | IxCompleted outputs =>
        Some (match last outputs with
              | Some text => Val text
              | None => Exn (py "list index out of range")
              end, [PollGet])
      | IxFailed error => Some (Exn (py "Gemini Deep Research 실패: " ++ error), [PollGet])
      | IxRaises e => Some (Exn e, [PollGet])
      | IxPending =>
        let elapsed' := elapsed + 15 in
        match poll get fuel' (S n) elapsed' with
        | None => None
        | Some (r, evs) =>
          Some (r, PollGet :: PollSleep 15
                     :: (if bool_decide (elapsed' mod 60 = 0) then [PollLog elapsed'] else [])
                     ++ evs)
        end
      end
    end
  else Some (Exn (py "Gemini Deep Research 타임아웃 (30분)"), []).

(** [_deep_research] past [client.interactions.create], which hands the
    loop its interaction or raises.  The elapsed time grows with every
    iteration, so [max_wait] iterations are more than the loop can make. *)
Definition _deep_research (create : res unit) (get : nat -> Interaction)
    : option (res pystr * list PollEvent) :=
  match create with
  | Exn e => Some (Exn e, [])
  | Val _ => poll get (Z.to_nat max_wait) 0 0
  end.

(** ** The question file ([_build_qa_file], [_parse_qa_file]) *)

(** [str(n)] of a counter. *)
Definition str_of_nat (n : nat) : pystr := py (pretty n).

(** The lines before the questions; [now] is the time stamp
    [datetime.now().strftime(...)] gives. *)
Definition qa_header (self : Orchestrator) (now : pystr) : list pystr :=
  [ py "# 연구 질문 명확화";
    [];
    py "> 📝 연구 주제: " ++ self_query self;
    py "> 🎭 역할 셋: " ++ self_rs_name self;
    py "> 📅 생성: " ++ now;
    [];
    py "---";
    [];
    py "## 사용법";
    [];
    py "- 각 질문 아래 `답변:` 뒤에 내용을 작성하세요.";
    py "- 불필요한 질문은 삭제해도 됩니다.";
    py "- 새 질문을 추가해도 됩니다 (### Q숫자. 형식).";
    py "- 파일을 저장한 뒤 프로그램으로 돌아가 Enter를 누르세요.";
    [];
    py "---";
    [] ].

(** The inner loop [for q in qs]: four lines a question, [num] counted on;
    the value is the lines and the counter after them. *)
Fixpoint qa_questions (num : nat) (qs : list pystr) : list pystr * nat :=
  match qs with
  | [] => ([], num)
  | q :: rest =>
    let '(more, num') := qa_questions (S num) rest in
    ([ py "### Q" ++ str_of_nat num ++ py ". " ++ q; []; py "답변: "; [] ] ++ more, num')
  end.

(** The outer loop [for ai_name, qs in all_qs.items()]. *)
Fixpoint qa_sections (self : Orchestrator) (num : nat) (all_qs : pydict (list pystr))
    : list pystr :=
  match all_qs with
  | [] => []
  | (ai_name, qs) :: rest =>
    [ py "## " ++ ai_name ++ py " — " ++ _rname self ai_name; [] ]
      ++ match qs with
         | [] => [ py "_(질문 생성 실패)_"; [] ] ++ qa_sections self num rest
         | _ => let '(ls, num') := qa_questions num qs in ls ++ qa_sections self num' rest
         end
  end.

Definition qa_footer : list pystr :=
  [ py "---"; [];
    py "## 추가 맥락 (자유 기술)"; [];
    py "위 질문과 무관하게 연구에 참고할 맥락이 있으면 여기에 자유롭게 쓰세요:"; [];
    [] ].

(** [_build_qa_file] *)
Definition _build_qa_file (self : Orchestrator) (now : pystr)
    (all_qs : pydict (list pystr)) : pystr :=
  join nl (qa_header self now ++ qa_sections self 1 all_qs ++ qa_footer).

(** [path.read_text(encoding="utf-8")] reads in text mode: a carriage
    return, alone or before a line feed, comes out as a line feed. *)
Fixpoint universal_newlines (stored : pystr) : pystr :=
  match stored with
  | [] => []
  | c :: r =>
    if (c =? 13)%N then
      match r with
      | d :: r' => if (d =? 10)%N then 10%N :: universal_newlines r'
                   else 10%N :: universal_newlines r
      | [] => [10%N]
      end
    else c :: universal_newlines r
  end.

(** [content.split("\n")] *)
Fixpoint split_nl (s : pystr) : list pystr :=
  match s with
  | [] => [[]]
  | c :: r =>
    if (c =? 10)%N then [] :: split_nl r
    else match split_nl r with
         | l :: ls => (c :: l) :: ls
         | [] => [[c]]
         end
  end.

(** The local variables of the loop of [_parse_qa_file]. *)
Record QAParse : Type := mkQAParse {
  qa_answers : list pystr;
  qa_cur_q : option pystr;
  qa_free : list pystr;
  qa_in_free : bool;
}.

(** [re.match] of the question pattern ([### Q], one or more digits, a dot,
    any white space, then the group, which takes the rest of the line), the
    group when the pattern matches: the digits are taken greedily, and no
    shorter run of them is followed by the dot; the white space is taken
    greedily; the group runs to the end of the line.  The digit class
    follows the decimal digits of the Unicode database, [isdecimal]. *)
Fixpoint skip_while (f : N -> bool) (s : pystr) : pystr :=
  match s with
  | c :: r => if f c then skip_while f r else s
  | [] => []
  end.

Fixpoint keep_while (f : N -> bool) (s : pystr) : pystr :=
  match s with
  | c :: r => if f c then c :: keep_while f r else []
  | [] => []
  end.

Definition question_match (isdecimal : N -> bool) (s : pystr) : option pystr :=
  if startswith (py "### Q") s then
    match keep_while isdecimal (drop 5 s), skip_while isdecimal (drop 5 s) with
    | _ :: _, 46%N :: rest => Some (keep_while (fun c => negb (N.eqb c 10)) (lstrip rest))
    | _, _ => None
    end
  else None.

(** [skip_lines] *)
Definition skip_lines : list pystr := [ py "위 질문과 무관하게"; py "위 질문 외에" ].

(** The body of the loop [for line in content.split("\n")]. *)
Definition qa_line (isdecimal : N -> bool) (p : QAParse) (line : pystr) : QAParse :=
  let s := strip line in
  if startswith (py "### Q") s then
    mkQAParse (qa_answers p)
      (Some (match question_match isdecimal s with Some g => g | None => drop 5 s end))
      (qa_free p) (qa_in_free p)
  else if startswith (py "답변:") s then
    let ans := strip (drop 3 s) in
    mkQAParse
      (match ans, qa_cur_q p with
       | _ :: _, Some (c :: q) =>
         qa_answers p ++ [ py "Q: " ++ (c :: q) ++ nl ++ py "A: " ++ ans ]
       | _, _ => qa_answers p
       end)
      None (qa_free p) (qa_in_free p)
  else if startswith (py "## 추가 맥락") s then
    mkQAParse (qa_answers p) (qa_cur_q p) (qa_free p) true
  else if qa_in_free p && negb (bool_decide (s = []))
          && negb (startswith (py "---") s) && negb (startswith (py ">") s) then
    if existsb (fun sk => contains sk s) skip_lines then p
    else mkQAParse (qa_answers p) (qa_cur_q p) (qa_free p ++ [s]) (qa_in_free p)
  else p.

(** [_parse_qa_file], of the text stored in the file. *)
Definition _parse_qa_file (isdecimal : N -> bool) (stored : pystr) : pystr :=
  let content := universal_newlines stored in
  let p := fold_left (qa_line isdecimal) (split_nl content) (mkQAParse [] None [] false) in
  let out := join (nl ++ nl) (qa_answers p) in
  match qa_free p with
  | [] => out
  | _ => out ++ nl ++ nl ++ py "## 추가 맥락" ++ nl ++ join nl (qa_free p)
  end.

(** * The vocabulary of the properties

    What the theorems below say about states, traces and runs, and the
    concrete worlds their examples run in. *)

(** The trace only grows; [extends φ st st'] says that it grew from [st] to
    [st'] by events that all satisfy [φ]. *)
Definition extends (φ : Event -> Prop) (st st' : St) : Prop :=
  exists evs, trace st' = trace st ++ evs /\ Forall φ evs.

(** From a state where [Inv] holds, [Inv] holds again and the trace grew by
    events satisfying [φ]. *)
Definition inv_ext (Inv : St -> Prop) (φ : Event -> Prop) (st st' : St) : Prop :=
  Inv st -> Inv st' /\ extends φ st st'.

(** Every run of [m] takes a state to an [R]-related one, whether it
    returns or raises. *)
Definition steps {A} (R : relation St) (m : M A) : Prop := forall st, R st (m st).2.

(** The events of the two call paths, which no property below restricts. *)
Definition plumbing (e : Event) : Prop :=
  match e with
  | EvApi _ _ _ _ | EvCli _ _ _ => True
  | _ => False
  end.

(** An invariant that does not read the trace. *)
Class TraceBlind (Inv : St -> Prop) : Prop :=
  trace_blind : forall e st, Inv st -> Inv (emit e st).

Class Plumbing (φ : Event -> Prop) : Prop :=
  plumbing_ok : forall e, plumbing e -> φ e.

(** The mutable attributes of the orchestrator. *)
Definition session (st : St) : pystr * pydict pystr * list DebateEntry * pystr :=
  (ctx st, research st, debate st, consensus st).

Definition snapshot (self : Orchestrator) (st : St) : Snapshot :=
  mkSnapshot (self_query self) (ctx st) (self_rs_name self)
    (research st) (debate st) (consensus st).

(** What the extra phase may do: ask for opinions and syntheses of a topic,
    write their files, read the console, and write a [state.json] that
    holds the snapshot [s0]. *)
Definition extra_phase_event (s0 : Snapshot) (e : Event) : Prop :=
  match e with
  | EvSaveState s => s = s0
  | EvSave a _ =>
    match a with ExtraFile _ _ | ExtraSynthesis _ => True | _ => False end
  | EvCall o _ _ _ =>
    match o with OFocused _ | OSynthesis _ => True | _ => False end
  | EvBanner ph => ph = PhaseC
  | EvRound _ _ | EvMkdir | EvDone => False
  | EvApi _ _ _ _ | EvCli _ _ _ | EvInput _ => True
  end.

(** An exception of [m] satisfies [P], together with the state it leaves. *)
Definition raises_only {A} (P : pystr -> St -> Prop) (m : M A) : Prop :=
  forall st e st', m st = (Exn e, st') -> P e st'.


(** The trace only grows. *)
Definition grows : relation St := inv_ext (fun _ => True) (fun _ => True).

(** The calls of a trace are made in the names [who] allows. *)
Definition called_by (who : Origin -> pystr -> Prop) (e : Event) : Prop :=
  match e with
  | EvCall o name _ _ => who o name
  | _ => True
  end.

(** The name the consensus round and the report take as the lead. *)
Definition lead_name (self : Orchestrator) : pystr :=
  if dict_mem (py "claude") (self_ai self) then py "claude"
  else match self_ai self with np :: _ => np.1 | [] => [] end.



(** A world in which every call is answered. *)
Definition calm_world : World :=
  mkWorld (fun _ _ _ _ => Ok (py "answer")) (fun _ _ _ => Ok (py "cli answer"))
    (fun _ => O) (fun _ => []) (fun _ => []) (fun _ => None).

Definition keyed (cls : ProviderKind) : Provider :=
  mkProvider cls (py "연구 전문가") (py "key").

(** Two active providers, [gemini] configured before [claude]. *)
Definition gemini_first : Orchestrator :=
  mkOrchestrator (py "topic") false 3 (py "general") ∅
    [(py "gemini", keyed Gemini); (py "claude", keyed Claude)].


(** The provider calls of a trace: the call site, the provider asked and
    the prompt. *)
Definition calls_asked (evs : list Event) : list (Origin * pystr * Prompt) :=
  omap (fun e => match e with EvCall o name q _ => Some (o, name, q) | _ => None end) evs.

(** How a respond prompt quotes a debate entry: a heading with the author
    and its role name, and the content cut at 5000 characters. *)
Definition respond_quote (self : Orchestrator) (rec : DebateEntry) : pystr :=
  py "### " ++ d_provider rec ++ py " (" ++ _rname self (d_provider rec) ++ py ")"
    ++ nl ++ take 5000 (d_content rec).

(** As the claim has it: the respond call of round [rnd] for the provider
    [np], with the prompt that quotes, of the debate [d], exactly the
    entries of round [rnd - 1] by providers other than [np], in the order of
    the debate (and the placeholder when there is none). *)
Definition respond_call_on (self : Orchestrator) (rnd : Z) (d : list DebateEntry)
    (np : pystr * Provider) : Origin * pystr * Prompt :=
  (ORespond rnd, np.1,
   PRespond (role np.2)
     (or_default
        (join (nl ++ nl)
           (map (respond_quote self)
              (filter (fun rec => d_round rec = rnd - 1 /\ d_provider rec <> np.1) d)))
        (py "(없음)"))).

Definition two_critiques : list DebateEntry :=
  [ mkEntry 1 critique (py "gemini") (py "point one");
    mkEntry 1 critique (py "claude") (py "point two") ].

(** The state with more events. *)
Definition with_trace (evs : list Event) (st : St) : St :=
  mkSt (ctx st) (research st) (debate st) (consensus st) (stdin st) (trace st ++ evs).

(** The provider calls of a trace, with what they came back with. *)
Definition call_results (evs : list Event) : list (pystr * outcome) :=
  omap (fun e => match e with EvCall _ name _ r => Some (name, r) | _ => None end) evs.

(** The research entry a call's outcome leaves. *)
Definition research_entry (o : outcome) : pystr :=
  match o with Ok t => t | Fail e => research_failed e end.

(** The debate entry a critique call's outcome leaves: none when it failed. *)
Definition critique_entry (rnd : Z) (no : pystr * outcome) : option DebateEntry :=
  match no.2 with
  | Ok t => Some (mkEntry rnd critique no.1 t)
  | Fail _ => None
  end.

Definition failed (no : pystr * outcome) : Prop :=
  match no.2 with Fail _ => True | Ok _ => False end.

(** A world in which the calls of [gemini] fail on both paths and the
    others are answered. *)
Definition gemini_down : World :=
  mkWorld
    (fun _ cls _ _ => match cls with Gemini => Fail (py "quota") | _ => Ok (py "answer") end)
    (fun _ cls _ => match cls with Gemini => Fail (py "no cli") | _ => Ok (py "cli answer") end)
    (fun _ => O) (fun _ => []) (fun _ => []) (fun _ => None).

(** The provider calls of a trace made from the call sites [site]. *)
Definition calls_from (site : Origin -> bool) (evs : list Event) : list (pystr * outcome) :=
  omap (fun e => match e with
                 | EvCall o name _ r => if site o then Some (name, r) else None
                 | _ => None
                 end) evs.

Definition is_synthesis (o : Origin) : bool :=
  match o with OConsensus _ => true | _ => false end.

Definition is_verify (o : Origin) : bool :=
  match o with OVerify _ => true | _ => false end.

Definition is_amend (o : Origin) : bool :=
  match o with OAmend _ => true | _ => false end.

(** The marks of a trace: the round headers and the inputs read. *)
Definition is_mark (e : Event) : bool :=
  match e with EvRound _ _ | EvInput _ => true | _ => false end.

Definition marks (evs : list Event) : list Event := filter (fun e => is_mark e = true) evs.

(** What happens inside a round, past its header: no header, no input, no
    banner, and provider calls from the call sites [site] only. *)
Definition inner_event (site : Origin -> Prop) (e : Event) : Prop :=
  match e with
  | EvRound _ _ | EvInput _ | EvBanner _ | EvMkdir | EvDone => False
  | EvCall o _ _ _ => site o
  | _ => True
  end.

(** The input a state still holds. *)
Definition holds_input (s0 : list input_ev) (st : St) : Prop := stdin st = s0.

Definition critique_site (rnd : Z) (o : Origin) : Prop := o = OCritique rnd.

Definition respond_site (rnd : Z) (o : Origin) : Prop := o = ORespond rnd.

Definition consensus_site (rnd : Z) (o : Origin) : Prop :=
  o = OConsensus rnd \/ o = OVerify rnd \/ o = OAmend rnd.

(** The kind of a round that is not the last one. *)
Definition round_kind (rnd : Z) : RoundKind :=
  if bool_decide (rnd = 1) then Critique else Respond.

Definition batch_site (rnd : Z) (o : Origin) : Prop :=
  o = OCritique rnd \/ (o = ORespond rnd /\ rnd <> 1).

(** A round and the input its gate read. *)
Definition round_then_gate (ki : Z * input_ev) : list Event :=
  [EvRound (round_kind ki.1) ki.1; EvInput ki.2].

(** The rounds a trace ran, by their headers. *)
Definition rounds_run (evs : list Event) : list (RoundKind * Z) :=
  omap (fun e => match e with EvRound k n => Some (k, n) | _ => None end) evs.

Definition keeps_consensus (c0 : pystr) (st : St) : Prop := consensus st = c0.








(** Two enabled providers with credentials, three rounds. *)
Definition two_enabled : Config :=
  mkConfig None None
    (Some [(py "claude", mkProviderConfig (Some true) None (Some (py "key")));
           (py "gemini", mkProviderConfig None None (Some (py "key")))]).

(** The inputs a trace read. *)
Definition inputs_read (evs : list Event) : list input_ev :=
  omap (fun e => match e with EvInput i => Some i | _ => None end) evs.

(** ** The role set *)

(** The keyword table without the three keywords written in capitals. *)
Definition lowercase_keywords : pydict (list pystr) :=
  [ (rs_market, market_words); (rs_technical, technical_words);
    (rs_research,
     [ py "모델"; py "논문"; py "알고리즘"; py "벤치마크";
       py "model"; py "paper"; py "algorithm"; py "survey" ]) ].

(** A lowered text holds none of the letters [A] to [Z]. *)
Definition no_capitals (s : pystr) : Prop :=
  Forall (fun c => ~ (65 <= c <= 90)%N) s.

(** ** The slug *)

(** No two dashes in a row. *)
Fixpoint single_dashes (s : pystr) : Prop :=
  match s with
  | c :: (d :: _) as r => ~ (c = dash /\ d = dash) /\ single_dashes r
  | _ => True
  end.

(** The shape of a slug: characters of the class, joined by single dashes. *)
Definition slug_shaped (s : pystr) : Prop :=
  Forall (fun c => slug_char c = true \/ c = dash) s /\
  single_dashes s /\ head s <> Some dash /\ last s <> Some dash.

(** ** Active providers *)

(** An item of the provider configuration that [__init__] makes active: it
    is not disabled, and the factory knows its name. *)
Definition activated (item : pystr * ProviderConfig) : Prop :=
  default true (cfg_enabled item.2) = true /\ is_Some (provider_class item.1).

(** ** Attempts of a query *)

(** The attempts one [query_with_fallback] can make on provider [p]: the
    primary path alone when it answers; the primary path and then the
    command-line tool when it raises; with no credential, the command-line
    tool alone when it answers, and twice over when it raises the first
    time. *)
Definition fallback_attempts (p : Provider) (prompt : Prompt) (deep : bool)
    (evs : list Event) (r : res pystr) : Prop :=
  (api_key p <> [] /\ exists a,
     evs = [EvApi (kind p) prompt deep (Ok a)] /\ r = Val a) \/
  (api_key p <> [] /\ exists e o,
     evs = [EvApi (kind p) prompt deep (Fail e); EvCli (kind p) prompt o] /\
     r = res_of_outcome o) \/
  (api_key p = [] /\ exists a,
     evs = [EvCli (kind p) prompt (Ok a)] /\ r = Val a) \/
  (api_key p = [] /\ exists e o,
     evs = [EvCli (kind p) prompt (Fail e); EvCli (kind p) prompt o] /\
     r = res_of_outcome o).

(** A world whose primary paths answer. *)
Definition api_up : World :=
  mkWorld (fun _ _ _ _ => Ok (py "answer")) (fun _ _ _ => Fail (py "no cli"))
    (fun _ => O) (fun _ => []) (fun _ => []) (fun _ => None).

(** ** The shell's reading of a command line *)

(** How a POSIX shell splits a command line into words, for the part of the
    grammar the fallback's command lines are written in: blanks separate
    words; between single quotes every character stands for itself, and
    there is no way to write a single quote; outside quotes a backslash
    makes the next character stand for itself.  A word is made of letters,
    digits and [-], [_], [.], [/] beside that; any other character outside
    quotes has a meaning to the shell that is not modelled, and the
    splitting gives up ([None]), as it does on an open quote. *)
Inductive sh_mode : Type := Between | InWord | InQuote.

Definition sh_plain (c : N) : bool :=
  ((97 <=? c) && (c <=? 122) || (65 <=? c) && (c <=? 90) || (48 <=? c) && (c <=? 57)
   || (c =? 45) || (c =? 95) || (c =? 46) || (c =? 47))%N.

Fixpoint sh_split (mode : sh_mode) (cur : pystr) (s : pystr) : option (list pystr) :=
  match s with
  | [] =>
    match mode with
    | Between => Some []
    | InWord => Some [cur]
    | InQuote => None
    end
  | c :: r =>
    match mode with
    | InQuote =>
      if (c =? quote)%N then sh_split InWord cur r else sh_split InQuote (cur ++ [c]) r
    | _ =>
      if (c =? quote)%N then sh_split InQuote cur r
      else if (c =? backslash)%N then
        match r with
        | d :: r' => if (d =? 10)%N then None else sh_split InWord (cur ++ [d]) r'
        | [] => None
        end
      else if ((c =? 32) || (c =? 9))%N then
        match mode with
        | InWord => cons cur <$> sh_split Between [] r
        | _ => sh_split Between [] r
        end
      else if sh_plain c then sh_split InWord (cur ++ [c]) r
      else None
    end
  end.

Definition sh_words (cmd : pystr) : option (list pystr) := sh_split Between [] cmd.

(** The words before the prompt. *)
Definition cli_argv (k : ProviderKind) : list pystr :=
  match k with
  | Claude => [py "claude"; py "-p"]
  | Gemini => [py "gemini"; py "-p"]
  | GPT => [py "codex"; py "exec"]
  end.

(** ** Runs of the polling loop *)

(** The number of [get]s and the seconds slept in a run of the loop. *)
Definition gets (evs : list PollEvent) : nat :=
  length (filter (fun e => e = PollGet) evs).

Definition slept (evs : list PollEvent) : Z :=
  foldr (fun e acc => match e with PollSleep s => s + acc | _ => acc end) 0 evs.

(** The progress lines of a run. *)
Definition progress (evs : list PollEvent) : list Z :=
  omap (fun e => match e with PollLog t => Some t | _ => None end) evs.

(** What a decisive answer makes the loop end with. *)
Definition verdict (i : Interaction) : res pystr :=
  match i with
  | IxCompleted outputs =>
    match last outputs with
    | Some text => Val text
    | None => Exn (py "list index out of range")
    end
  | IxFailed error => Exn (py "Gemini Deep Research 실패: " ++ error)
  | IxRaises e => Exn e
  | IxPending => Exn (py "Gemini Deep Research 타임아웃 (30분)")
  end.

(** The events of the iterations that find the interaction pending, from
    the [j]-th on, [m] of them. *)
Fixpoint pending_events (j : nat) (m : nat) : list PollEvent :=
  match m with
  | O => []
  | S m' =>
    PollGet :: PollSleep 15
      :: (if bool_decide ((15 * Z.of_nat (S j)) mod 60 = 0)
          then [PollLog (15 * Z.of_nat (S j))] else [])
      ++ pending_events (S j) m'
  end.

(** An interaction that is never done. *)
Definition never_done (n : nat) : Interaction := IxPending.

(** An interaction that is completed at the third [get]. *)
Definition done_at_third (n : nat) : Interaction :=
  if bool_decide (n = 2)%nat then IxCompleted [py "draft"; py "report"] else IxPending.

(** ** The debate *)

(** The entries a debate can gain: a critique of round 1 or a response of a
    round strictly between the first and the last, by an active provider. *)
Definition debate_entry_of (self : Orchestrator) (rec : DebateEntry) : Prop :=
  d_provider rec ∈ dict_keys (self_ai self) /\
  ((d_round rec = 1 /\ d_type rec = critique) \/
   (1 < d_round rec < self_rounds self /\ d_type rec = respond)).

(** The research entries the critique prompt for [name] quotes under
    [others]. *)
Definition critique_refs (name : pystr) (r : pydict pystr) : pydict pystr :=
  filter (fun kv : pystr * pystr => kv.1 <> name /\ is_answer kv.2 = true) r.

(** The critique calls of round [rnd], started from the research mapping
    [r0]: each is made for a provider of the mapping, with the prompt built
    from [r0]. *)
Definition critique_call_from (self : Orchestrator) (rnd : Z) (r0 : pydict pystr)
    (e : Event) : Prop :=
  match e with
  | EvCall o name q _ =>
    o = OCritique rnd /\
    exists prov, (name, prov) ∈ self_ai self /\
      q = PCritique (role prov) (critique_others self name r0)
            (take 6000 (default [] (dict_get name r0)))
  | EvRound k n => k = Critique /\ n = rnd
  | _ => True
  end.

(** A configuration that asks for no round at all. *)
Definition no_rounds : Config :=
  mkConfig None (Some 0)
    (Some [(py "claude", mkProviderConfig None None (Some (py "key")))]).

(** ** The question file, filled in *)

(** A text of one line: it holds no line feed and no carriage return. *)
Definition one_line (s : pystr) : Prop := (10%N ∉ s) /\ (13%N ∉ s).

(** [s.rstrip()] *)
Definition rstrip (s : pystr) : pystr := rev (lstrip (rev s)).

(** The parser has met no answer and no free text, and is before the
    free-text heading. *)
Definition calm (p : QAParse) : Prop :=
  qa_answers p = [] /\ qa_free p = [] /\ qa_in_free p = false.

(** A line the parser passes over before the free-text heading. *)
Definition inert (isdecimal : N -> bool) (line : pystr) : Prop :=
  forall p, qa_in_free p = false -> qa_line isdecimal p line = p.

(** A line that leaves a calm parser calm. *)
Definition quiet (isdecimal : N -> bool) (line : pystr) : Prop :=
  forall p, calm p -> calm (qa_line isdecimal p line).

(** The file as [_build_qa_file] writes it and the user fills it in:
    [answers] holds what is written after the answer labels, one text a
    question, in the order of the file (a question past the end of
    [answers] is left as it was). *)
Fixpoint answered_questions (num : nat) (qs answers : list pystr) : list pystr * nat :=
  match qs with
  | [] => ([], num)
  | q :: rest =>
    let '(more, num') := answered_questions (S num) rest (tail answers) in
    ([ py "### Q" ++ str_of_nat num ++ py ". " ++ q; [];
       py "답변: " ++ default [] (head answers); [] ] ++ more, num')
  end.

Fixpoint answered_sections (self : Orchestrator) (num : nat)
    (all_qs : pydict (list pystr)) (answers : list pystr) : list pystr :=
  match all_qs with
  | [] => []
  | (ai_name, qs) :: rest =>
    [ py "## " ++ ai_name ++ py " — " ++ _rname self ai_name; [] ]
      ++ match qs with
         | [] => [ py "_(질문 생성 실패)_"; [] ] ++ answered_sections self num rest answers
         | _ =>
           let '(ls, num') := answered_questions num qs answers in
           ls ++ answered_sections self num' rest (drop (length qs) answers)
         end
  end.

Definition answered_file (self : Orchestrator) (now : pystr)
    (all_qs : pydict (list pystr)) (answers : list pystr) : pystr :=
  join nl (qa_header self now ++ answered_sections self 1 all_qs answers ++ qa_footer).

(** The context the answers make: a question and its answer, both without
    the white space around them, for every question that has an answer. *)
Fixpoint answered_pairs (qs answers : list pystr) : list pystr :=
  match qs with
  | [] => []
  | q :: rest =>
    match strip q, strip (default [] (head answers)) with
    | c :: q', d :: a' => [ py "Q: " ++ (c :: q') ++ nl ++ py "A: " ++ (d :: a') ]
    | _, _ => []
    end ++ answered_pairs rest (tail answers)
  end.

(** The digits [0] to [9] count as decimal digits, the dot does not. *)
Definition reads_digits (isdecimal : N -> bool) : Prop :=
  (forall c, (48 <= c <= 57)%N -> isdecimal c = true) /\ isdecimal 46%N = false.

(** The ASCII digits alone. *)
Definition ascii_digit (c : N) : bool := ((48 <=? c) && (c <=? 57))%N.

(** ** Input lines *)

(** The text of an input line, without the white space around it; the end
    of the input and an interrupt have none. *)
Definition line_text (i : input_ev) : pystr :=
  match i with
  | Line s => strip s
  | Eof | Interrupt => []
  end.

(** An orchestrator and a question file to try the parser on. *)
Definition qa_self : Orchestrator :=
  mkOrchestrator (py "Rust vs Go") false 3 rs_general general_roles
    [(py "claude", keyed Claude); (py "gpt", keyed GPT)].

Definition qa_questions_asked : pydict (list pystr) :=
  [(py "claude", [py "Which versions?"; py " Which workloads? "]); (py "gpt", [])].

(** ** Deep-research calls *)

(** A call of a primary path in deep-research mode is a research call of
    an orchestrator built in that mode. *)
Definition deep_call (self : Orchestrator) (e : Event) : Prop :=
  match e with
  | EvApi _ p true _ =>
    self_deep self = true /\ match p with PResearch _ _ _ => True | _ => False end
  | _ => True
  end.

(** ** The phases of a run *)

(** The phases a trace began, in order. *)
Definition banners (evs : list Event) : list Phase :=
  omap (fun e => match e with EvBanner ph => Some ph | _ => None end) evs.

(** The phases a run goes through when nothing stops it. *)
Definition phases_planned (skip_clarify skip_extra : bool) : list Phase :=
  (if skip_clarify then [] else [Phase0]) ++ [PhaseA; PhaseB]
    ++ (if skip_extra then [] else [PhaseC]) ++ [PhaseD].

Definition no_banner (e : Event) : Prop :=
  match e with EvBanner _ => False | _ => True end.

(** A computation that begins the phase [ph] and no other. *)
Definition begins {A} (ph : Phase) (m : M A) : Prop :=
  forall st, exists evs, trace (m st).2 = trace st ++ evs /\ banners evs = [ph].

(** A run from [st] to [st'] that ended with [r] went through a first part
    of [planned]: all of it when it completed, up to [ph] when it stopped
    after [ph]. *)
Definition went_through (planned : list Phase) (r : res RunEnd) (st st' : St) : Prop :=
  exists evs k,
    trace st' = trace st ++ evs /\ banners evs = take k planned /\ banners evs <> [] /\
    (r = Val Completed -> banners evs = planned) /\
    (forall ph, r = Val (StoppedAfter ph) -> last (banners evs) = Some ph).

(** * Properties *)

(** ** The monad's equations *)

Lemma bind_run {A B} (m : M A) (f : A -> M B) (st : St) :
  (m ≫= f) st =
  match m st with
  | (Val a, st') => f a st'
  | (Exn e, st') => (Exn e, st')
  end.
Proof. reflexivity. Qed.

Lemma ret_run {A} (a : A) (st : St) : (mret a : M A) st = (Val a, st).
Proof. reflexivity. Qed.

Lemma try_except_run {A} (m : M A) (h : pystr -> M A) (st : St) :
  try_except m h st =
  match m st with
  | (Val a, st') => (Val a, st')
  | (Exn e, st') => h e st'
  end.
Proof. reflexivity. Qed.

(** ** Text *)

Lemma startswith_app (p s : pystr) : startswith p (p ++ s) = true.
Proof.
  unfold startswith. apply bool_decide_eq_true.
  by rewrite take_app_length.
Qed.

Lemma endswith_app (s p : pystr) : endswith p (s ++ p) = true.
Proof.
  unfold endswith. apply andb_true_iff. split; apply bool_decide_eq_true.
  - rewrite length_app.
    replace (length s + length p - length p)%nat with (length s) by lia.
    by rewrite drop_app_length.
  - rewrite length_app. lia.
Qed.

Lemma slice_between_app (a s b : pystr) :
  slice_between (length a) (length b) (a ++ s ++ b) = s.
Proof.
  unfold slice_between. rewrite drop_app_length, !length_app.
  replace (length a + (length s + length b) - length b - length a)%nat
    with (length s) by lia.
  by rewrite take_app_length.
Qed.



(** ** The gate *)

Lemma ask_run (st : St) (i : input_ev) (rest : list input_ev) :
  stdin st = i :: rest ->
  Gate.ask st =
  (Val (if decide (choice (py "q") i = py "q") then Abort
        else if decide (choice (py "q") i = py "s") then SkipPhase else Proceed),
   emit (EvInput i) (set_stdin rest st)).
Proof.
  intros H. unfold Gate.ask. rewrite bind_run. unfold read_input. rewrite H.
  repeat case_decide; reflexivity.
Qed.

Lemma ask_round_run (st : St) (i : input_ev) (rest : list input_ev) :
  stdin st = i :: rest ->
  Gate.ask_round st =
  (Val (if decide (choice (py "q") i = py "q") then Abort else Proceed),
   emit (EvInput i) (set_stdin rest st)).
Proof.
  intros H. unfold Gate.ask_round. rewrite bind_run. unfold read_input. rewrite H.
  reflexivity.
Qed.

Lemma ask_run_end (st : St) :
  stdin st = [] -> Gate.ask st = (Val Abort, emit (EvInput Eof) st).
Proof. intros H. unfold Gate.ask. rewrite bind_run. unfold read_input. by rewrite H. Qed.

Lemma ask_round_run_end (st : St) :
  stdin st = [] -> Gate.ask_round st = (Val Abort, emit (EvInput Eof) st).
Proof.
  intros H. unfold Gate.ask_round. rewrite bind_run. unfold read_input. by rewrite H.
Qed.



(** ** Credentials and the fallback path *)

Lemma resolve_key_unset (env : gmap pystr pystr) (NAME : pystr) :
  env !! NAME = None -> _resolve_key env (py "${" ++ NAME ++ py "}") = [].
Proof.
  intros Hunset. unfold _resolve_key.
  assert (E1 : startswith (py "${") (py "${" ++ NAME ++ py "}") = true)
    by apply startswith_app.
  assert (E2 : endswith (py "}") (py "${" ++ NAME ++ py "}") = true).
  { replace (py "${" ++ NAME ++ py "}") with ((py "${" ++ NAME) ++ py "}").
    - apply endswith_app.
    - symmetry. apply app_assoc. }
  rewrite E1, E2. cbn [andb].
  change (slice_between 2 1 (py "${" ++ NAME ++ py "}"))
    with (slice_between (length (py "${")) (length (py "}")) (py "${" ++ NAME ++ py "}")).
  rewrite slice_between_app. cbv zeta. rewrite Hunset. reflexivity.
Qed.

Lemma query_no_key (W : World) (p : Provider) (prompt : Prompt) (deep : bool) :
  api_key p = [] -> query W p prompt deep = _cli_fallback W p prompt.
Proof. intros H. unfold query. by rewrite decide_True. Qed.

(** C6.  For each of the three provider classes: a configured key
    [${NAME}] whose variable is not set leaves the provider built, with the
    empty credential; a call to [query] is then the call of the CLI
    fallback (it returns or raises what the command-line tool does, and the
    trace grows by that one CLI event), and neither [query] nor
    [query_with_fallback] tries the primary path. *)
Theorem unset_key_routes_to_cli (W : World) (env : gmap pystr pystr)
    (name NAME : pystr) (config : ProviderConfig) (cls : ProviderKind) :
  provider_class name = Some cls ->
  cfg_api_key config = Some (py "${" ++ NAME ++ py "}") ->
  env !! NAME = None ->
  exists p,
    create_provider env name config = Val p /\ kind p = cls /\ api_key p = [] /\
    forall prompt deep st,
      query W p prompt deep st = _cli_fallback W p prompt st /\
      (query W p prompt deep st).1
        = res_of_outcome (cli_world W (length (trace st)) cls prompt) /\
      trace (query W p prompt deep st).2
        = trace st ++ [EvCli cls prompt (cli_world W (length (trace st)) cls prompt)] /\
      forall c q d r,
        EvApi c q d r ∈ trace (query_with_fallback W p prompt deep st).2 ->
        EvApi c q d r ∈ trace st.
Proof.
  intros Hcls Hkey Hunset. exists (new_provider env cls config).
  assert (Hempty : api_key (new_provider env cls config) = []).
  { unfold new_provider. simpl. rewrite Hkey. simpl. by apply resolve_key_unset. }
  split; [by unfold create_provider; rewrite Hcls|].
  split; [reflexivity|]. split; [exact Hempty|].
  intros prompt deep st. rewrite (query_no_key W _ prompt deep Hempty).
  split; [reflexivity|]. split; [reflexivity|]. split; [reflexivity|].
  intros c q d r. unfold query_with_fallback. rewrite try_except_run.
  rewrite (query_no_key W _ prompt deep Hempty). unfold _cli_fallback. simpl.
  destruct (cli_world W (length (trace st)) cls prompt) as [t|e]; simpl.
  - rewrite elem_of_app, list_elem_of_singleton. intros [H|H]; [done | discriminate].
  - rewrite !elem_of_app, !list_elem_of_singleton.
    intros [[H|H]|H]; [done | discriminate | discriminate].
Qed.

Lemma unset_key_routes_to_cli_witness :
  exists p,
    create_provider ∅ (py "gemini")
      (mkProviderConfig None None (Some (py "${" ++ py "FOO_KEY" ++ py "}"))) = Val p /\
    kind p = Gemini /\ api_key p = [] /\
    forall prompt deep st,
      query (mkWorld (fun _ _ _ _ => Ok []) (fun _ _ _ => Fail []) (fun _ => O)
               (fun _ => []) (fun _ => []) (fun _ => None)) p prompt deep st
      = _cli_fallback (mkWorld (fun _ _ _ _ => Ok []) (fun _ _ _ => Fail []) (fun _ => O)
               (fun _ => []) (fun _ => []) (fun _ => None)) p prompt st.
Proof.
  destruct (unset_key_routes_to_cli
              (mkWorld (fun _ _ _ _ => Ok []) (fun _ _ _ => Fail []) (fun _ => O)
                 (fun _ => []) (fun _ => []) (fun _ => None))
              ∅ (py "gemini") (py "FOO_KEY")
              (mkProviderConfig None None (Some (py "${" ++ py "FOO_KEY" ++ py "}")))
              Gemini eq_refl eq_refl (lookup_empty _)) as (p & Hp & Hk & He & Hq).
  exists p. split; [exact Hp|]. split; [exact Hk|]. split; [exact He|].
  intros prompt deep st. exact (proj1 (Hq prompt deep st)).
Defined.

(** ** The lead provider *)

Lemma dict_get_mem {V} (k : pystr) (d : pydict V) :
  dict_mem k d = true <-> is_Some (dict_get k d).
Proof.
  unfold dict_mem, dict_keys. rewrite bool_decide_eq_true.
  induction d as [|[k' v'] d IH]; simpl.
  - split; [by intros ?%elem_of_nil | by intros [? ?]].
  - case_decide as E.
    + subst. split; [eauto | intros _; apply elem_of_cons; by left].
    + rewrite elem_of_cons, IH. split; [intros [?|?]; congruence || done | by right].
Qed.

(** ** Step relations: what every run of a program preserves *)

Global Instance inv_ext_preorder (Inv : St -> Prop) (φ : Event -> Prop) :
  PreOrder (inv_ext Inv φ).
Proof.
  split.
  - intros st H. split; [done|]. exists []. by rewrite app_nil_r.
  - intros st1 st2 st3 H12 H23 H1.
    destruct (H12 H1) as (H2 & evs & E & F).
    destruct (H23 H2) as (H3 & evs' & E' & F').
    split; [done|]. exists (evs ++ evs'). split.
    + by rewrite E', E, app_assoc.
    + by apply Forall_app.
Qed.

Section Steps.
Context (R : relation St) `{!PreOrder R}.

Lemma steps_ret {A} (a : A) : steps R (mret a).
Proof. intros st. simpl. reflexivity. Qed.

Lemma steps_bind {A B} (m : M A) (f : A -> M B) :
  steps R m -> (forall a, steps R (f a)) -> steps R (m ≫= f).
Proof.
  intros Hm Hf st. rewrite bind_run. specialize (Hm st).
  destruct (m st) as [[a|e] st1]; simpl in *; [|done].
  etrans; [exact Hm | apply Hf].
Qed.

Lemma steps_try_except {A} (m : M A) (h : pystr -> M A) :
  steps R m -> (forall e, steps R (h e)) -> steps R (try_except m h).
Proof.
  intros Hm Hh st. rewrite try_except_run. specialize (Hm st).
  destruct (m st) as [[a|e] st1]; simpl in *; [done|].
  etrans; [exact Hm | apply Hh].
Qed.

Lemma steps_get {A} (f : St -> A) : steps R (get f).
Proof. intros st. simpl. reflexivity. Qed.

Lemma steps_lift_res {A} (r : res A) : steps R (lift_res r).
Proof. intros st. simpl. reflexivity. Qed.

Lemma steps_for_each {A B} (body : A -> M (list B)) (xs : list A) :
  (forall x, steps R (body x)) -> steps R (for_each body xs).
Proof.
  intros Hb. induction xs as [|x xs IH]; simpl.
  - apply steps_ret.
  - apply steps_bind; [apply Hb|]. intros out.
    apply steps_bind; [apply IH|]. intros outs. apply steps_ret.
Qed.

Lemma steps_gather_pending {A B} (W : World) (n : nat) (body : A -> M (list B))
    (pending : list A) (acc : list B) :
  (forall x, steps R (body x)) -> steps R (gather_pending W n body pending acc).
Proof.
  intros Hb. revert pending acc. induction n as [|n IH]; intros pending acc; simpl.
  - apply steps_ret.
  - intros st.
    destruct (pending !! _) as [x|]; [|simpl; reflexivity].
    apply (steps_bind (body x)); [apply Hb|]. intros out. apply IH.
Qed.

Lemma steps_gather {A B} (W : World) (body : A -> M (list B)) (tasks : list A) :
  (forall x, steps R (body x)) -> steps R (gather W body tasks).
Proof. apply steps_gather_pending. Qed.

End Steps.

Section Primitives.
Context (Inv : St -> Prop) (φ : Event -> Prop).

Lemma plumb (e : Event) `{!Plumbing φ} : plumbing e -> φ e.
Proof. apply (@plumbing_ok φ _). Qed.

Lemma steps_emit (e : Event) (st : St) :
  (Inv st -> Inv (emit e st)) -> φ e -> inv_ext Inv φ st (emit e st).
Proof.
  intros HI He H. split; [auto|]. exists [e]. split; [done|]. by constructor.
Qed.

Lemma steps_log (e : Event) `{!TraceBlind Inv} : φ e -> steps (inv_ext Inv φ) (log e).
Proof. intros He st. apply steps_emit; [apply trace_blind | done]. Qed.

Lemma steps_save (a : Artifact) (text : pystr) `{!TraceBlind Inv} :
  φ (EvSave a text) -> steps (inv_ext Inv φ) (save a text).
Proof. exact (steps_log (EvSave a text)). Qed.

Lemma steps_modify (f : St -> St) :
  (forall st, Inv st -> Inv (f st)) -> (forall st, trace (f st) = trace st) ->
  steps (inv_ext Inv φ) (modify f).
Proof.
  intros HI Ht st H. simpl. split; [auto|]. exists []. by rewrite app_nil_r, Ht.
Qed.

Lemma steps_cli (W : World) (p : Provider) (prompt : Prompt)
    `{!TraceBlind Inv} `{!Plumbing φ} :
  steps (inv_ext Inv φ) (_cli_fallback W p prompt).
Proof. intros st. apply steps_emit; [apply trace_blind | by apply plumb]. Qed.

Lemma steps_query (W : World) (p : Provider) (prompt : Prompt) (deep : bool)
    `{!TraceBlind Inv} `{!Plumbing φ} :
  steps (inv_ext Inv φ) (query W p prompt deep).
Proof.
  unfold query. case_decide; [by apply steps_cli|].
  intros st. apply steps_emit; [apply trace_blind | by apply plumb].
Qed.

Lemma steps_query_with_fallback (W : World) (p : Provider) (prompt : Prompt)
    (deep : bool) `{!TraceBlind Inv} `{!Plumbing φ} :
  steps (inv_ext Inv φ) (query_with_fallback W p prompt deep).
Proof.
  apply steps_try_except; [apply _ | by apply steps_query |].
  intros _. by apply steps_cli.
Qed.

Lemma steps_call (W : World) (o : Origin) (name : pystr)
    (prov : Provider) (prompt : Prompt) (deep : bool)
    `{!TraceBlind Inv} `{!Plumbing φ} :
  (forall r, φ (EvCall o name prompt r)) ->
  steps (inv_ext Inv φ) (call W o name prov prompt deep).
Proof.
  intros Hc st. unfold call.
  pose proof (steps_query_with_fallback W prov prompt deep st) as Hq.
  destruct (query_with_fallback W prov prompt deep st) as [r st1]. simpl in *.
  etrans; [exact Hq|]. apply steps_emit; [apply trace_blind | apply Hc].
Qed.

Lemma steps_save_state (self : Orchestrator) `{!TraceBlind Inv} :
  (forall st, Inv st ->
     φ (EvSaveState (mkSnapshot (self_query self) (ctx st) (self_rs_name self)
                       (research st) (debate st) (consensus st)))) ->
  steps (inv_ext Inv φ) (_save_state self).
Proof.
  intros Hs st H. unfold _save_state. simpl.
  split; [by apply trace_blind|]. eexists [_]. split; [done|]. constructor; auto.
Qed.

Lemma steps_read_input `{!TraceBlind Inv} :
  (forall st l, Inv st -> Inv (set_stdin l st)) ->
  (forall i, φ (EvInput i)) -> steps (inv_ext Inv φ) read_input.
Proof.
  intros Hin Hi st H. unfold read_input.
  destruct (stdin st) as [|i rest]; simpl.
  - split; [by apply trace_blind|]. exists [EvInput Eof]. split; [done|]. by constructor.
  - split; [by apply trace_blind, Hin|]. exists [EvInput i]. split; [done|]. by constructor.
Qed.

Lemma steps_ask `{!TraceBlind Inv} :
  (forall st l, Inv st -> Inv (set_stdin l st)) ->
  (forall i, φ (EvInput i)) -> steps (inv_ext Inv φ) Gate.ask.
Proof.
  intros Hin Hi. unfold Gate.ask.
  apply steps_bind; [apply _ | by apply steps_read_input |].
  intros i. repeat case_decide; apply steps_ret; apply _.
Qed.

Lemma steps_ask_round `{!TraceBlind Inv} :
  (forall st l, Inv st -> Inv (set_stdin l st)) ->
  (forall i, φ (EvInput i)) -> steps (inv_ext Inv φ) Gate.ask_round.
Proof.
  intros Hin Hi. unfold Gate.ask_round.
  apply steps_bind; [apply _ | by apply steps_read_input |].
  intros i. apply steps_ret; apply _.
Qed.

End Primitives.

Lemma steps_read_topics (Inv : St -> Prop) (φ : Event -> Prop) :
  (forall st l evs, Inv st ->
     Inv (mkSt (ctx st) (research st) (debate st) (consensus st) l (trace st ++ evs))) ->
  (forall i, φ (EvInput i)) -> steps (inv_ext Inv φ) read_topics.
Proof.
  intros HI Hi st H. unfold read_topics.
  assert (F : Forall φ (read_topics_from (stdin st)).2).
  { induction (stdin st) as [|i rest IH]; simpl.
    - by constructor.
    - destruct i as [s| |]; simpl; try (by constructor).
      destruct (strip s) as [|c t]; simpl; [by constructor|].
      destruct (read_topics_from rest) as [[ts r] evs]. simpl in *. by constructor. }
  destruct (read_topics_from (stdin st)) as [[ts r] evs]. simpl in *.
  split; [by apply HI|]. by exists evs.
Qed.

Ltac steps_bind := refine (steps_bind _ _ _ _ _); [ | intros ? ].
Ltac steps_ret := refine (steps_ret _ _).

(** ** The extra phase keeps the session *)

Section ExtraPhase.
Variables (W : World) (self : Orchestrator) (st0 : St).

Let Inv (st : St) : Prop := session st = session st0.
Let φ : Event -> Prop := extra_phase_event (snapshot self st0).

Local Instance extra_blind : TraceBlind Inv.
Proof. intros e st H. exact H. Qed.

Local Instance extra_plumbing : Plumbing φ.
Proof. intros e H. by destruct e. Qed.

Lemma extra_focused_do (idx : nat) (p : Prompt) (np : pystr * Provider) :
  steps (inv_ext Inv φ) (focused_do W idx p np).
Proof.
  destruct np as [name prov]. unfold focused_do.
  apply steps_try_except; try apply _; [ | intros _; steps_ret].
  steps_bind.
  - by apply steps_call; try apply _.
  - steps_bind; [by apply steps_save; try apply _ | steps_ret].
Qed.

Lemma extra_save_state : steps (inv_ext Inv φ) (_save_state self).
Proof.
  apply steps_save_state; try apply _.
  intros st H. unfold Inv, session in H. injection H as -> -> -> ->. reflexivity.
Qed.

Lemma extra_ask_round : steps (inv_ext Inv φ) Gate.ask_round.
Proof. apply steps_ask_round; try apply _; done. Qed.

Lemma extra_focused (topic : pystr) (idx : nat) :
  steps (inv_ext Inv φ) (_focused W self topic idx).
Proof.
  unfold _focused. steps_bind; [apply steps_get; apply _|].
  steps_bind; [apply steps_gather; [apply _ | apply extra_focused_do]|].
  steps_bind; [apply steps_lift_res; apply _|].
  destruct a1 as [lead_n lead].
  steps_bind; [by apply steps_call; try apply _|].
  steps_bind; [by apply steps_save; try apply _ | steps_ret].
Qed.

Lemma extra_topics_steps (n : nat) (items : list (nat * pystr)) :
  steps (inv_ext Inv φ) (extra_topics W self n items).
Proof.
  induction items as [|[i topic] rest IH]; simpl; [steps_ret|].
  steps_bind; [apply extra_focused|].
  steps_bind; [apply extra_save_state|].
  case_bool_decide.
  - steps_bind; [apply extra_ask_round|].
    destruct a1; [| |steps_ret]; (steps_bind; [apply IH | steps_ret]).
  - steps_bind; [apply IH | steps_ret].
Qed.

Lemma extra_phase_steps : steps (inv_ext Inv φ) (phaseC_extra W self).
Proof.
  unfold phaseC_extra.
  steps_bind; [by apply steps_log; try apply _|].
  steps_bind; [by apply steps_read_topics|].
  steps_bind; [apply extra_topics_steps|].
  destruct a1; [steps_ret|]. apply steps_ask; try apply _; done.
Qed.

End ExtraPhase.

(** C10.  The extra phase changes none of the orchestrator's mutable
    attributes, whatever the topics, the providers' answers and the gate
    inputs are, and whether it returns or is ended by an exception: the
    context, the research mapping, the debate sequence and the consensus
    are those it started with.  What it writes are the files of the topics'
    opinions and syntheses; every [state.json] it saves holds the snapshot of
    the state the phase started in. *)
Theorem extra_phase_keeps_session (W : World) (self : Orchestrator) (st : St) :
  session (phaseC_extra W self st).2 = session st /\
  extends (extra_phase_event (snapshot self st)) st (phaseC_extra W self st).2.
Proof. exact (extra_phase_steps W self st st eq_refl). Qed.

(** ** Where exceptions can come from *)

Section Raises.
Context (P : pystr -> St -> Prop).

Lemma raises_ret {A} (a : A) : raises_only P (mret a).
Proof. intros st e st' H. discriminate. Qed.

Lemma raises_bind {A B} (m : M A) (f : A -> M B) :
  raises_only P m -> (forall a, raises_only P (f a)) -> raises_only P (m ≫= f).
Proof.
  intros Hm Hf st e st' H. rewrite bind_run in H.
  destruct (m st) as [[a|e1] st1] eqn:E.
  - by eapply Hf.
  - injection H as -> ->. by eapply Hm.
Qed.

Lemma raises_try_except {A} (m : M A) (h : pystr -> M A) :
  (forall e, raises_only P (h e)) -> raises_only P (try_except m h).
Proof.
  intros Hh st e st' H. rewrite try_except_run in H.
  destruct (m st) as [[a|e1] st1]; [discriminate|]. by eapply Hh.
Qed.

Lemma raises_get {A} (f : St -> A) : raises_only P (get f).
Proof. intros st e st' H. discriminate. Qed.











Lemma raises_gather_pending {A B} (W : World) (n : nat) (body : A -> M (list B))
    (pending : list A) (acc : list B) :
  (forall x, raises_only P (body x)) -> raises_only P (gather_pending W n body pending acc).
Proof.
  intros Hb. revert pending acc. induction n as [|n IH]; intros pending acc; simpl.
  - apply raises_ret.
  - intros st e st' H.
    destruct (pending !! _) as [x|]; [|discriminate].
    revert H. apply (raises_bind (body x)); [apply Hb|]. intros out. apply IH.
Qed.

Lemma raises_gather {A B} (W : World) (body : A -> M (list B)) (tasks : list A) :
  (forall x, raises_only P (body x)) -> raises_only P (gather W body tasks).
Proof. apply raises_gather_pending. Qed.

End Raises.


(** ** The order of a gather *)

(** A gather runs its bodies once each, in some order. *)
Lemma gather_pending_order {A B} (W : World) (body : A -> M (list B)) (n : nat) :
  forall (pending : list A) (acc : list B) (st : St),
  n = length pending ->
  exists order, order ≡ₚ pending /\
    gather_pending W n body pending acc st
    = (outs ← for_each body order; mret (acc ++ outs)) st.
Proof.
  induction n as [|n IH]; intros pending acc st Hn.
  - destruct pending; [|discriminate]. exists []. split; [done|].
    simpl. rewrite bind_run. simpl. by rewrite app_nil_r.
  - simpl.
    assert (Hlt : (sched_world W (length (trace st)) mod length pending < length pending)%nat)
      by (apply Nat.mod_upper_bound; lia).
    destruct (lookup_lt_is_Some_2 pending _ Hlt) as [x Hx]. rewrite Hx.
    rewrite bind_run.
    destruct (body x st) as [[out|e] st1] eqn:E.
    + destruct (IH (delete (sched_world W (length (trace st)) mod length pending)%nat pending)
                  (acc ++ out) st1) as (order & Hperm & Heq).
      { rewrite length_delete by eauto. lia. }
      exists (x :: order). split.
      * rewrite Hperm. symmetry. by apply delete_Permutation.
      * rewrite Heq. simpl. rewrite !bind_run, E. rewrite !bind_run.
        destruct (for_each body order st1) as [[outs|e] st2]; simpl; [|done].
        by rewrite app_assoc.
    + exists (x :: delete (sched_world W (length (trace st)) mod length pending)%nat pending).
      split; [symmetry; by apply delete_Permutation|].
      simpl. by rewrite !bind_run, E.
Qed.

Lemma gather_order {A B} (W : World) (body : A -> M (list B)) (tasks : list A) (st : St) :
  exists order, order ≡ₚ tasks /\ gather W body tasks st = for_each body order st.
Proof.
  destruct (gather_pending_order W body (length tasks) tasks [] st eq_refl)
    as (order & Hperm & Heq).
  exists order. split; [done|]. unfold gather. rewrite Heq.
  rewrite bind_run. by destruct (for_each body order st) as [[outs|e] st1].
Qed.

(** ** Primitive runs *)

Lemma log_run (e : Event) (st : St) : log e st = (Val tt, emit e st).
Proof. reflexivity. Qed.

Lemma get_run {A} (f : St -> A) (st : St) : get f st = (Val (f st), st).
Proof. reflexivity. Qed.

Lemma modify_run (f : St -> St) (st : St) : modify f st = (Val tt, f st).
Proof. reflexivity. Qed.

Lemma lift_res_run {A} (r : res A) (st : St) : lift_res r st = (r, st).
Proof. reflexivity. Qed.


Lemma grows_alt (st st' : St) : grows st st' <-> exists evs, trace st' = trace st ++ evs.
Proof.
  split.
  - intros H. destruct (H I) as (_ & evs & E & _). by exists evs.
  - intros (evs & E) _. split; [done|]. exists evs. split; [done|].
    by apply Forall_forall.
Qed.


(** ** The lead provider *)

Global Instance called_by_plumbing (who : Origin -> pystr -> Prop) :
  Plumbing (called_by who).
Proof. intros e H. by destruct e. Qed.

Global Instance True_blind : TraceBlind (fun _ => True).
Proof. done. Qed.

Lemma lead_claude_first_name (self : Orchestrator) (a : pystr * Provider) :
  lead_claude_first self = Val a -> a.1 = lead_name self.
Proof.
  unfold lead_claude_first, lead_name.
  destruct (dict_get (py "claude") (self_ai self)) as [prov|] eqn:E.
  - intros [= <-]. simpl.
    by rewrite (proj2 (dict_get_mem (py "claude") (self_ai self))) by (by rewrite E).
  - assert (dict_mem (py "claude") (self_ai self) = false) as ->.
    { apply not_true_is_false. rewrite dict_get_mem, E. by intros [? ?]. }
    unfold first_provider. destruct (self_ai self); [discriminate|]. by intros [= <-].
Qed.


Section Lead.
Variables (W : World) (self : Orchestrator).





End Lead.

Ltac steps_solve :=
  repeat match goal with
  | |- steps _ (mret _) => steps_ret
  | |- steps _ (_ ≫= _) => steps_bind
  | |- steps _ (get _) => apply steps_get; apply _
  | |- steps _ (log _) => apply steps_log; try apply _
  | |- steps _ (save _ _) => apply steps_save; try apply _
  | |- steps _ (modify _) => apply steps_modify
  | |- steps _ (call _ _ _ _ _ _) => apply steps_call; try apply _
  | |- steps _ (lift_res _) => apply steps_lift_res; apply _
  | |- steps _ (try_except _ _) => apply steps_try_except; try apply _; [|intros ?]
  | |- steps _ (for_each _ _) => apply steps_for_each; [apply _ | intros [? ?]]
  | |- steps _ (gather _ _ _) => apply steps_gather; [apply _ | intros [? ?]]
  | |- steps _ (_save_state _) => apply steps_save_state; try apply _
  | |- steps _ Gate.ask => apply steps_ask; try apply _
  | |- steps _ Gate.ask_round => apply steps_ask_round; try apply _
  | |- steps _ (match ?x with _ => _ end) => destruct x
  end.




(** ** Concrete worlds and orchestrators *)



(** ** What a respond prompt is built from *)

Lemma steps_gather_pending_in (R : relation St) `{!PreOrder R} {A B} (W : World) (n : nat)
    (body : A -> M (list B)) (pending : list A) (acc : list B) :
  (forall x, x ∈ pending -> steps R (body x)) ->
  steps R (gather_pending W n body pending acc).
Proof.
  revert pending acc. induction n as [|n IH]; intros pending acc Hb; simpl.
  - apply steps_ret, _.
  - intros st.
    destruct (pending !! _) as [x|] eqn:E; [|simpl; reflexivity].
    apply (steps_bind R (body x)).
    + apply Hb. by eapply list_elem_of_lookup_2.
    + intros out. apply IH. intros y Hy. apply Hb. by eapply list_elem_of_delete_inv.
Qed.

Lemma steps_gather_in (R : relation St) `{!PreOrder R} {A B} (W : World)
    (body : A -> M (list B)) (tasks : list A) :
  (forall x, x ∈ tasks -> steps R (body x)) -> steps R (gather W body tasks).
Proof. apply steps_gather_pending_in, _. Qed.

(** Entries of round [rnd] or later do not reach a prompt of round [rnd]. *)
Lemma respond_refs_later (rnd : Z) (name : pystr) (d later : list DebateEntry) :
  Forall (fun rec => rnd <= d_round rec) later ->
  respond_refs rnd name (d ++ later) = respond_refs rnd name d.
Proof.
  intros Hl. unfold respond_refs. rewrite filter_app.
  replace (filter _ later) with (@nil DebateEntry); [by rewrite app_nil_r|].
  symmetry. induction Hl as [|rec later Hrec Hl IH]; [done|].
  rewrite filter_cons_False; [done|]. intros [? _]. lia.
Qed.

Lemma respond_crits_later_rounds (self : Orchestrator) (rnd : Z) (np : pystr * Provider)
    (d later : list DebateEntry) :
  Forall (fun rec => rnd <= d_round rec) later ->
  respond_prompt self rnd np (d ++ later) = respond_prompt self rnd np d.
Proof.
  intros Hl. unfold respond_prompt, respond_crits. by rewrite respond_refs_later.
Qed.

(** ** What a fan-out leaves *)

Lemma with_trace_with_trace (a b : list Event) (st : St) :
  with_trace b (with_trace a st) = with_trace (a ++ b) st.
Proof. unfold with_trace. simpl. by rewrite app_assoc. Qed.

Lemma call_results_app (a b : list Event) :
  call_results (a ++ b) = call_results a ++ call_results b.
Proof. apply omap_app. Qed.

Lemma call_results_plumbing (low : list Event) :
  Forall plumbing low -> call_results low = [].
Proof.
  induction 1 as [|e low He _ IH]; [done|].
  destruct e; try (by destruct He); exact IH.
Qed.

Lemma query_with_fallback_spec (W : World) (p : Provider) (q : Prompt) (deep : bool)
    (st : St) :
  exists low, Forall plumbing low /\
    (query_with_fallback W p q deep st).2 = with_trace low st.
Proof.
  unfold query_with_fallback, try_except, query, _cli_fallback, api_call.
  case_decide.
  - destruct (cli_world W (length (trace st)) (kind p) q) as [t|e] eqn:E; simpl.
    + exists [EvCli (kind p) q (Ok t)]. split; [by repeat constructor | reflexivity].
    + exists [EvCli (kind p) q (Fail e);
              EvCli (kind p) q (cli_world W (length (trace (emit (EvCli (kind p) q (Fail e)) st)))
                                  (kind p) q)].
      split; [by repeat constructor|].
      unfold with_trace, emit. simpl. by rewrite <- app_assoc.
  - destruct (api_world W (length (trace st)) (kind p) q deep) as [t|e] eqn:E; simpl.
    + exists [EvApi (kind p) q deep (Ok t)]. split; [by repeat constructor | reflexivity].
    + exists [EvApi (kind p) q deep (Fail e);
              EvCli (kind p) q (cli_world W (length (trace (emit (EvApi (kind p) q deep (Fail e)) st)))
                                  (kind p) q)].
      split; [by repeat constructor|].
      unfold with_trace, emit. simpl. by rewrite <- app_assoc.
Qed.

Lemma call_spec (W : World) (o : Origin) (name : pystr) (p : Provider) (q : Prompt)
    (deep : bool) (st : St) :
  exists r low, Forall plumbing low /\
    call W o name p q deep st
    = (r, with_trace (low ++ [EvCall o name q (outcome_of_res r)]) st).
Proof.
  unfold call. destruct (query_with_fallback_spec W p q deep st) as (low & F & E).
  destruct (query_with_fallback W p q deep st) as [r st1]. simpl in E. subst st1.
  exists r, low. split; [done|]. unfold emit, with_trace. simpl. by rewrite <- app_assoc.
Qed.

(** ** The prompts of a respond round *)

Lemma calls_asked_app (a b : list Event) :
  calls_asked (a ++ b) = calls_asked a ++ calls_asked b.
Proof. apply omap_app. Qed.

Lemma calls_asked_plumbing (low : list Event) :
  Forall plumbing low -> calls_asked low = [].
Proof.
  induction 1 as [|e low He _ IH]; [done|].
  destruct e; try (by destruct He); exact IH.
Qed.

Lemma respond_prompt_quotes (self : Orchestrator) (rnd : Z) (name : pystr)
    (prov : Provider) (d : list DebateEntry) :
  (ORespond rnd, name, respond_prompt self rnd (name, prov) d)
  = respond_call_on self rnd d (name, prov).
Proof. reflexivity. Qed.

Section RespondRound.
Variables (W : World) (self : Orchestrator) (rnd : Z) (d0 : list DebateEntry).

Lemma respond_do_spec (name : pystr) (prov : Provider) (later : list DebateEntry)
    (st : St) :
  debate st = d0 ++ later -> Forall (fun rec => rnd <= d_round rec) later ->
  exists files evs more st',
    respond_do W self rnd (name, prov) st = (Val files, st') /\
    debate st' = debate st ++ more /\
    Forall (fun rec => d_round rec = rnd /\ d_type rec = respond) more /\
    trace st' = trace st ++ evs /\
    calls_asked evs = [respond_call_on self rnd d0 (name, prov)].
Proof.
  intros Hd Hl. unfold respond_do. rewrite bind_run, get_run.
  assert (respond_prompt self rnd (name, prov) (debate st)
          = respond_prompt self rnd (name, prov) d0) as ->.
  { rewrite Hd. by apply respond_crits_later_rounds. }
  rewrite try_except_run, bind_run.
  match goal with |- context [call W ?o ?n ?p ?q ?d st] =>
    destruct (call_spec W o n p q d st) as (r & low & F & E); rewrite E end.
  destruct r as [t|e].
  - rewrite bind_run, modify_run, bind_run. unfold save. rewrite log_run, ret_run.
    eexists _, _, [mkEntry rnd respond name t], _. split; [reflexivity|]. simpl.
    split; [reflexivity|]. split; [by repeat constructor|].
    split; [by rewrite <- app_assoc|].
    rewrite !calls_asked_app, (calls_asked_plumbing _ F). cbn [app].
    cbn [calls_asked omap list_omap app]. by rewrite respond_prompt_quotes.
  - rewrite ret_run.
    eexists _, _, [], _. split; [reflexivity|]. simpl.
    split; [by rewrite app_nil_r|]. split; [constructor|].
    split; [reflexivity|].
    rewrite !calls_asked_app, (calls_asked_plumbing _ F). cbn [app].
    cbn [calls_asked omap list_omap app]. by rewrite respond_prompt_quotes.
Qed.

Lemma for_each_respond (order : pydict Provider) :
  forall (later : list DebateEntry) (st : St),
  debate st = d0 ++ later -> Forall (fun rec => rnd <= d_round rec) later ->
  exists files evs more st',
    for_each (respond_do W self rnd) order st = (Val files, st') /\
    debate st' = debate st ++ more /\
    Forall (fun rec => d_round rec = rnd /\ d_type rec = respond) more /\
    trace st' = trace st ++ evs /\
    calls_asked evs = map (respond_call_on self rnd d0) order.
Proof.
  induction order as [|[n p] order IH]; intros later st Hd Hl.
  - exists [], [], [], st. simpl. by rewrite !app_nil_r.
  - destruct (respond_do_spec n p later st Hd Hl)
      as (files1 & evs1 & more1 & st1 & E1 & Hd1 & Hm1 & Ht1 & Hc1).
    destruct (IH (later ++ more1) st1)
      as (files & evs & more & st' & E & Hd' & Hm & Ht & Hc).
    { by rewrite Hd1, Hd, <- app_assoc. }
    { apply Forall_app. split; [done|].
      eapply Forall_impl; [exact Hm1|]. simpl. intros rec [-> _]. lia. }
    exists (files1 ++ files), (evs1 ++ evs), (more1 ++ more), st'.
    split; [cbn [for_each]; by rewrite bind_run, E1, bind_run, E|].
    split; [by rewrite Hd', Hd1, <- app_assoc|].
    split; [by apply Forall_app|].
    split; [by rewrite Ht, Ht1, <- app_assoc|].
    by rewrite calls_asked_app, Hc1, Hc.
Qed.

End RespondRound.

(** C9.  In a respond round [rnd], whatever the order in which the
    providers' calls resolve, and whatever entries of round [rnd] or later
    the debate already ends with: the round returns; the calls it makes are
    one respond call of round [rnd] for each provider of the mapping and
    no other call; the prompt of the call for [name] quotes, of the debate
    before those entries, exactly the entries of round [rnd - 1] by
    providers other than [name], in the order of the debate, and no entry
    of round [rnd] or later; and what the round adds to the debate are
    responses of round [rnd], which the prompts of the same round, built
    while they are added, do not quote either. *)
Theorem respond_prompt_sources (W : World) (self : Orchestrator) (rnd : Z) (st : St)
    (d0 later : list DebateEntry) :
  debate st = d0 ++ later -> Forall (fun rec => rnd <= d_round rec) later ->
  exists files evs more,
    (_round_respond W self rnd st).1 = Val files /\
    trace (_round_respond W self rnd st).2 = trace st ++ evs /\
    calls_asked evs ≡ₚ map (respond_call_on self rnd d0) (self_ai self) /\
    debate (_round_respond W self rnd st).2 = debate st ++ more /\
    Forall (fun rec => d_round rec = rnd /\ d_type rec = respond) more.
Proof.
  intros Hd Hl. unfold _round_respond. rewrite bind_run, log_run.
  destruct (gather_order W (respond_do W self rnd) (self_ai self)
              (emit (EvRound Respond rnd) st)) as (order & Hperm & ->).
  destruct (for_each_respond W self rnd d0 order later (emit (EvRound Respond rnd) st) Hd Hl)
    as (files & evs & more & st' & E & Hd' & Hm & Ht & Hc).
  rewrite E. exists files, (EvRound Respond rnd :: evs), more. cbn [fst snd].
  split; [reflexivity|].
  split; [rewrite Ht; cbn [trace emit]; by rewrite <- app_assoc|].
  split; [|by split].
  change (EvRound Respond rnd :: evs) with ([EvRound Respond rnd] ++ evs).
  rewrite calls_asked_app, Hc. cbn [calls_asked omap list_omap app].
  by apply fmap_Permutation.
Qed.

Lemma respond_prompt_sources_witness :
  exists files evs more,
    (_round_respond calm_world gemini_first 2
       (mkSt [] [] (two_critiques ++ [mkEntry 2 respond (py "claude") (py "reply")])
          [] [] [])).1 = Val files /\
    trace (_round_respond calm_world gemini_first 2
       (mkSt [] [] (two_critiques ++ [mkEntry 2 respond (py "claude") (py "reply")])
          [] [] [])).2 = [] ++ evs /\
    calls_asked evs
      ≡ₚ map (respond_call_on gemini_first 2 two_critiques) (self_ai gemini_first) /\
    debate (_round_respond calm_world gemini_first 2
       (mkSt [] [] (two_critiques ++ [mkEntry 2 respond (py "claude") (py "reply")])
          [] [] [])).2
    = (two_critiques ++ [mkEntry 2 respond (py "claude") (py "reply")]) ++ more /\
    Forall (fun rec => d_round rec = 2 /\ d_type rec = respond) more.
Proof.
  apply (respond_prompt_sources calm_world gemini_first 2
           (mkSt [] [] (two_critiques ++ [mkEntry 2 respond (py "claude") (py "reply")])
              [] [] [])
           two_critiques [mkEntry 2 respond (py "claude") (py "reply")]).
  - reflexivity.
  - constructor; [simpl; lia | constructor].
Defined.

Global Instance failed_dec (no : pystr * outcome) : Decision (failed no).
Proof. unfold failed. destruct (no.2); apply _. Defined.

Lemma dict_set_fresh {V} (k : pystr) (v : V) (d : pydict V) :
  k ∉ dict_keys d -> dict_set k v d = d ++ [(k, v)].
Proof.
  unfold dict_keys. induction d as [|[k' v'] d IH]; simpl; [done|].
  rewrite not_elem_of_cons. intros [Hne Hnin].
  rewrite decide_False by done. by rewrite IH.
Qed.

Lemma dict_get_entries {A V} (f : A -> V) (outs : list (pystr * A)) (k : pystr) (a : A) :
  NoDup outs.*1 -> (k, a) ∈ outs ->
  dict_get k (map (fun no => (no.1, f no.2)) outs) = Some (f a).
Proof.
  induction outs as [|[k' a'] outs IH]; simpl.
  - by intros _ ?%elem_of_nil.
  - intros [Hn Hnd]%NoDup_cons [[= <- <-]|Hin]%elem_of_cons.
    + by rewrite decide_True.
    + rewrite decide_False; [by apply IH|].
      intros ->. apply Hn. apply list_elem_of_fmap. by exists (k, a).
Qed.

Lemma failed_marker_not_answer (e : pystr) : is_answer (research_failed e) = false.
Proof. reflexivity. Qed.

(** The entries the code counts as answers are those of the calls that did
    not fail, when every answer passes the code's test. *)
Lemma research_ok_count (outs : list (pystr * outcome)) :
  (forall name t, (name, Ok t) ∈ outs -> is_answer t = true) ->
  research_ok (map (fun no => (no.1, research_entry no.2)) outs)
  = (length outs - length (filter failed outs))%nat.
Proof.
  unfold research_ok, dict_values. induction outs as [|[n o] outs IH]; [done|].
  intros Hok. rewrite map_cons, fmap_cons. cbn [fst snd].
  assert (IH' := IH (fun name t H => Hok name t (list_elem_of_further _ _ _ H))).
  pose proof (length_filter failed outs) as Hle.
  destruct o as [t|e].
  - rewrite filter_cons_True by (apply (Hok n t); by left).
    rewrite (filter_cons_False failed) by (unfold failed; simpl; tauto).
    cbn [length]. lia.
  - rewrite filter_cons_False
      by (change (research_entry (Fail e)) with (research_failed e);
          by rewrite failed_marker_not_answer).
    rewrite (filter_cons_True failed) by (unfold failed; simpl; tauto).
    cbn [length]. lia.
Qed.

Lemma critique_entries_count (rnd : Z) (outs : list (pystr * outcome)) :
  length (omap (critique_entry rnd) outs)
  = (length outs - length (filter failed outs))%nat.
Proof.
  induction outs as [|[n o] outs IH]; [done|].
  pose proof (length_filter failed outs) as Hle.
  destruct o as [t|e].
  - rewrite (filter_cons_False failed) by (unfold failed; simpl; tauto).
    change (omap (critique_entry rnd) ((n, Ok t) :: outs))
      with (mkEntry rnd critique n t :: omap (critique_entry rnd) outs).
    cbn [length]. lia.
  - rewrite (filter_cons_True failed) by (unfold failed; simpl; tauto).
    change (omap (critique_entry rnd) ((n, Fail e) :: outs))
      with (omap (critique_entry rnd) outs).
    cbn [length]. lia.
Qed.

Section FanOut.
Variables (W : World) (self : Orchestrator).

Lemma research_do_spec (name : pystr) (prov : Provider) (st : St) :
  exists o files evs st',
    research_do W self (name, prov) st = (Val files, st') /\
    research st' = dict_set name (research_entry o) (research st) /\
    ctx st' = ctx st /\ debate st' = debate st /\ consensus st' = consensus st /\
    stdin st' = stdin st /\
    trace st' = trace st ++ evs /\ call_results evs = [(name, o)].
Proof.
  unfold research_do. rewrite bind_run, get_run, try_except_run, bind_run.
  match goal with |- context [call W ?o ?n ?p ?q ?d st] =>
    destruct (call_spec W o n p q d st) as (r & low & F & E); rewrite E end.
  destruct r as [t|e].
  - rewrite bind_run, modify_run, bind_run. unfold save. rewrite log_run, ret_run.
    eexists (Ok t), _, _, _. split; [reflexivity|]. simpl.
    repeat split; try reflexivity.
    + by rewrite <- app_assoc.
    + rewrite !call_results_app, (call_results_plumbing _ F). reflexivity.
  - rewrite bind_run, modify_run, ret_run.
    eexists (Fail e), _, _, _. split; [reflexivity|]. simpl.
    repeat split; try reflexivity.
    rewrite !call_results_app, (call_results_plumbing _ F). reflexivity.
Qed.

Lemma critique_do_spec (rnd : Z) (name : pystr) (prov : Provider) (st : St) :
  exists o files evs st',
    critique_do W self rnd (name, prov) st = (Val files, st') /\
    debate st' = debate st ++ option_list (critique_entry rnd (name, o)) /\
    ctx st' = ctx st /\ research st' = research st /\ consensus st' = consensus st /\
    stdin st' = stdin st /\
    trace st' = trace st ++ evs /\ call_results evs = [(name, o)].
Proof.
  unfold critique_do. rewrite bind_run, get_run, try_except_run, bind_run.
  match goal with |- context [call W ?o ?n ?p ?q ?d st] =>
    destruct (call_spec W o n p q d st) as (r & low & F & E); rewrite E end.
  destruct r as [t|e].
  - rewrite bind_run, modify_run, bind_run. unfold save. rewrite log_run, ret_run.
    eexists (Ok t), _, _, _. split; [reflexivity|]. simpl.
    repeat split; try reflexivity.
    + by rewrite <- app_assoc.
    + rewrite !call_results_app, (call_results_plumbing _ F). reflexivity.
  - rewrite ret_run.
    eexists (Fail e), _, _, _. split; [reflexivity|]. simpl.
    repeat split; try reflexivity.
    + by rewrite app_nil_r.
    + rewrite !call_results_app, (call_results_plumbing _ F). reflexivity.
Qed.

Lemma for_each_research (order : pydict Provider) :
  forall st,
  NoDup order.*1 ->
  (forall n, n ∈ order.*1 -> n ∉ dict_keys (research st)) ->
  exists outs files evs st',
    for_each (research_do W self) order st = (Val files, st') /\
    outs.*1 = order.*1 /\
    research st' = research st ++ map (fun no => (no.1, research_entry no.2)) outs /\
    trace st' = trace st ++ evs /\ call_results evs = outs.
Proof.
  induction order as [|[n p] order IH]; intros st Hnd Hfresh.
  - exists [], [], [], st. simpl. by rewrite !app_nil_r.
  - simpl in Hnd. apply NoDup_cons in Hnd as [Hn Hnd].
    destruct (research_do_spec n p st)
      as (o & files1 & evs1 & st1 & E1 & Hr1 & _ & _ & _ & _ & Ht1 & Hc1).
    rewrite dict_set_fresh in Hr1 by (apply Hfresh; simpl; by left).
    destruct (IH st1 Hnd) as (outs & files & evs & st' & E & Ho & Hr & Ht & Hc).
    { intros m Hm. rewrite Hr1. unfold dict_keys. rewrite fmap_app, elem_of_app.
      intros [H|H%list_elem_of_singleton].
      - revert H. apply Hfresh. simpl. by right.
      - simpl in H. by subst m. }
    exists ((n, o) :: outs), (files1 ++ files), (evs1 ++ evs), st'.
    split; [cbn [for_each]; by rewrite bind_run, E1, bind_run, E|].
    split; [by rewrite !fmap_cons, Ho|].
    split; [by rewrite Hr, Hr1, <- app_assoc|].
    split; [by rewrite Ht, Ht1, <- app_assoc|].
    by rewrite call_results_app, Hc1, Hc.
Qed.

Lemma for_each_critique (rnd : Z) (order : pydict Provider) :
  forall st,
  exists outs files evs st',
    for_each (critique_do W self rnd) order st = (Val files, st') /\
    outs.*1 = order.*1 /\
    debate st' = debate st ++ omap (critique_entry rnd) outs /\
    research st' = research st /\
    trace st' = trace st ++ evs /\ call_results evs = outs.
Proof.
  induction order as [|[n p] order IH]; intros st.
  - exists [], [], [], st. simpl. by rewrite !app_nil_r.
  - destruct (critique_do_spec rnd n p st)
      as (o & files1 & evs1 & st1 & E1 & Hd1 & _ & Hr1 & _ & _ & Ht1 & Hc1).
    destruct (IH st1) as (outs & files & evs & st' & E & Ho & Hd & Hr & Ht & Hc).
    exists ((n, o) :: outs), (files1 ++ files), (evs1 ++ evs), st'.
    split; [cbn [for_each]; by rewrite bind_run, E1, bind_run, E|].
    split; [by rewrite !fmap_cons, Ho|].
    split.
    { rewrite Hd, Hd1, <- app_assoc. f_equal. simpl.
      by destruct (critique_entry rnd (n, o)). }
    split; [by rewrite Hr, Hr1|].
    split; [by rewrite Ht, Ht1, <- app_assoc|].
    by rewrite call_results_app, Hc1, Hc.
Qed.

End FanOut.

(** C1, as the code has it.  Over a provider mapping with distinct names:
    the research fan-out, started with no research entries, returns (no
    exception leaves it), and leaves the research mapping with one entry
    per provider, keyed by name: the answer of a provider whose call
    succeeded, the bracketed failure text of one whose primary call and
    fallback both raised.  The failure text never passes the code's test for
    an answer; when every genuine answer passes it, the entries counted as
    answers are N - k for k failed calls.  The critique fan-out returns as
    well, but a provider whose call failed leaves no entry and no marker:
    the debate grows by the N - k entries of the others. *)
Theorem fan_out_results (W : World) (self : Orchestrator) (st : St) :
  NoDup (dict_keys (self_ai self)) ->
  research st = [] ->
  (exists outs files evs st',
     research_batch W self st = (Val files, st') /\
     trace st' = trace st ++ evs /\ call_results evs = outs /\
     outs.*1 ≡ₚ dict_keys (self_ai self) /\
     research st' = map (fun no => (no.1, research_entry no.2)) outs /\
     length (research st') = length (self_ai self) /\
     dict_keys (research st') ≡ₚ dict_keys (self_ai self) /\
     (forall name o, (name, o) ∈ outs ->
        dict_get name (research st') = Some (research_entry o)) /\
     (forall e, is_answer (research_failed e) = false) /\
     ((forall name t, (name, Ok t) ∈ outs -> is_answer t = true) ->
      research_ok (research st')
      = (length (self_ai self) - length (filter failed outs))%nat)) /\
  (forall rnd, exists outs files evs st',
     _round_critique W self rnd st = (Val files, st') /\
     trace st' = trace st ++ EvRound Critique rnd :: evs /\ call_results evs = outs /\
     outs.*1 ≡ₚ dict_keys (self_ai self) /\
     debate st' = debate st ++ omap (critique_entry rnd) outs /\
     length (debate st')
     = (length (debate st) + (length (self_ai self) - length (filter failed outs)))%nat).
Proof.
  intros Hnd Hempty. split.
  - unfold research_batch.
    destruct (gather_order W (research_do W self) (self_ai self) st) as (order & Hperm & ->).
    destruct (for_each_research W self order st)
      as (outs & files & evs & st' & E & Ho & Hr & Ht & Hc).
    { unfold dict_keys in Hnd. by rewrite Hperm. }
    { intros n _. rewrite Hempty. apply not_elem_of_nil. }
    rewrite Hempty in Hr. simpl in Hr.
    assert (Hnames : outs.*1 ≡ₚ dict_keys (self_ai self))
      by (unfold dict_keys; by rewrite Ho, Hperm).
    assert (Hlen : length outs = length (self_ai self)).
    { rewrite <- (length_fmap fst outs), Hnames. unfold dict_keys. by rewrite length_fmap. }
    assert (Hkeys : dict_keys (research st') = outs.*1).
    { rewrite Hr. unfold dict_keys. clear. induction outs as [|[n o] outs IH]; [done|].
      rewrite map_cons, !fmap_cons. by rewrite IH. }
    exists outs, files, evs, st'.
    split; [done|]. split; [done|]. split; [done|]. split; [done|]. split; [done|].
    split; [by rewrite Hr, length_map|].
    split; [by rewrite Hkeys|].
    split.
    { intros name o Hin. rewrite Hr. apply dict_get_entries; [|done].
      rewrite Hnames. exact Hnd. }
    split; [apply failed_marker_not_answer|].
    intros Hok. by rewrite Hr, research_ok_count, Hlen.
  - intros rnd. unfold _round_critique. rewrite bind_run, log_run.
    destruct (gather_order W (critique_do W self rnd) (self_ai self)
                (emit (EvRound Critique rnd) st)) as (order & Hperm & ->).
    destruct (for_each_critique W self rnd order (emit (EvRound Critique rnd) st))
      as (outs & files & evs & st' & E & Ho & Hd & Hr & Ht & Hc).
    assert (Hnames : outs.*1 ≡ₚ dict_keys (self_ai self))
      by (unfold dict_keys; by rewrite Ho, Hperm).
    assert (Hlen : length outs = length (self_ai self)).
    { rewrite <- (length_fmap fst outs), Hnames. unfold dict_keys. by rewrite length_fmap. }
    exists outs, files, evs, st'.
    split; [done|]. split; [by rewrite Ht; simpl; rewrite <- app_assoc|].
    split; [done|]. split; [done|]. split; [done|].
    by rewrite Hd, length_app, critique_entries_count, Hlen.
Qed.

Lemma fan_out_results_witness :
  exists files st',
    research_batch gemini_down gemini_first (initial_state []) = (Val files, st') /\
    length (research st') = 2%nat.
Proof.
  destruct (fan_out_results gemini_down gemini_first (initial_state []))
    as ((outs & files & evs & st' & E & _ & _ & _ & _ & Hlen & _) & _).
  - apply (bool_decide_unpack _). vm_compute. reflexivity.
  - reflexivity.
  - exists files, st'. split; [exact E | exact Hlen].
Defined.

(** C1 as the claim has it fails on the critique fan-out: with two
    providers of which one fails, the round leaves one debate entry, not
    two, and none of them is a failure marker. *)
Lemma critique_drops_failed_provider :
  length (self_ai gemini_first) = 2%nat /\
  filter failed
    (call_results (trace (_round_critique gemini_down gemini_first 1 (initial_state [])).2))
  = [(py "gemini", Fail (py "no cli"))] /\
  debate (_round_critique gemini_down gemini_first 1 (initial_state [])).2
  = [mkEntry 1 critique (py "claude") (py "answer")].
Proof. split; [reflexivity|]. split; vm_compute; reflexivity. Qed.

(** ** Consensus without feedback *)

Lemma calls_from_app (site : Origin -> bool) (a b : list Event) :
  calls_from site (a ++ b) = calls_from site a ++ calls_from site b.
Proof. apply omap_app. Qed.

Lemma calls_from_plumbing (site : Origin -> bool) (low : list Event) :
  Forall plumbing low -> calls_from site low = [].
Proof.
  induction 1 as [|e low He _ IH]; [done|].
  destruct e; try (by destruct He); exact IH.
Qed.

Lemma calls_from_call (site : Origin -> bool) (low : list Event) (o : Origin)
    (name : pystr) (q : Prompt) (r : outcome) :
  Forall plumbing low ->
  calls_from site (low ++ [EvCall o name q r]) = if site o then [(name, r)] else [].
Proof.
  intros F. rewrite calls_from_app, (calls_from_plumbing _ _ F).
  unfold calls_from. simpl. by destruct (site o).
Qed.

Lemma calls_from_call_save (site : Origin -> bool) (low : list Event) (o : Origin)
    (name : pystr) (q : Prompt) (r : outcome) (a : Artifact) (t : pystr) :
  Forall plumbing low ->
  calls_from site (low ++ [EvCall o name q r] ++ [EvSave a t])
  = if site o then [(name, r)] else [].
Proof.
  intros F. rewrite calls_from_app, (calls_from_plumbing _ _ F).
  unfold calls_from. simpl. by destruct (site o).
Qed.

Section Verification.
Variables (W : World) (rnd : Z) (lead_n : pystr) (q : Prompt).

(** One verification: the state only gains events, none of them a synthesis
    or an amendment, and a verification whose call failed (or the lead's
    own turn) leaves no feedback. *)
Lemma verify_do_spec (np : pystr * Provider) (st : St) :
  exists verified evs,
    verify_do W rnd lead_n q np st = (Val verified, with_trace evs st) /\
    calls_from is_synthesis evs = [] /\ calls_from is_amend evs = [] /\
    (Forall failed (calls_from is_verify evs) -> verified = []).
Proof.
  destruct np as [name prov]. unfold verify_do. case_decide.
  - exists [], []. rewrite ret_run. unfold with_trace. rewrite app_nil_r.
    by destruct st.
  - rewrite try_except_run, bind_run.
    destruct (call_spec W (OVerify rnd) name prov q false st) as (r & low & F & E).
    rewrite E. destruct r as [vr|e].
    + rewrite bind_run. unfold save. rewrite log_run, ret_run.
      eexists _, (low ++ [EvCall (OVerify rnd) name q (Ok vr)]
                    ++ [EvSave (VerifyFile rnd name) vr]).
      split.
      { f_equal. unfold emit, with_trace. simpl. by rewrite <- !app_assoc. }
      rewrite !calls_from_call_save by done. simpl.
      split; [done|]. split; [done|].
      intros Hf. apply Forall_cons in Hf as [Hf _]. destruct Hf.
    + rewrite ret_run. exists [], (low ++ [EvCall (OVerify rnd) name q (Fail e)]).
      split; [done|]. rewrite !calls_from_call by done. done.
Qed.

Lemma verify_pass_spec (xs : pydict Provider) :
  forall st, exists verified evs,
    for_each (verify_do W rnd lead_n q) xs st = (Val verified, with_trace evs st) /\
    calls_from is_synthesis evs = [] /\ calls_from is_amend evs = [] /\
    (Forall failed (calls_from is_verify evs) -> verified = []).
Proof.
  induction xs as [|np xs IH]; intros st.
  - exists [], []. cbn [for_each]. rewrite ret_run. unfold with_trace. rewrite app_nil_r.
    by destruct st.
  - destruct (verify_do_spec np st) as (v1 & evs1 & E1 & Hs1 & Ha1 & Hf1).
    destruct (IH (with_trace evs1 st)) as (v2 & evs2 & E2 & Hs2 & Ha2 & Hf2).
    exists (v1 ++ v2), (evs1 ++ evs2). cbn [for_each].
    rewrite bind_run, E1, bind_run, E2, ret_run, with_trace_with_trace.
    split; [done|]. rewrite !calls_from_app, Hs1, Hs2, Ha1, Ha2.
    split; [done|]. split; [done|].
    intros [H1 H2]%Forall_app. by rewrite Hf1, Hf2.
Qed.

End Verification.

Lemma trace_app_inv (st : St) (a b : list Event) :
  trace st ++ a = trace st ++ b -> a = b.
Proof. apply app_inv_head. Qed.

(** C5.  In a consensus round whose synthesis call returned [c]: when no
    verification call of the round succeeded (each one failed, or there was
    no provider beside the lead to ask), the round returns, the consensus it
    leaves in the state is [c], and no amendment is asked for. *)
Theorem no_feedback_keeps_synthesis (W : World) (self : Orchestrator) (rnd : Z)
    (st : St) (c : pystr) (evs : list Event) :
  trace (_round_consensus W self rnd st).2 = trace st ++ evs ->
  (calls_from is_synthesis evs).*2 = [Ok c] ->
  Forall failed (calls_from is_verify evs) ->
  consensus (_round_consensus W self rnd st).2 = c /\
  (exists files, (_round_consensus W self rnd st).1 = Val files) /\
  calls_from is_amend evs = [].
Proof.
  destruct (_round_consensus W self rnd st) as [res st'] eqn:ER. cbn [fst snd].
  unfold _round_consensus in ER.
  rewrite bind_run, log_run, bind_run, get_run, bind_run, lift_res_run in ER.
  destruct (lead_claude_first self) as [[lead_n lead]|e].
  2: { injection ER as <- <-. cbn [trace emit]. intros H1%trace_app_inv. subst evs.
       discriminate. }
  cbv beta iota in ER. rewrite bind_run in ER.
  match type of ER with context [call W ?o ?n ?p ?q ?d ?s] =>
    destruct (call_spec W o n p q d s) as (r & low & F & E); rewrite E in ER end.
  destruct r as [c'|e].
  2: { injection ER as <- <-. cbn [trace emit with_trace]. rewrite <- app_assoc.
       intros H1%trace_app_inv. subst evs.
       rewrite (calls_from_app _ [_]), calls_from_call by done. discriminate. }
  rewrite bind_run, modify_run, bind_run in ER. unfold save at 1 in ER.
  rewrite log_run, bind_run in ER.
  match type of ER with context [for_each (verify_do W ?r ?l ?q) ?xs ?s] =>
    destruct (verify_pass_spec W r l q xs s) as (verified & evs_v & E2 & Hs & Ha & Hf);
    rewrite E2 in ER end.
  destruct (verified.*2) as [|fb fbs] eqn:Efb.
  - rewrite ret_run in ER. injection ER as <- <-.
    cbn [trace emit with_trace set_consensus consensus outcome_of_res].
    rewrite <- !app_assoc. intros H1%trace_app_inv. subst evs.
    rewrite !calls_from_app, !(calls_from_plumbing _ low) by done.
    rewrite Hs, Ha. cbn. intros [= ->] _. eauto.
  - intros H1 _ H3. exfalso.
    match type of ER with ?m ?s = _ =>
      assert (Hg : steps grows m) by (unfold grows; steps_solve; done);
      specialize (Hg s); rewrite ER in Hg;
      apply grows_alt in Hg as (more & Hg); cbn [snd] in Hg; rewrite Hg in H1 end.
    cbn [fst snd trace emit with_trace set_consensus] in H1.
    rewrite <- !app_assoc in H1. apply trace_app_inv in H1. subst evs.
    rewrite !calls_from_app in H3. rewrite !Forall_app in H3.
    destruct H3 as (_ & _ & _ & _ & H3 & _).
    rewrite (Hf H3) in Efb. discriminate.
Qed.

Lemma no_feedback_keeps_synthesis_witness :
  consensus (_round_consensus gemini_down gemini_first 3 (initial_state [])).2 = py "answer".
Proof.
  refine (proj1 (no_feedback_keeps_synthesis gemini_down gemini_first 3 (initial_state [])
                   (py "answer")
                   (drop 1 (trace (_round_consensus gemini_down gemini_first 3
                                     (initial_state [])).2)) _ _ _)).
  - vm_compute. reflexivity.
  - vm_compute. reflexivity.
  - vm_compute. repeat (constructor; [exact I|]). constructor.
Defined.

(** ** The rounds of a debate *)

Global Instance inner_plumbing (site : Origin -> Prop) : Plumbing (inner_event site).
Proof. intros e H. by destruct e. Qed.

Lemma marks_app (a b : list Event) : marks (a ++ b) = marks a ++ marks b.
Proof. apply filter_app. Qed.

Lemma marks_inner (site : Origin -> Prop) (evs : list Event) :
  Forall (inner_event site) evs -> marks evs = [].
Proof.
  induction 1 as [|e evs He _ IH]; [done|].
  unfold marks in *. rewrite filter_cons_False; [done|]. by destruct e.
Qed.

Lemma inner_calls (site : Origin -> Prop) (evs : list Event) (o : Origin) (name : pystr)
    (q : Prompt) (r : outcome) :
  Forall (inner_event site) evs -> EvCall o name q r ∈ evs -> site o.
Proof. intros F Hin. by apply (proj1 (Forall_forall _ _) F _ Hin). Qed.

Global Instance holds_input_blind (s0 : list input_ev) : TraceBlind (holds_input s0).
Proof. intros e st H. exact H. Qed.

Section Rounds.
Variables (W : World) (self : Orchestrator).

Lemma critique_batch_inner (s0 : list input_ev) (rnd : Z) :
  steps (inv_ext (holds_input s0) (inner_event (critique_site rnd)))
    (gather W (critique_do W self rnd) (self_ai self)).
Proof. steps_solve. unfold critique_do. steps_solve; done. Qed.

Lemma respond_batch_inner (s0 : list input_ev) (rnd : Z) :
  steps (inv_ext (holds_input s0) (inner_event (respond_site rnd)))
    (gather W (respond_do W self rnd) (self_ai self)).
Proof. steps_solve. unfold respond_do. steps_solve; done. Qed.

Lemma critique_batch_returns (rnd : Z) :
  raises_only (fun _ _ => False) (gather W (critique_do W self rnd) (self_ai self)).
Proof.
  apply raises_gather. intros [name prov]. unfold critique_do.
  apply raises_bind; [apply raises_get|]. intros r.
  apply raises_try_except. intros _. apply raises_ret.
Qed.

Lemma respond_batch_returns (rnd : Z) :
  raises_only (fun _ _ => False) (gather W (respond_do W self rnd) (self_ai self)).
Proof.
  apply raises_gather. intros [name prov]. unfold respond_do.
  apply raises_bind; [apply raises_get|]. intros r.
  apply raises_try_except. intros _. apply raises_ret.
Qed.

Lemma consensus_inner (s0 : list input_ev) (rnd : Z) :
  steps (inv_ext (holds_input s0) (inner_event (consensus_site rnd)))
    (d ← get debate;
     '(lead_n, lead) ← lift_res (lead_claude_first self);
     consensus ← call W (OConsensus rnd) lead_n lead
                   (PConsensus (take 30000 (consensus_history self d))) false;
     modify (set_consensus consensus);;
     save (ConsensusFile rnd) consensus;;
     verified ← for_each (verify_do W rnd lead_n (PVerify (take 8000 consensus)))
                  (self_ai self);
     match verified.*2 with
     | [] => mret (ConsensusFile rnd :: verified.*1)
     | _ =>
       final ← call W (OAmend rnd) lead_n lead
                 (PAmend (take 8000 consensus) (take 6000 (concat verified.*2))) false;
       modify (set_consensus final);;
       save ConsensusFinal final;;
       mret (ConsensusFile rnd :: verified.*1 ++ [ConsensusFinal])
     end).
Proof.
  unfold consensus_site. steps_solve; try done.
  - intros r. unfold inner_event. tauto.
  - unfold verify_do. case_decide; steps_solve; try done.
    intros r. unfold inner_event. tauto.
  - intros r. unfold inner_event. tauto.
Qed.

(** A round that is not the last one: the fan-out returns, reads no input,
    and adds its header and then the events of its calls. *)
Lemma round_batch_run (rnd : Z) (st : St) :
  exists files evs st',
    (if bool_decide (rnd = 1) then _round_critique W self rnd
     else _round_respond W self rnd) st = (Val files, st') /\
    stdin st' = stdin st /\
    trace st' = trace st ++ EvRound (round_kind rnd) rnd :: evs /\
    Forall (inner_event (batch_site rnd)) evs.
Proof.
  unfold round_kind. case_bool_decide as Hone.
  - unfold _round_critique. rewrite bind_run, log_run.
    pose proof (critique_batch_inner (stdin st) rnd (emit (EvRound Critique rnd) st) eq_refl)
      as (Hin & evs & E & F).
    pose proof (critique_batch_returns rnd (emit (EvRound Critique rnd) st)) as Hr.
    destruct (gather W (critique_do W self rnd) (self_ai self) (emit (EvRound Critique rnd) st))
      as [[files|e] st']; [|destruct (Hr e st' eq_refl)].
    cbn [snd] in Hin, E. exists files, evs, st'. split; [done|]. split; [exact Hin|].
    split; [by rewrite E; cbn [trace emit]; rewrite <- app_assoc|].
    eapply Forall_impl; [exact F|]. intros [] He; try done. by left.
  - unfold _round_respond. rewrite bind_run, log_run.
    pose proof (respond_batch_inner (stdin st) rnd (emit (EvRound Respond rnd) st) eq_refl)
      as (Hin & evs & E & F).
    pose proof (respond_batch_returns rnd (emit (EvRound Respond rnd) st)) as Hr.
    destruct (gather W (respond_do W self rnd) (self_ai self) (emit (EvRound Respond rnd) st))
      as [[files|e] st']; [|destruct (Hr e st' eq_refl)].
    cbn [snd] in Hin, E. exists files, evs, st'. split; [done|]. split; [exact Hin|].
    split; [by rewrite E; cbn [trace emit]; rewrite <- app_assoc|].
    eapply Forall_impl; [exact F|]. intros [] He; try done. by right.
Qed.

(** A consensus round, whether it returns or raises: no input is read, and
    the header is followed by the events of its calls. *)
Lemma round_consensus_run (rnd : Z) (st : St) :
  exists evs,
    stdin (_round_consensus W self rnd st).2 = stdin st /\
    trace (_round_consensus W self rnd st).2 = trace st ++ EvRound Consensus rnd :: evs /\
    Forall (inner_event (consensus_site rnd)) evs.
Proof.
  unfold _round_consensus. rewrite bind_run, log_run.
  pose proof (consensus_inner (stdin st) rnd (emit (EvRound Consensus rnd) st) eq_refl)
    as (Hin & evs & E & F).
  exists evs. split; [exact Hin|]. split; [|done].
  rewrite E. cbn [trace emit]. by rewrite <- app_assoc.
Qed.

Lemma debate_rounds_nonlast (rnd : Z) (rest : list Z) (actual : Z) :
  rnd <> self_rounds self ->
  debate_rounds W self (rnd :: rest) actual =
  ((if bool_decide (rnd = 1) then _round_critique W self rnd
    else _round_respond W self rnd);;
   _save_state self;;
   g ← Gate.ask_round;
   match g with
   | Abort => _round_consensus W self (rnd + 1);; mret rnd
   | _ => debate_rounds W self rest rnd
   end).
Proof.
  intros Hne. cbn [debate_rounds]. rewrite (bool_decide_eq_false_2 _ Hne).
  by destruct (bool_decide (rnd = 1)).
Qed.

End Rounds.

Lemma save_state_run (self : Orchestrator) (st : St) :
  _save_state self st = (Val tt, emit (EvSaveState (snapshot self st)) st).
Proof. reflexivity. Qed.

Lemma bind_ret_state {A B} (m : M A) (b : B) (st : St) :
  ((m ≫= fun _ => mret b) st).2 = (m st).2.
Proof. rewrite bind_run. by destruct (m st) as [[a|e] st1]. Qed.

Section AbortedDebate.
Variables (W : World) (self : Orchestrator) (x : input_ev) (rest : list input_ev).
Hypothesis Hx : choice (py "q") x = py "q".

Lemma debate_rounds_abort (pre : list input_ev) :
  forall (k m : nat) (st : St) (actual : Z),
  (1 <= k)%nat -> (length pre < m)%nat ->
  Z.of_nat (k + length pre) < self_rounds self ->
  stdin st = pre ++ x :: rest ->
  Forall (fun i => choice (py "q") i <> py "q") pre ->
  exists evs,
    trace (debate_rounds W self (map Z.of_nat (seq k m)) actual st).2 = trace st ++ evs /\
    stdin (debate_rounds W self (map Z.of_nat (seq k m)) actual st).2 = rest /\
    marks evs
    = concat (map round_then_gate (zip (map Z.of_nat (seq k (S (length pre)))) (pre ++ [x])))
        ++ [EvRound Consensus (Z.of_nat (k + length pre) + 1)] /\
    (forall n name q o, EvCall (ORespond n) name q o ∈ evs ->
       Z.of_nat k <= n <= Z.of_nat (k + length pre) /\ 2 <= n).
Proof using Hx.
  induction pre as [|i pre IH]; intros k m st actual Hk Hm Hlast Hin Hpre;
    (destruct m as [|m]; [simpl in Hm; lia|]);
    cbn [seq map]; (rewrite debate_rounds_nonlast by (simpl in Hlast; lia));
    rewrite bind_run;
    destruct (round_batch_run W self (Z.of_nat k) st) as (files & evs_b & st1 & E1 & Hs1 & Ht1 & F1);
    rewrite E1, bind_run, save_state_run, bind_run.
  - rewrite (ask_round_run _ x rest) by (cbn [stdin emit]; by rewrite Hs1, Hin).
    rewrite (decide_True (P := choice (py "q") x = py "q")) by exact Hx.
    rewrite bind_ret_state.
    match goal with |- context [_round_consensus W self ?r ?s] =>
      destruct (round_consensus_run W self r s) as (evs_c & Hsc & Htc & Fc) end.
    exists (EvRound (round_kind (Z.of_nat k)) (Z.of_nat k) :: evs_b
              ++ [EvSaveState (snapshot self st1); EvInput x]
              ++ EvRound Consensus (Z.of_nat k + 1) :: evs_c).
    split; [|split; [|split]].
    + rewrite Htc. cbn [trace emit set_stdin]. rewrite Ht1.
      rewrite <- !app_assoc. reflexivity.
    + rewrite Hsc. reflexivity.
    + change (?a :: evs_b ++ ?b ++ ?c :: evs_c) with ([a] ++ evs_b ++ b ++ [c] ++ evs_c).
      rewrite !marks_app, (marks_inner _ _ F1), (marks_inner _ _ Fc).
      cbn [length]. rewrite Nat.add_0_r. reflexivity.
    + intros n name q o H.
      repeat (rewrite elem_of_cons in H || rewrite elem_of_app in H).
      rewrite elem_of_nil in H. destruct_or!; try discriminate; try done.
      * apply (inner_calls _ _ _ _ _ _ F1) in H as [H|[[= ->] Hne]]; [discriminate|].
        cbn [length]. lia.
      * apply (inner_calls _ _ _ _ _ _ Fc) in H as [H|[H|H]]; discriminate.
  - apply Forall_cons in Hpre as [Hi Hpre].
    rewrite (ask_round_run _ i (pre ++ x :: rest)) by (cbn [stdin emit]; by rewrite Hs1, Hin).
    rewrite (decide_False (P := choice (py "q") i = py "q")) by exact Hi.
    cbv beta iota.
    match goal with |- context [debate_rounds W self ?l ?a ?s] =>
      destruct (IH (S k) m s a) as (evs_r & Htr & Hsr & Hmr & Hcr) end;
      [lia | simpl in Hm; lia | simpl in Hlast; lia | reflexivity | exact Hpre |].
    exists (EvRound (round_kind (Z.of_nat k)) (Z.of_nat k) :: evs_b
              ++ [EvSaveState (snapshot self st1); EvInput i] ++ evs_r).
    split; [|split; [|split]].
    + rewrite Htr. cbn [trace emit set_stdin]. rewrite Ht1.
      rewrite <- !app_assoc. reflexivity.
    + exact Hsr.
    + change (?a :: evs_b ++ ?b ++ evs_r) with ([a] ++ evs_b ++ b ++ evs_r).
      rewrite !marks_app, (marks_inner _ _ F1), Hmr.
      cbn [length]. replace (k + S (length pre))%nat with (S k + length pre)%nat by lia.
      reflexivity.
    + intros n name q o H.
      repeat (rewrite elem_of_cons in H || rewrite elem_of_app in H).
      rewrite elem_of_nil in H. destruct_or!; try discriminate; try done.
      * apply (inner_calls _ _ _ _ _ _ F1) in H as [H|[[= ->] Hne]]; [discriminate|].
        cbn [length]. lia.
      * apply Hcr in H. cbn [length]. lia.
Qed.

End AbortedDebate.

Lemma ask_emits (st : St) :
  exists g i st', Gate.ask st = (Val g, st') /\ trace st' = trace st ++ [EvInput i].
Proof.
  destruct (stdin st) as [|i rest] eqn:E.
  - rewrite (ask_run_end st E). by eexists _, Eof, _.
  - rewrite (ask_run st i rest E). by eexists _, i, _.
Qed.

(** C3.  When the round gates of rounds [1 .. r - 1] let the debate go on
    and the gate of round [r], not the last round, aborts (by [q], by the end
    of the input or by an interrupt): the rounds run are [1 .. r], each
    followed by the input its gate read, the aborting input is followed at
    once by the header of a consensus round with index [r + 1], no further
    round follows, and every respond call of the phase belongs to a round
    between [2] and [r]. *)
Theorem abort_goes_to_consensus (W : World) (self : Orchestrator) (st : St) (r : Z)
    (pre : list input_ev) (x : input_ev) (rest : list input_ev) :
  1 <= r < self_rounds self ->
  stdin st = pre ++ x :: rest ->
  Z.of_nat (length pre) = r - 1 ->
  Forall (fun i => choice (py "q") i <> py "q") pre ->
  choice (py "q") x = py "q" ->
  exists evs tail,
    trace (phaseB_debate W self st).2 = trace st ++ evs /\
    marks evs
    = concat (map round_then_gate (zip (range_from_1 r) (pre ++ [x])))
        ++ [EvRound Consensus (r + 1)] ++ tail /\
    Forall (fun e => exists i, e = EvInput i) tail /\
    (forall n name q o, EvCall (ORespond n) name q o ∈ evs -> 2 <= n <= r).
Proof.
  intros Hr Hin Hlen Hpre Hx. unfold phaseB_debate. rewrite bind_run, log_run, bind_run.
  destruct (debate_rounds_abort W self x rest Hx pre 1 (Z.to_nat (self_rounds self))
              (emit (EvBanner PhaseB) st) 0)
    as (evs & Ht & Hs & Hm & Hc); [lia | lia | lia | exact Hin | exact Hpre |].
  fold (range_from_1 (self_rounds self)) in Ht, Hs.
  replace (S (length pre)) with (Z.to_nat r) in Hm by lia.
  fold (range_from_1 r) in Hm.
  replace (Z.of_nat (1 + length pre) + 1) with (r + 1) in Hm by lia.
  destruct (debate_rounds W self (range_from_1 (self_rounds self)) 0
              (emit (EvBanner PhaseB) st)) as [[actual|e] st1]; cbn [snd] in Ht, Hs.
  - rewrite bind_run, save_state_run.
    destruct (ask_emits (emit (EvSaveState (snapshot self st1)) st1))
      as (g & i & st2 & -> & Ht2).
    exists (EvBanner PhaseB :: evs ++ [EvSaveState (snapshot self st1); EvInput i]),
      [EvInput i].
    split; [|split; [|split]].
    + cbn [snd]. rewrite Ht2. cbn [trace emit]. rewrite Ht. cbn [trace emit].
      rewrite <- !app_assoc. reflexivity.
    + change (?a :: evs ++ ?b) with ([a] ++ evs ++ b).
      rewrite !marks_app, Hm. rewrite <- !app_assoc. reflexivity.
    + constructor; [by exists i | constructor].
    + intros n name q o H.
      repeat (rewrite elem_of_cons in H || rewrite elem_of_app in H).
      rewrite elem_of_nil in H. destruct_or!; try discriminate; try done.
      apply Hc in H. lia.
  - exists (EvBanner PhaseB :: evs), [].
    split; [|split; [|split]].
    + cbn [snd]. rewrite Ht. cbn [trace emit]. rewrite <- !app_assoc. reflexivity.
    + change (?a :: evs) with ([a] ++ evs).
      rewrite !marks_app, Hm. rewrite app_nil_r. reflexivity.
    + constructor.
    + intros n name q o [H|H]%elem_of_cons; [discriminate|]. apply Hc in H. lia.
Qed.

Lemma abort_goes_to_consensus_witness :
  exists evs tail,
    trace (phaseB_debate calm_world gemini_first
             (initial_state [Line []; Line (py "Q"); Line (py "s")])).2
    = trace (initial_state [Line []; Line (py "Q"); Line (py "s")]) ++ evs /\
    marks evs
    = concat (map round_then_gate (zip (range_from_1 2) ([Line []] ++ [Line (py "Q")])))
        ++ [EvRound Consensus (2 + 1)] ++ tail /\
    Forall (fun e => exists i, e = EvInput i) tail /\
    (forall n name q o, EvCall (ORespond n) name q o ∈ evs -> 2 <= n <= 2).
Proof.
  apply (abort_goes_to_consensus calm_world gemini_first
           (initial_state [Line []; Line (py "Q"); Line (py "s")]) 2
           [Line []] (Line (py "Q")) [Line (py "s")]).
  - simpl. lia.
  - reflexivity.
  - reflexivity.
  - constructor; [vm_compute; discriminate | constructor].
  - reflexivity.
Defined.

(** ** A debate of one round *)

Lemma rounds_run_app (a b : list Event) : rounds_run (a ++ b) = rounds_run a ++ rounds_run b.
Proof. apply omap_app. Qed.

Lemma rounds_run_inner (site : Origin -> Prop) (evs : list Event) :
  Forall (inner_event site) evs -> rounds_run evs = [].
Proof.
  induction 1 as [|e evs He _ IH]; [done|].
  destruct e; try (by destruct He); exact IH.
Qed.

Lemma calls_from_inner (site : Origin -> Prop) (f : Origin -> bool) (evs : list Event) :
  (forall o, site o -> f o = false) ->
  Forall (inner_event site) evs -> calls_from f evs = [].
Proof.
  intros Hf. induction 1 as [|e evs He _ IH]; [done|].
  destruct e; try (by destruct He); try exact IH.
  unfold calls_from. simpl. rewrite (Hf _ He). exact IH.
Qed.

Global Instance keeps_consensus_blind (c0 : pystr) : TraceBlind (keeps_consensus c0).
Proof. intros e st H. exact H. Qed.

Lemma critique_batch_keeps_consensus (W : World) (self : Orchestrator) (c0 : pystr) (rnd : Z) :
  steps (inv_ext (keeps_consensus c0) (inner_event (critique_site rnd)))
    (gather W (critique_do W self rnd) (self_ai self)).
Proof. steps_solve. unfold critique_do. steps_solve; done. Qed.

Lemma debate_rounds_single (W : World) (self : Orchestrator) :
  self_rounds self = 1 ->
  debate_rounds W self [1] 0 = (_round_critique W self 1;; _save_state self;; mret 1).
Proof.
  intros H. cbn [debate_rounds]. rewrite H.
  rewrite !bool_decide_eq_true_2 by done. reflexivity.
Qed.

(** C2 at one configured round.  With [debate_rounds] 1 (from the
    configuration or from [--rounds 1]) the debate phase runs round 1 as a
    critique round and nothing else: no consensus round is run, no
    synthesis is asked for, the consensus attribute keeps the value it had
    (the empty text after construction), and the phase still ends at its
    gate, whose message reports a consensus. *)
Theorem one_round_debate_has_no_consensus (W : World) (query : pystr) (deep : bool)
    (rs_name : pystr) (roles : gmap pystr RoleInfo) (ai : pydict Provider) (st : St) :
  exists g evs,
    (phaseB_debate W (mkOrchestrator query deep 1 rs_name roles ai) st).1 = Val g /\
    trace (phaseB_debate W (mkOrchestrator query deep 1 rs_name roles ai) st).2
    = trace st ++ evs /\
    rounds_run evs = [(Critique, 1)] /\
    calls_from is_synthesis evs = [] /\
    consensus (phaseB_debate W (mkOrchestrator query deep 1 rs_name roles ai) st).2
    = consensus st.
Proof.
  set (self := mkOrchestrator query deep 1 rs_name roles ai).
  destruct (phaseB_debate W self st) as [res st'] eqn:ER. cbn [fst snd].
  unfold phaseB_debate in ER. rewrite bind_run, log_run, bind_run in ER.
  change (range_from_1 (self_rounds self)) with [1] in ER.
  rewrite (debate_rounds_single W self eq_refl) in ER.
  unfold _round_critique in ER. rewrite !bind_run, log_run in ER.
  pose proof (critique_batch_keeps_consensus W self (consensus st) 1
                (emit (EvRound Critique 1) (emit (EvBanner PhaseB) st)) eq_refl)
    as (Hc & evs & E & F).
  pose proof (critique_batch_returns W self 1
                (emit (EvRound Critique 1) (emit (EvBanner PhaseB) st))) as Hr.
  destruct (gather W (critique_do W self 1) (self_ai self)
              (emit (EvRound Critique 1) (emit (EvBanner PhaseB) st)))
    as [[files|e] st1]; [|destruct (Hr e st1 eq_refl)].
  cbn [snd] in Hc, E. rewrite bind_run, save_state_run, ret_run in ER.
  rewrite bind_run, save_state_run in ER.
  match type of ER with Gate.ask ?s = _ =>
    destruct (ask_emits s) as (g & i & st2 & Ea & Ht2); rewrite Ea in ER end.
  injection ER as <- <-.
  exists g, ([EvBanner PhaseB; EvRound Critique 1] ++ evs
               ++ [EvSaveState (snapshot self st1);
                   EvSaveState (snapshot self (emit (EvSaveState (snapshot self st1)) st1));
                   EvInput i]).
  split; [done|]. split; [|split; [|split]].
  - rewrite Ht2. cbn [trace emit]. rewrite E. cbn [trace emit].
    rewrite <- !app_assoc. reflexivity.
  - rewrite !rounds_run_app, (rounds_run_inner _ _ F). reflexivity.
  - rewrite !calls_from_app, (calls_from_inner (critique_site 1) _ evs); [done| |done].
    by intros o ->.
  - destruct (stdin (emit (EvSaveState (snapshot self (emit (EvSaveState (snapshot self st1)) st1)))
                       (emit (EvSaveState (snapshot self st1)) st1))) as [|j rest] eqn:Es.
    + rewrite (ask_run_end _ Es) in Ea. injection Ea as _ <-. exact Hc.
    + rewrite (ask_run _ j rest Es) in Ea. injection Ea as _ <-. exact Hc.
Qed.

(** ** A debate that is not aborted *)

Section FullDebate.
Variables (W : World) (self : Orchestrator) (rest : list input_ev).

Lemma debate_rounds_last (rnd : Z) (more : list Z) (actual : Z) :
  rnd = self_rounds self -> rnd <> 1 ->
  debate_rounds W self (rnd :: more) actual = (_round_consensus W self rnd;; mret rnd).
Proof.
  intros Hl Hne. cbn [debate_rounds].
  rewrite (bool_decide_eq_false_2 _ Hne), (bool_decide_eq_true_2 _ Hl). reflexivity.
Qed.

Lemma debate_rounds_continue (pre : list input_ev) :
  forall (k : nat) (st : St) (actual : Z),
  (1 <= k)%nat -> (2 <= k + length pre)%nat ->
  Z.of_nat (k + length pre) = self_rounds self ->
  stdin st = pre ++ rest ->
  Forall (fun i => choice (py "q") i <> py "q") pre ->
  exists evs,
    trace (debate_rounds W self (map Z.of_nat (seq k (S (length pre)))) actual st).2
    = trace st ++ evs /\
    rounds_run evs
    = map (fun n => (round_kind n, n)) (map Z.of_nat (seq k (length pre)))
        ++ [(Consensus, self_rounds self)].
Proof.
  induction pre as [|i pre IH]; intros k st actual Hk H2 Hlast Hin Hpre; cbn [length].
  - change (seq k 1) with [k]. change (seq k 0) with (@nil nat). cbn [map].
    rewrite debate_rounds_last by (simpl in *; lia). rewrite bind_ret_state.
    destruct (round_consensus_run W self (Z.of_nat k) st) as (evs_c & _ & Htc & Fc).
    exists (EvRound Consensus (Z.of_nat k) :: evs_c). split; [exact Htc|].
    change (?a :: evs_c) with ([a] ++ evs_c).
    rewrite rounds_run_app, (rounds_run_inner _ _ Fc). simpl in Hlast.
    rewrite <- Hlast, Nat.add_0_r. reflexivity.
  - change (seq k (S (S (length pre)))) with (k :: seq (S k) (S (length pre))).
    change (seq k (S (length pre))) with (k :: seq (S k) (length pre)).
    rewrite !map_cons.
    rewrite debate_rounds_nonlast by (simpl in Hlast; lia). rewrite bind_run.
    destruct (round_batch_run W self (Z.of_nat k) st)
      as (files & evs_b & st1 & E1 & Hs1 & Ht1 & F1).
    rewrite E1, bind_run, save_state_run, bind_run.
    apply Forall_cons in Hpre as [Hi Hpre].
    rewrite (ask_round_run _ i (pre ++ rest)) by (cbn [stdin emit]; by rewrite Hs1, Hin).
    rewrite (decide_False (P := choice (py "q") i = py "q")) by exact Hi.
    cbv beta iota.
    match goal with |- context [debate_rounds W self ?l ?a ?s] =>
      destruct (IH (S k) s a) as (evs_r & Htr & Hrr) end;
      [lia | simpl in H2; lia | simpl in Hlast; rewrite <- Hlast; f_equal; lia
       | reflexivity | exact Hpre |].
    exists (EvRound (round_kind (Z.of_nat k)) (Z.of_nat k) :: evs_b
              ++ [EvSaveState (snapshot self st1); EvInput i] ++ evs_r).
    split.
    + rewrite Htr. cbn [trace emit set_stdin]. rewrite Ht1.
      rewrite <- !app_assoc. reflexivity.
    + change (?a :: evs_b ++ ?b ++ evs_r) with ([a] ++ evs_b ++ b ++ evs_r).
      rewrite !rounds_run_app, (rounds_run_inner _ _ F1), Hrr. reflexivity.
Qed.

(** With at least two rounds configured and round gates that let the debate
    go on, the rounds run are the critique round 1, the respond rounds up to
    the one before the last, and the consensus round as the last one. *)
Lemma full_debate_schedule (st : St) (pre : list input_ev) :
  2 <= self_rounds self ->
  Z.of_nat (length pre) = self_rounds self - 1 ->
  stdin st = pre ++ rest ->
  Forall (fun i => choice (py "q") i <> py "q") pre ->
  exists evs,
    trace (phaseB_debate W self st).2 = trace st ++ evs /\
    rounds_run evs
    = map (fun n => (round_kind n, n)) (range_from_1 (self_rounds self - 1))
        ++ [(Consensus, self_rounds self)].
Proof.
  intros HR Hlen Hin Hpre. unfold phaseB_debate. rewrite bind_run, log_run, bind_run.
  unfold range_from_1.
  replace (Z.to_nat (self_rounds self)) with (S (length pre)) by lia.
  replace (Z.to_nat (self_rounds self - 1)) with (length pre) by lia.
  destruct (debate_rounds_continue pre 1 (emit (EvBanner PhaseB) st) 0)
    as (evs & Ht & Hm); [lia | lia | lia | exact Hin | exact Hpre |].
  destruct (debate_rounds W self (map Z.of_nat (seq 1 (S (length pre)))) 0
              (emit (EvBanner PhaseB) st)) as [[actual|e] st1]; cbn [snd] in Ht.
  - rewrite bind_run, save_state_run.
    destruct (ask_emits (emit (EvSaveState (snapshot self st1)) st1))
      as (g & i & st2 & -> & Ht2).
    exists (EvBanner PhaseB :: evs ++ [EvSaveState (snapshot self st1); EvInput i]).
    split.
    + cbn [snd]. rewrite Ht2. cbn [trace emit]. rewrite Ht. cbn [trace emit].
      rewrite <- !app_assoc. reflexivity.
    + change (?a :: evs ++ ?b) with ([a] ++ evs ++ b).
      rewrite !rounds_run_app, Hm. cbn [rounds_run omap]. by rewrite app_nil_r.
  - exists (EvBanner PhaseB :: evs).
    split.
    + cbn [snd]. rewrite Ht. cbn [trace emit]. rewrite <- !app_assoc. reflexivity.
    + change (?a :: evs) with ([a] ++ evs).
      by rewrite !rounds_run_app, Hm.
Qed.

End FullDebate.

(** ** How a run can end *)





Section Run.
Variables (W : World) (self : Orchestrator).
Hypothesis Hactive : self_ai self <> [].


















End Run.







(** * Further properties *)

(** ** The choice of the role set *)

Lemma role_set_names_distinct :
  rs_market <> rs_technical /\ rs_market <> rs_research /\ rs_market <> rs_general /\
  rs_technical <> rs_research /\ rs_technical <> rs_general /\ rs_research <> rs_general.
Proof. repeat split; intros H; vm_compute in H; discriminate. Qed.

Lemma startswith_spec (p s : pystr) : startswith p s = true <-> exists r, s = p ++ r.
Proof.
  unfold startswith. rewrite bool_decide_eq_true. split.
  - intros H. exists (drop (length p) s). by rewrite <- H at 1; rewrite take_drop.
  - intros [r ->]. by rewrite take_app_length.
Qed.

(** [contains] is the occurrence of [w] inside [q]. *)
Lemma contains_spec (w q : pystr) :
  contains w q = true <-> exists a b, q = a ++ w ++ b.
Proof.
  induction q as [|c q IH]; simpl.
  - rewrite orb_false_r, startswith_spec. split.
    + intros [r H]. exists [], r. done.
    + intros (a & b & H). symmetry in H. apply app_eq_nil in H as [-> H].
      apply app_eq_nil in H as [-> ->]. by exists [].
  - rewrite orb_true_iff, startswith_spec, IH. split.
    + intros [[r H]|(a & b & H)].
      * exists [], r. done.
      * exists (c :: a), b. by rewrite H.
    + intros (a & b & H). destruct a as [|c' a].
      * left. by exists b.
      * right. injection H as -> ->. by exists a, b.
Qed.

Lemma detect_role_set_run (str_lower : pystr -> pystr) (query : pystr)
    (rw : list pystr) :
  detect_role_set_from
    [ (rs_market, market_words); (rs_technical, technical_words); (rs_research, rw) ]
    str_lower query
  = let m := keyword_hits market_words (str_lower query) in
    let t := keyword_hits technical_words (str_lower query) in
    let r := keyword_hits rw (str_lower query) in
    Val (if (m <? t)%nat
         then (if (t <? r)%nat then rs_research else rs_technical)
         else (if (m <? r)%nat then rs_research
               else if (0 <? m)%nat then rs_market else rs_general)).
Proof.
  pose proof role_set_names_distinct as ND. destruct_and!.
  unfold detect_role_set_from. cbn [map fst snd max_key max_from].
  generalize (keyword_hits market_words (str_lower query)) as m.
  generalize (keyword_hits technical_words (str_lower query)) as t.
  generalize (keyword_hits rw (str_lower query)) as r.
  intros r t m. cbv zeta.
  destruct (Nat.ltb_spec m t) as [Hmt|Hmt]; cbn [fst snd];
    [destruct (Nat.ltb_spec t r) as [Htr|Htr] | destruct (Nat.ltb_spec m r) as [Hmr|Hmr]];
    cbn [fst snd dict_get]; repeat case_decide; try congruence.
  all: try (destruct (Nat.ltb_spec 0 r); [done|lia]).
  all: try (destruct (Nat.ltb_spec 0 t); [done|lia]).
Qed.

Lemma lt_ltb (a b : nat) : (a <? b)%nat = true <-> (a < b)%nat.
Proof. apply Nat.ltb_lt. Qed.

(** X1.  [detect_role_set] never raises and returns one of the four role-set
    names, by the number of keywords of each set the lowered query holds:
    [market] when it has a hit and no other set has more; [technical] when
    it has more hits than [market] and no fewer than [research];
    [research] when it has more hits than both others; [general] when no
    keyword occurs at all.  On a tie the set written first in the table
    wins. *)
Theorem detect_role_set_choice (str_lower : pystr -> pystr) (query : pystr) :
  exists name,
    detect_role_set str_lower query = Val name /\
    (name = rs_market <->
     (0 < keyword_hits market_words (str_lower query)
      /\ keyword_hits technical_words (str_lower query)
         <= keyword_hits market_words (str_lower query)
      /\ keyword_hits research_words (str_lower query)
         <= keyword_hits market_words (str_lower query))%nat) /\
    (name = rs_technical <->
     (keyword_hits market_words (str_lower query)
      < keyword_hits technical_words (str_lower query)
      /\ keyword_hits research_words (str_lower query)
         <= keyword_hits technical_words (str_lower query))%nat) /\
    (name = rs_research <->
     (keyword_hits market_words (str_lower query)
      < keyword_hits research_words (str_lower query)
      /\ keyword_hits technical_words (str_lower query)
         < keyword_hits research_words (str_lower query))%nat) /\
    (name = rs_general <->
     keyword_hits market_words (str_lower query) = 0%nat
     /\ keyword_hits technical_words (str_lower query) = 0%nat
     /\ keyword_hits research_words (str_lower query) = 0%nat).
Proof.
  pose proof role_set_names_distinct as ND. destruct_and!.
  unfold detect_role_set, role_keywords. rewrite detect_role_set_run. cbv zeta.
  generalize (keyword_hits market_words (str_lower query)) as m.
  generalize (keyword_hits technical_words (str_lower query)) as t.
  generalize (keyword_hits research_words (str_lower query)) as r.
  intros r t m. eexists. split; [reflexivity|].
  destruct (Nat.ltb_spec m t); [destruct (Nat.ltb_spec t r) | destruct (Nat.ltb_spec m r);
    [|destruct (Nat.ltb_spec 0 m)]];
    repeat split; intros; destruct_and?; try congruence; try lia.
Qed.

Lemma contains_elem (w q : pystr) (c : N) : c ∈ w -> contains w q = true -> c ∈ q.
Proof.
  intros Hc H. apply contains_spec in H as (a & b & ->).
  rewrite !elem_of_app. auto.
Qed.

Lemma keyword_hits_cons (w : pystr) (ws : list pystr) (q : pystr) :
  keyword_hits (w :: ws) q
  = ((if contains w q then 1 else 0) + keyword_hits ws q)%nat.
Proof.
  unfold keyword_hits. rewrite filter_cons.
  destruct (contains w q); by case_decide.
Qed.

Lemma capital_keyword_misses (w q : pystr) (c : N) :
  c ∈ w -> (65 <= c <= 90)%N -> no_capitals q -> contains w q = false.
Proof.
  intros Hc Hr Hq. destruct (contains w q) eqn:E; [|done].
  pose proof (contains_elem w q c Hc E) as Hin.
  unfold no_capitals in Hq. rewrite Forall_forall in Hq. by destruct (Hq c Hin).
Qed.

(** X2.  The query is lowered before the keywords are looked for, and the
    keywords are not: when the lowered query holds none of the letters [A]
    to [Z], the keywords [NER], [NLP] and [ML] never count, and the role
    set chosen is the one the table without them gives. *)
Theorem capital_keywords_never_count (str_lower : pystr -> pystr) (query : pystr) :
  no_capitals (str_lower query) ->
  detect_role_set str_lower query = detect_role_set_from lowercase_keywords str_lower query.
Proof.
  intros Hq. unfold detect_role_set, role_keywords, lowercase_keywords.
  rewrite !detect_role_set_run. cbv zeta.
  assert (keyword_hits research_words (str_lower query)
          = keyword_hits [ py "모델"; py "논문"; py "알고리즘"; py "벤치마크";
                            py "model"; py "paper"; py "algorithm"; py "survey" ]
              (str_lower query)) as ->; [|done].
  unfold research_words. rewrite !keyword_hits_cons.
  rewrite (capital_keyword_misses (py "NER") _ 78%N), (capital_keyword_misses (py "NLP") _ 78%N),
    (capital_keyword_misses (py "ML") _ 77%N); try done; try lia.
  all: vm_compute; repeat constructor.
Qed.

Lemma capital_keywords_never_count_witness :
  no_capitals (lower (py "NER 모델")) /\
  detect_role_set lower (py "NER 모델")
  = detect_role_set_from lowercase_keywords lower (py "NER 모델").
Proof.
  assert (no_capitals (lower (py "NER 모델"))) as H.
  { apply (bool_decide_unpack _). vm_compute. reflexivity. }
  split; [exact H|]. exact (capital_keywords_never_count lower (py "NER 모델") H).
Defined.

(** ** The slug of the output directory *)

Lemma last_rev {A} (s : list A) : last (rev s) = head s.
Proof. destruct s as [|c s]; [done|]. simpl. by rewrite last_snoc. Qed.

Lemma head_rev {A} (s : list A) : head (rev s) = last s.
Proof. by rewrite <- (rev_involutive s) at 2; rewrite last_rev. Qed.

Lemma slug_char_dash : slug_char dash = false.
Proof. reflexivity. Qed.

Lemma sub_runs_chars (b : bool) (s : pystr) :
  Forall (fun c => slug_char c = true \/ c = dash) (sub_runs b s).
Proof.
  revert b. induction s as [|c s IH]; intros b; simpl; [constructor|].
  destruct (slug_char c) eqn:E; [constructor; auto|].
  destruct b; [apply IH|constructor; auto].
Qed.

Lemma sub_runs_head_true (s : pystr) : head (sub_runs true s) <> Some dash.
Proof.
  induction s as [|c s IH]; simpl; [done|].
  destruct (slug_char c) eqn:E; [|done].
  simpl. intros [= ->]. by rewrite slug_char_dash in E.
Qed.

Lemma sub_runs_single (b : bool) (s : pystr) : single_dashes (sub_runs b s).
Proof.
  revert b. induction s as [|c s IH]; intros b; simpl; [done|].
  destruct (slug_char c) eqn:E.
  - specialize (IH false). destruct (sub_runs false s) eqn:E2; [done|].
    split; [|done]. intros [-> _]. by rewrite slug_char_dash in E.
  - destruct b; [apply IH|].
    specialize (IH true). pose proof (sub_runs_head_true s) as Hh.
    destruct (sub_runs true s) eqn:E2; [done|].
    split; [|done]. intros [_ ->]. by apply Hh.
Qed.

Lemma single_dashes_tail (c : N) (s : pystr) : single_dashes (c :: s) -> single_dashes s.
Proof. destruct s; [done|]. by intros [_ H]. Qed.

Lemma single_dashes_take (n : nat) (s : pystr) : single_dashes s -> single_dashes (take n s).
Proof.
  revert n. induction s as [|c s IH]; intros n H; [by destruct n|].
  destruct n as [|n]; [done|]. cbn [take].
  pose proof (IH n (single_dashes_tail _ _ H)) as IH'.
  destruct s as [|d s]; [by destruct n|].
  destruct n as [|n]; [done|]. cbn [take] in *. destruct H as [H1 H2]. done.
Qed.

Lemma single_dashes_app (s t : pystr) : single_dashes (s ++ t) -> single_dashes s.
Proof.
  induction s as [|c s IH]; [done|]. intros H.
  pose proof (IH (single_dashes_tail _ _ H)) as IH'.
  destruct s as [|d s]; [done|]. simpl in *. by destruct H.
Qed.

Lemma single_dashes_rev (s : pystr) : single_dashes s -> single_dashes (rev s).
Proof.
  induction s as [|c s IH]; [done|]. intros H.
  pose proof (IH (single_dashes_tail _ _ H)) as IH'. simpl.
  destruct s as [|d s]; [done|]. destruct H as [H1 H2].
  simpl in *. revert IH'. generalize (rev s). intros l. clear -H1.
  induction l as [|x l IHl]; simpl.
  - intros _. split; [|done]. tauto.
  - intros H. pose proof (IHl (single_dashes_tail _ _ H)) as IH'.
    destruct l; simpl in *; tauto.
Qed.

Lemma lstrip_chars_suffix (chars : N -> bool) (s : pystr) :
  exists p, s = p ++ lstrip_chars chars s /\ Forall (fun c => chars c = true) p.
Proof.
  induction s as [|c s (p & E & F)]; simpl; [by exists []|].
  destruct (chars c) eqn:Ec; [|by exists []].
  exists (c :: p). split; [by rewrite E at 1|by constructor].
Qed.

Lemma lstrip_chars_head (chars : N -> bool) (s : pystr) (c : N) :
  head (lstrip_chars chars s) = Some c -> chars c = false.
Proof.
  induction s as [|x s IH]; simpl; [done|].
  destruct (chars x) eqn:E; [done|]. by intros [= <-].
Qed.

Lemma lstrip_chars_id (chars : N -> bool) (s : pystr) :
  (forall c, head s = Some c -> chars c = false) -> lstrip_chars chars s = s.
Proof. destruct s as [|c s]; [done|]. intros H. simpl. by rewrite (H c). Qed.

Lemma single_dashes_suffix (p s : pystr) : single_dashes (p ++ s) -> single_dashes s.
Proof. induction p as [|c p IH]; [done|]. intros H. apply IH. by eapply single_dashes_tail. Qed.

(** What [strip_chars] leaves is a segment of the text that neither starts
    nor ends with one of the characters. *)
Lemma strip_chars_spec (chars : N -> bool) (s : pystr) :
  exists p q, s = p ++ strip_chars chars s ++ q /\
    (forall c, head (strip_chars chars s) = Some c -> chars c = false) /\
    (forall c, last (strip_chars chars s) = Some c -> chars c = false).
Proof.
  unfold strip_chars.
  destruct (lstrip_chars_suffix chars s) as (p & E1 & F1).
  destruct (lstrip_chars_suffix chars (rev (lstrip_chars chars s))) as (q & E2 & F2).
  exists p, (rev q). split; [|split].
  - rewrite E1 at 1. f_equal. rewrite <- rev_app_distr, <- E2. by rewrite rev_involutive.
  - intros c Hc. rewrite head_rev in Hc.
    set (t := lstrip_chars chars (rev (lstrip_chars chars s))) in *.
    assert (last (rev (lstrip_chars chars s)) = Some c) as HL.
    { rewrite E2, last_app, Hc. done. }
    rewrite last_rev in HL. by apply lstrip_chars_head in HL.
  - intros c Hc. rewrite last_rev in Hc. by apply lstrip_chars_head in Hc.
Qed.

Lemma eqb_dash (c : N) : N.eqb dash c = false <-> c <> dash.
Proof. rewrite N.eqb_neq. split; intros H E; by apply H. Qed.

Lemma slug_segment (query : pystr) :
  exists p q, take 30 (sub_runs false query) = p ++ slug query ++ q /\
    head (slug query) <> Some dash /\ last (slug query) <> Some dash.
Proof.
  unfold slug.
  destruct (strip_chars_spec (N.eqb dash) (take 30 (sub_runs false query)))
    as (p & q & E & Hh & Hl).
  exists p, q. split; [exact E|]. split.
  - intros H. apply Hh in H. by apply eqb_dash in H.
  - intros H. apply Hl in H. by apply eqb_dash in H.
Qed.

(** X3.  The slug of the output directory's name has at most 30
    characters; it is made of Hangul syllables, ASCII letters and digits in
    groups joined by single dashes, with no dash at either end; so it holds
    no slash, no backslash, no dot and no NUL, whatever the query is. *)
Theorem slug_is_a_safe_name (query : pystr) :
  (length (slug query) <= 30)%nat /\
  slug_shaped (slug query) /\
  (forall c, c ∈ slug query -> c <> 47%N /\ c <> 92%N /\ c <> 46%N /\ c <> 0%N).
Proof.
  destruct (slug_segment query) as (p & q & E & Hh & Hl).
  assert (Forall (fun c => slug_char c = true \/ c = dash) (slug query)) as HF.
  { pose proof (sub_runs_chars false query) as F.
    apply (Forall_take _ 30%nat) in F. rewrite E in F.
    apply Forall_app in F as [_ F]. by apply Forall_app in F as [F _]. }
  split; [|split; [split; [exact HF|split; [|done]]|]].
  - assert (length (take 30 (sub_runs false query)) <= 30)%nat as HL
      by (rewrite length_take; lia).
    rewrite E, !length_app in HL. lia.
  - pose proof (sub_runs_single false query) as S.
    apply (single_dashes_take 30%nat) in S. rewrite E in S.
    apply single_dashes_suffix in S. by apply single_dashes_app in S.
  - intros c Hc. rewrite Forall_forall in HF.
    destruct (HF c Hc) as [H| ->]; [|by vm_compute].
    repeat split; intros ->; by vm_compute in H.
Qed.

Lemma sub_runs_shaped (b : bool) (s : pystr) :
  Forall (fun c => slug_char c = true \/ c = dash) s -> single_dashes s ->
  (b = true -> head s <> Some dash) -> sub_runs b s = s.
Proof.
  revert b. induction s as [|c s IH]; intros b HF HS Hb; [done|].
  apply Forall_cons in HF as [Hc HF]. pose proof (single_dashes_tail _ _ HS) as HS'.
  simpl. destruct (slug_char c) eqn:E.
  - f_equal. by apply IH.
  - destruct Hc as [Hc| ->]; [done|].
    destruct b; [by destruct Hb|].
    f_equal. apply IH; [done..|]. intros _.
    destruct s as [|d s]; [done|]. simpl in *. intros [= ->]. tauto.
Qed.

(** X4.  A query that already has the shape of a slug (groups of Hangul
    syllables, ASCII letters and digits joined by single dashes, no dash at
    either end) and at most 30 characters is its own slug. *)
Theorem slug_keeps_a_clean_name (s : pystr) :
  slug_shaped s -> (length s <= 30)%nat -> slug s = s.
Proof.
  intros (HF & HS & Hh & Hl) Hlen. unfold slug.
  rewrite sub_runs_shaped by done. rewrite take_ge by done.
  unfold strip_chars.
  rewrite (lstrip_chars_id _ s).
  2:{ intros c Hc. apply eqb_dash. intros ->. done. }
  rewrite (lstrip_chars_id _ (rev s)).
  2:{ intros c Hc. rewrite head_rev in Hc. apply eqb_dash. intros ->. done. }
  apply rev_involutive.
Qed.

Lemma slug_keeps_a_clean_name_witness :
  slug_shaped (py "Rust-vs-Go") /\ (length (py "Rust-vs-Go") <= 30)%nat /\
  slug (py "Rust-vs-Go") = py "Rust-vs-Go".
Proof.
  assert (slug_shaped (py "Rust-vs-Go")) as H1.
  { vm_compute. repeat split; try (repeat constructor; fail); try discriminate;
      try (intros [? ?]; discriminate). }
  assert (length (py "Rust-vs-Go") <= 30)%nat as H2 by (vm_compute; lia).
  split; [exact H1|]. split; [exact H2|].
  exact (slug_keeps_a_clean_name (py "Rust-vs-Go") H1 H2).
Defined.

(** ** The providers of a session *)

Global Instance activated_dec (item : pystr * ProviderConfig) : Decision (activated item).
Proof. unfold activated. apply _. Defined.

Lemma dict_set_elem {V} (k : pystr) (v : V) (d : pydict V) (kv : pystr * V) :
  kv ∈ dict_set k v d -> kv = (k, v) \/ kv ∈ d.
Proof.
  induction d as [|[k' v'] d IH]; simpl.
  - rewrite list_elem_of_singleton. auto.
  - case_decide.
    + rewrite !elem_of_cons. tauto.
    + rewrite !elem_of_cons. intros [H1|H1]; [auto|]. destruct (IH H1); auto.
Qed.

(** The provider [__init__] builds from an active item: the role of the
    role set replaces the configured one. *)
Lemma init_providers_elem (env : gmap pystr pystr) (roles : gmap pystr RoleInfo)
    (items : pydict ProviderConfig) (ai : pydict Provider) (name : pystr) (prov : Provider) :
  (name, prov) ∈ init_providers env roles items ai ->
  (name, prov) ∈ ai \/
  exists pcfg cls, (name, pcfg) ∈ items /\ provider_class name = Some cls /\
    kind prov = cls /\
    role prov = match roles !! name with
                | Some ri => _role_prompt ri
                | None => default (py "연구 전문가") (cfg_role pcfg)
                end.
Proof.
  revert ai. induction items as [|[n pcfg] items IH]; intros ai; cbn [init_providers]; [auto|].
  assert (forall ai', (name, prov) ∈ init_providers env roles items ai' ->
            (name, prov) ∈ ai' \/
            exists pcfg' cls, (name, pcfg') ∈ (n, pcfg) :: items /\
              provider_class name = Some cls /\ kind prov = cls /\
              role prov = match roles !! name with
                          | Some ri => _role_prompt ri
                          | None => default (py "연구 전문가") (cfg_role pcfg')
                          end) as IH'.
  { intros ai' H. destruct (IH ai' H) as [H1|(p & c & H1 & H2)]; [auto|].
    right. exists p, c. split; [by apply elem_of_cons; right|exact H2]. }
  destruct (negb _); [apply IH'|].
  unfold create_provider. destruct (provider_class n) as [cls|] eqn:Ecls; [|apply IH'].
  intros H. destruct (IH' _ H) as [H1|H1]; [|auto].
  apply dict_set_elem in H1 as [[= -> ->]|H1]; [|auto].
  right. exists pcfg, cls. split; [apply elem_of_cons; auto|]. split; [done|].
  split; [done|]. unfold new_provider. cbn [role]. by destruct (roles !! n).
Qed.

Lemma provider_class_names (name : pystr) (cls : ProviderKind) :
  provider_class name = Some cls ->
  name = py "claude" \/ name = py "gemini" \/ name = py "gpt".
Proof. unfold provider_class. repeat case_decide; auto. done. Qed.

Lemma role_sets_cover (roles : gmap pystr RoleInfo) (name : pystr) (cls : ProviderKind) :
  roles ∈ dict_values ROLE_SETS -> provider_class name = Some cls -> is_Some (roles !! name).
Proof.
  intros Hr Hn. unfold dict_values, ROLE_SETS in Hr. cbn [fmap list_fmap snd] in Hr.
  rewrite !elem_of_cons in Hr. rewrite elem_of_nil in Hr.
  apply provider_class_names in Hn.
  destruct Hr as [->|[->|[->|[->|[]]]]]; destruct Hn as [->|[->| ->]];
    apply (bool_decide_unpack _); vm_compute; reflexivity.
Qed.

Lemma role_sets_get (rs_name : pystr) :
  default general_roles (dict_get rs_name ROLE_SETS) ∈ dict_values ROLE_SETS.
Proof.
  unfold ROLE_SETS, dict_values. cbn [dict_get fmap list_fmap snd].
  case_decide; [apply list_elem_of_here|].
  case_decide; [apply list_elem_of_further, list_elem_of_here|].
  case_decide; [do 2 apply list_elem_of_further; apply list_elem_of_here|].
  case_decide; do 3 apply list_elem_of_further; apply list_elem_of_here.
Qed.

Lemma Orchestrator_new_inv (str_lower : pystr -> pystr) (env : gmap pystr pystr)
    (config : Config) (query : pystr) (deep : bool) (role_set : option pystr)
    (orc : Orchestrator) :
  Orchestrator_new str_lower env config query deep role_set = Val orc ->
  exists rs_name,
    (match role_set with
     | Some (c :: r) => Val (c :: r)
     | _ => detect_role_set str_lower query
     end) = Val rs_name /\
    self_rs_name orc = rs_name /\
    self_roles orc = default general_roles (dict_get rs_name ROLE_SETS) /\
    self_ai orc
    = init_providers env (self_roles orc) (default [] (cfg_providers config)) [].
Proof.
  unfold Orchestrator_new.
  destruct (match role_set with Some (c :: r) => Val (c :: r) | _ => _ end) as [rs|e];
    [|done].
  unfold Orchestrator_init.
  destruct (init_providers _ _ _ _) as [|np ai] eqn:E; [done|].
  intros [= <-]. exists rs. cbn [self_rs_name self_roles self_ai].
  repeat split. symmetry. exact E.
Qed.

(** X5.  In an orchestrator that [__init__] has built, every active
    provider has an entry in the role set in use, and its role is the role
    prompt made from that entry, which is also where [_rname] takes its
    name from: the role of the provider's own configuration and the
    provider's default role are never used. *)
Theorem providers_take_the_role_of_the_set (str_lower : pystr -> pystr)
    (env : gmap pystr pystr) (config : Config) (query : pystr) (deep : bool)
    (role_set : option pystr) (orc : Orchestrator) :
  Orchestrator_new str_lower env config query deep role_set = Val orc ->
  forall name prov, (name, prov) ∈ self_ai orc ->
    exists ri, self_roles orc !! name = Some ri /\
      role prov = _role_prompt ri /\ _rname orc name = ri_name ri.
Proof.
  intros H name prov Hin.
  apply Orchestrator_new_inv in H as (rs & _ & _ & Hroles & Hai).
  rewrite Hai in Hin. apply init_providers_elem in Hin as [Hin|Hin].
  { by apply elem_of_nil in Hin. }
  destruct Hin as (pcfg & cls & _ & Hcls & _ & Hrole).
  destruct (role_sets_cover (self_roles orc) name cls) as [ri Hri]; [|done|].
  { rewrite Hroles. apply role_sets_get. }
  exists ri. rewrite Hri in Hrole. unfold _rname. by rewrite Hri.
Qed.

Lemma providers_take_the_role_of_the_set_witness :
  exists orc,
    Orchestrator_new lower ∅ two_enabled (py "시장 분석") false None = Val orc /\
    forall name prov, (name, prov) ∈ self_ai orc ->
      exists ri, self_roles orc !! name = Some ri /\
        role prov = _role_prompt ri /\ _rname orc name = ri_name ri.
Proof.
  destruct (Orchestrator_new lower ∅ two_enabled (py "시장 분석") false None)
    as [orc|e] eqn:E.
  - exists orc. split; [reflexivity|].
    exact (providers_take_the_role_of_the_set lower ∅ two_enabled (py "시장 분석")
             false None orc E).
  - exfalso. vm_compute in E. discriminate.
Defined.

(** X6.  The roles of an orchestrator that [__init__] has built are one of
    the four tables of [ROLE_SETS].  When no role set is passed (or the
    empty name is), the detected name is a key of [ROLE_SETS] and the roles
    are its table; a name that is no key gives the roles of [general],
    while the name is kept as passed. *)
Theorem detected_role_set_exists (str_lower : pystr -> pystr) (env : gmap pystr pystr)
    (config : Config) (query : pystr) (deep : bool) (role_set : option pystr)
    (orc : Orchestrator) :
  Orchestrator_new str_lower env config query deep role_set = Val orc ->
  self_roles orc ∈ dict_values ROLE_SETS /\
  (role_set = None \/ role_set = Some [] ->
   dict_get (self_rs_name orc) ROLE_SETS = Some (self_roles orc)) /\
  (dict_get (self_rs_name orc) ROLE_SETS = None -> self_roles orc = general_roles).
Proof.
  intros H. apply Orchestrator_new_inv in H as (rs & Hrs & Hname & Hroles & _).
  split; [rewrite Hroles; apply role_sets_get|]. split.
  - intros Hnone. rewrite Hname, Hroles.
    assert (detect_role_set str_lower query = Val rs) as Hd
      by (by destruct Hnone as [-> | ->]).
    unfold detect_role_set, role_keywords in Hd. rewrite detect_role_set_run in Hd.
    cbv zeta in Hd. pose proof role_set_names_distinct as ND. destruct_and!.
    unfold ROLE_SETS. cbn [dict_get].
    repeat match type of Hd with context [if ?b then _ else _] => destruct b end;
      injection Hd as <-; repeat case_decide; try congruence; reflexivity.
  - intros Hn. by rewrite Hroles, <- Hname, Hn.
Qed.

Lemma detected_role_set_exists_witness :
  exists orc,
    Orchestrator_new lower ∅ two_enabled (py "시장 분석") false None = Val orc /\
    self_roles orc ∈ dict_values ROLE_SETS /\
    dict_get (self_rs_name orc) ROLE_SETS = Some (self_roles orc).
Proof.
  destruct (Orchestrator_new lower ∅ two_enabled (py "시장 분석") false None)
    as [orc|e] eqn:E.
  - exists orc. split; [reflexivity|].
    destruct (detected_role_set_exists lower ∅ two_enabled (py "시장 분석") false None orc E)
      as (H1 & H2 & _).
    split; [exact H1|]. apply H2. left. reflexivity.
  - exfalso. vm_compute in E. discriminate.
Defined.

Lemma init_providers_keys (env : gmap pystr pystr) (roles : gmap pystr RoleInfo)
    (items : pydict ProviderConfig) (ai : pydict Provider) :
  NoDup (dict_keys ai ++ dict_keys items) ->
  dict_keys (init_providers env roles items ai)
  = dict_keys ai ++ dict_keys (filter activated items).
Proof.
  unfold dict_keys. revert ai.
  induction items as [|[n pcfg] items IH]; intros ai ND; cbn [init_providers].
  { by rewrite filter_nil, app_nil_r. }
  assert (NoDup (ai.*1 ++ items.*1) /\ n ∉ ai.*1) as [ND' Hn].
  { rewrite fmap_cons in ND. cbn [fst] in ND.
    apply NoDup_app in ND as (N1 & N2 & N3). apply NoDup_cons in N3 as [N3 N4].
    split.
    - apply NoDup_app. split; [done|]. split; [|done].
      intros x Hx Hx'. apply (N2 x Hx). by apply elem_of_cons; right.
    - intros Hx. apply (N2 n Hx). by apply elem_of_cons; left. }
  rewrite filter_cons. destruct (decide (activated (n, pcfg))) as [Ha|Ha].
  - destruct Ha as [Hen [cls Hcls]]. cbn [fst snd] in Hen, Hcls.
    rewrite Hen. cbn [negb]. unfold create_provider. rewrite Hcls.
    rewrite dict_set_fresh by done. rewrite IH.
    + rewrite fmap_app, fmap_cons. cbn [fmap list_fmap fst]. by rewrite <- app_assoc.
    + rewrite fmap_app. cbn [fmap list_fmap fst]. rewrite <- app_assoc. cbn [app].
      rewrite fmap_cons in ND. exact ND.
  - destruct (default true (cfg_enabled pcfg)) eqn:Een; cbn [negb]; [|by apply IH].
    unfold create_provider. destruct (provider_class n) as [cls|] eqn:Ecls; [|by apply IH].
    destruct Ha. split; [done|by exists cls].
Qed.

(** X7.  Over a provider configuration with distinct names, [__init__]
    makes active exactly the items that are not disabled and whose name the
    factory knows, in the order of the configuration; it raises, with the
    message about no active provider, exactly when there is no such item. *)
Theorem active_providers_in_config_order (env : gmap pystr pystr) (config : Config)
    (query : pystr) (deep : bool) (rs_name : pystr) (roles : gmap pystr RoleInfo) :
  NoDup (dict_keys (default [] (cfg_providers config))) ->
  match Orchestrator_init env config query deep rs_name roles with
  | Val orc =>
    dict_keys (self_ai orc)
    = dict_keys (filter activated (default [] (cfg_providers config))) /\
    self_ai orc <> []
  | Exn e =>
    e = no_provider_error /\ filter activated (default [] (cfg_providers config)) = []
  end.
Proof.
  intros ND.
  pose proof (init_providers_keys env roles (default [] (cfg_providers config)) [] ND) as HK.
  unfold Orchestrator_init.
  destruct (init_providers env roles (default [] (cfg_providers config)) [])
    as [|np ai] eqn:E.
  - split; [done|]. cbn in HK. symmetry in HK. unfold dict_keys in HK.
    by apply fmap_nil_inv in HK.
  - cbn [self_ai]. split; [exact HK|done].
Qed.

Lemma active_providers_in_config_order_witness :
  NoDup (dict_keys (default [] (cfg_providers two_enabled))) /\
  match Orchestrator_init ∅ two_enabled [] false rs_general general_roles with
  | Val orc =>
    dict_keys (self_ai orc)
    = dict_keys (filter activated (default [] (cfg_providers two_enabled))) /\
    self_ai orc <> []
  | Exn e =>
    e = no_provider_error /\ filter activated (default [] (cfg_providers two_enabled)) = []
  end.
Proof.
  assert (NoDup (dict_keys (default [] (cfg_providers two_enabled)))) as H.
  { apply (bool_decide_unpack _). vm_compute. reflexivity. }
  split; [exact H|].
  exact (active_providers_in_config_order ∅ two_enabled [] false rs_general general_roles H).
Defined.

(** ** The fallback of a query *)

(** X8.  One [query_with_fallback] makes one attempt or two and changes
    nothing but the trace: the primary path alone when it answers, and then
    the result is its answer; the primary path and then the command-line
    tool when it raises, and then the result is what the tool gives,
    answer or exception.  Without a credential the primary path is the
    command-line tool itself, so a failing tool is run twice.  Each attempt
    is what the world answers at that point of the trace. *)
Theorem fallback_runs (W : World) (p : Provider) (prompt : Prompt) (deep : bool) (st : St) :
  exists evs,
    trace (query_with_fallback W p prompt deep st).2 = trace st ++ evs /\
    session (query_with_fallback W p prompt deep st).2 = session st /\
    stdin (query_with_fallback W p prompt deep st).2 = stdin st /\
    fallback_attempts p prompt deep evs (query_with_fallback W p prompt deep st).1 /\
    match evs with
    | [e1] =>
      e1 = (if decide (api_key p = [])
            then EvCli (kind p) prompt (cli_world W (length (trace st)) (kind p) prompt)
            else EvApi (kind p) prompt deep
                   (api_world W (length (trace st)) (kind p) prompt deep))
    | [e1; e2] =>
      e1 = (if decide (api_key p = [])
            then EvCli (kind p) prompt (cli_world W (length (trace st)) (kind p) prompt)
            else EvApi (kind p) prompt deep
                   (api_world W (length (trace st)) (kind p) prompt deep)) /\
      e2 = EvCli (kind p) prompt (cli_world W (S (length (trace st))) (kind p) prompt)
    | _ => False
    end.
Proof.
  unfold query_with_fallback, try_except, query, fallback_attempts.
  destruct (decide (api_key p = [])) as [Hk|Hk].
  - unfold _cli_fallback.
    destruct (cli_world W (length (trace st)) (kind p) prompt) as [a|e] eqn:E1; cbn.
    + exists [EvCli (kind p) prompt (Ok a)].
      split; [done|]. split; [done|]. split; [done|]. split; [|done].
      right; right; left. split; [done|]. by exists a.
    + rewrite length_app. cbn.
      replace (length (trace st) + 1)%nat with (S (length (trace st))) by lia.
      eexists [_; _]. rewrite <- app_assoc. cbn.
      split; [done|]. split; [done|]. split; [done|]. split; [|done].
      do 3 right. split; [done|]. eexists _, _. done.
  - unfold api_call, _cli_fallback.
    destruct (api_world W (length (trace st)) (kind p) prompt deep) as [a|e] eqn:E1; cbn.
    + exists [EvApi (kind p) prompt deep (Ok a)].
      split; [done|]. split; [done|]. split; [done|]. split; [|done].
      left. split; [done|]. by exists a.
    + rewrite length_app. cbn.
      replace (length (trace st) + 1)%nat with (S (length (trace st))) by lia.
      eexists [_; _]. rewrite <- app_assoc. cbn.
      split; [done|]. split; [done|]. split; [done|]. split; [|done].
      right; left. split; [done|]. eexists _, _. done.
Qed.

Lemma resolve_key_wrapped (env : gmap pystr pystr) (NAME : pystr) :
  _resolve_key env (py "${" ++ NAME ++ py "}") = default [] (env !! NAME).
Proof.
  unfold _resolve_key.
  assert (E1 : startswith (py "${") (py "${" ++ NAME ++ py "}") = true)
    by apply startswith_app.
  assert (E2 : endswith (py "}") (py "${" ++ NAME ++ py "}") = true).
  { replace (py "${" ++ NAME ++ py "}") with ((py "${" ++ NAME) ++ py "}").
    - apply endswith_app.
    - symmetry. apply app_assoc. }
  rewrite E1, E2. cbn [andb].
  change (slice_between 2 1 (py "${" ++ NAME ++ py "}"))
    with (slice_between (length (py "${")) (length (py "}")) (py "${" ++ NAME ++ py "}")).
  rewrite slice_between_app. reflexivity.
Qed.

(** X9.  A credential configured as [${NAME}] whose variable is set gives
    the provider the value of the variable as it is; when that value is not
    empty, [query] is the call of the provider's API, and the first attempt
    of [query_with_fallback] is that call. *)
Theorem set_key_reaches_the_api (W : World) (env : gmap pystr pystr)
    (name NAME v : pystr) (config : ProviderConfig) (cls : ProviderKind) :
  provider_class name = Some cls ->
  cfg_api_key config = Some (py "${" ++ NAME ++ py "}") ->
  env !! NAME = Some v ->
  exists p,
    create_provider env name config = Val p /\ kind p = cls /\ api_key p = v /\
    (v <> [] ->
     forall prompt deep st,
       query W p prompt deep st = api_call W p prompt deep st /\
       exists more,
         trace (query_with_fallback W p prompt deep st).2
         = trace st
             ++ EvApi cls prompt deep (api_world W (length (trace st)) cls prompt deep)
             :: more).
Proof.
  intros Hcls Hkey Hset. unfold create_provider. rewrite Hcls.
  eexists. split; [reflexivity|]. split; [reflexivity|].
  assert (api_key (new_provider env cls config) = v) as Hv.
  { unfold new_provider. simpl. rewrite Hkey. simpl.
    etrans; [apply resolve_key_wrapped|]. by rewrite Hset. }
  split; [exact Hv|]. intros Hne prompt deep st.
  assert (query W (new_provider env cls config) prompt deep st
          = api_call W (new_provider env cls config) prompt deep st) as Hq.
  { unfold query. rewrite decide_False; [done|]. by rewrite Hv. }
  split; [exact Hq|].
  unfold query_with_fallback, try_except. rewrite Hq. unfold api_call. cbn [kind new_provider].
  destruct (api_world W (length (trace st)) cls prompt deep) as [a|e]; cbn.
  - by exists [].
  - eexists [_]. by rewrite <- app_assoc.
Qed.

Lemma set_key_reaches_the_api_witness :
  exists p,
    create_provider {[ py "GOOGLE_API_KEY" := py "${NOT_EXPANDED}" ]} (py "gemini")
      (mkProviderConfig None None (Some (py "${" ++ py "GOOGLE_API_KEY" ++ py "}")))
    = Val p /\ kind p = Gemini /\ api_key p = py "${NOT_EXPANDED}".
Proof.
  assert (H1 : provider_class (py "gemini") = Some Gemini) by (vm_compute; reflexivity).
  assert (H3 : ({[ py "GOOGLE_API_KEY" := py "${NOT_EXPANDED}" ]} : gmap pystr pystr)
                 !! py "GOOGLE_API_KEY" = Some (py "${NOT_EXPANDED}"))
    by apply lookup_singleton_eq.
  destruct (set_key_reaches_the_api api_up _ (py "gemini") (py "GOOGLE_API_KEY")
              (py "${NOT_EXPANDED}")
              (mkProviderConfig None None (Some (py "${" ++ py "GOOGLE_API_KEY" ++ py "}")))
              Gemini H1 eq_refl H3) as (p & Hp & Hk & Hv & _).
  exists p. exact (conj Hp (conj Hk Hv)).
Defined.

(** ** The command line of the fallback *)

Lemma shell_escape_cons (c : N) (prompt : pystr) :
  shell_escape (c :: prompt)
  = (if (c =? quote)%N then [quote; backslash; quote; quote] else [c])
      ++ shell_escape prompt.
Proof. reflexivity. Qed.

Lemma sh_split_escaped (prompt cur rest : pystr) :
  sh_split InQuote cur (shell_escape prompt ++ rest)
  = sh_split InQuote (cur ++ prompt) rest.
Proof.
  revert cur. induction prompt as [|c prompt IH]; intros cur.
  - by rewrite app_nil_r.
  - rewrite shell_escape_cons, <- app_assoc.
    destruct (N.eqb_spec c quote) as [->|Hc].
    + cbn [app sh_split]. unfold quote at 1 2 3 4 5 6 7, backslash.
      cbn [N.eqb Pos.eqb]. rewrite IH. by rewrite <- app_assoc.
    + cbn [app sh_split]. rewrite (proj2 (N.eqb_neq c quote) Hc).
      rewrite IH. by rewrite <- app_assoc.
Qed.

Lemma sh_plain_ordinary (c : N) :
  sh_plain c = true ->
  (c =? quote)%N = false /\ (c =? backslash)%N = false /\
  ((c =? 32) || (c =? 9))%N = false.
Proof.
  unfold sh_plain, quote, backslash. intros H.
  rewrite !orb_true_iff, !andb_true_iff, !N.leb_le, !N.eqb_eq in H.
  rewrite orb_false_iff, !N.eqb_neq. lia.
Qed.

Lemma sh_split_word (w cur r : pystr) (mode : sh_mode) :
  Forall (fun c => sh_plain c = true) w -> w <> [] -> mode <> InQuote ->
  sh_split mode cur (w ++ r) = sh_split InWord (cur ++ w) r.
Proof.
  revert cur mode. induction w as [|c w IH]; intros cur mode HF Hne Hm; [done|].
  apply Forall_cons in HF as [Hc HF].
  destruct (sh_plain_ordinary c Hc) as (E1 & E2 & E3).
  assert (sh_split mode cur ((c :: w) ++ r) = sh_split InWord (cur ++ [c]) (w ++ r)) as ->.
  { cbn [app sh_split]. rewrite E1, E2, E3, Hc. by destruct mode. }
  destruct w as [|d w].
  - done.
  - rewrite IH by done. by rewrite <- app_assoc.
Qed.

Lemma sh_split_blank (cur r : pystr) :
  sh_split InWord cur (32%N :: r) = cons cur <$> sh_split Between [] r.
Proof. reflexivity. Qed.

Lemma sh_split_open (cur r : pystr) (mode : sh_mode) :
  mode <> InQuote -> sh_split mode cur (quote :: r) = sh_split InQuote cur r.
Proof. intros H. by destruct mode. Qed.

Lemma sh_split_close (cur : pystr) : sh_split InQuote cur [quote] = Some [cur].
Proof. reflexivity. Qed.

Lemma cli_tool_text (k : ProviderKind) :
  exists a b,
    cli_argv k = [a; b] /\ cli_tool k ++ py " '" = a ++ 32%N :: b ++ [32%N; quote] /\
    Forall (fun c => sh_plain c = true) a /\ a <> [] /\
    Forall (fun c => sh_plain c = true) b /\ b <> [].
Proof.
  destruct k; eexists _, _; (split; [reflexivity|]); vm_compute;
    (split; [reflexivity|]); repeat split; try discriminate;
    repeat (apply Forall_cons; split; [reflexivity|]); apply Forall_nil; exact I.
Qed.

(** X10.  The command line of the fallback, read by a POSIX shell, is
    exactly the tool, its flag and the prompt as one word, unchanged,
    whatever characters the prompt holds: single quotes, blanks, dollars or
    backslashes in a prompt never end the word or reach the shell. *)
Theorem cli_command_words (k : ProviderKind) (prompt : pystr) :
  sh_words (cli_command k prompt) = Some (cli_argv k ++ [prompt]).
Proof.
  unfold sh_words, cli_command.
  destruct (cli_tool_text k) as (a & b & -> & E & Fa & Na & Fb & Nb).
  rewrite (app_assoc (cli_tool k)), E.
  rewrite <- !app_assoc. rewrite sh_split_word by done.
  cbn [app]. rewrite sh_split_blank.
  rewrite <- app_assoc. rewrite sh_split_word by done.
  cbn [app]. rewrite sh_split_blank.
  rewrite sh_split_open by done.
  rewrite sh_split_escaped.
  change (py "'") with [quote]. rewrite sh_split_close. reflexivity.
Qed.

(** ** The polling of Gemini's deep research *)

Lemma poll_pending (get : nat -> Interaction) (m : nat) :
  forall (j n fuel : nat),
    (j + m <= 120)%nat ->
    (forall i, (i < m)%nat -> get (n + i)%nat = IxPending) ->
    poll get (m + fuel) n (15 * Z.of_nat j)
    = match poll get fuel (n + m) (15 * Z.of_nat (j + m)) with
      | None => None
      | Some (r, evs) => Some (r, pending_events j m ++ evs)
      end.
Proof.
  induction m as [|m IH]; intros j n fuel Hj Hp.
  - rewrite !Nat.add_0_r. cbn [Nat.add pending_events app].
    by destruct (poll get fuel n _) as [[r evs]|].
  - cbn [Nat.add poll].
    assert ((15 * Z.of_nat j <? max_wait) = true) as ->
      by (apply Z.ltb_lt; unfold max_wait; lia).
    rewrite <- (Nat.add_0_r n) at 1. rewrite (Hp 0%nat) by lia. cbv zeta.
    replace (15 * Z.of_nat j + 15) with (15 * Z.of_nat (S j)) by lia.
    rewrite (IH (S j) (S n) fuel) by (try lia; intros i Hi;
      replace (S n + i)%nat with (n + S i)%nat by lia; apply Hp; lia).
    replace (S n + m)%nat with (n + S m)%nat by lia.
    replace (S j + m)%nat with (j + S m)%nat by lia.
    destruct (poll get fuel (n + S m) _) as [[r evs]|]; [|done].
    cbn [pending_events app]. by rewrite <- app_assoc.
Qed.

Lemma gets_app (a b : list PollEvent) : gets (a ++ b) = (gets a + gets b)%nat.
Proof. unfold gets. by rewrite filter_app, length_app. Qed.

Lemma gets_one : gets [PollGet] = 1%nat.
Proof. unfold gets. rewrite filter_cons, decide_True by done. done. Qed.

Lemma slept_app (a b : list PollEvent) : slept (a ++ b) = slept a + slept b.
Proof.
  unfold slept. induction a as [|e a IH]; [done|]. cbn [app foldr].
  destruct e; lia.
Qed.

Lemma progress_app (a b : list PollEvent) : progress (a ++ b) = progress a ++ progress b.
Proof. unfold progress. apply omap_app. Qed.

Lemma pending_events_gets (j m : nat) : gets (pending_events j m) = m.
Proof.
  revert j. induction m as [|m IH]; intros j; [done|].
  cbn [pending_events]. change (PollGet :: PollSleep 15 :: ?l) with ([PollGet; PollSleep 15] ++ l).
  rewrite !gets_app, IH. by case_bool_decide.
Qed.

Lemma pending_events_slept (j m : nat) : slept (pending_events j m) = 15 * Z.of_nat m.
Proof.
  revert j. induction m as [|m IH]; intros j; [done|].
  cbn [pending_events]. change (PollGet :: PollSleep 15 :: ?l) with ([PollGet; PollSleep 15] ++ l).
  rewrite !slept_app, IH. case_bool_decide; cbn; lia.
Qed.

Lemma pending_events_progress (j m : nat) :
  Forall (fun t => t mod 60 = 0 /\ 15 * Z.of_nat j < t <= 15 * Z.of_nat (j + m))
    (progress (pending_events j m)).
Proof.
  revert j. induction m as [|m IH]; intros j; [constructor|].
  cbn [pending_events]. change (PollGet :: PollSleep 15 :: ?l) with ([PollGet; PollSleep 15] ++ l).
  rewrite !progress_app. apply Forall_app. split; [constructor|].
  apply Forall_app. split.
  - case_bool_decide; [|constructor]. repeat constructor; [done|lia..].
  - eapply Forall_impl; [apply IH|]. cbn beta. intros t. lia.
Qed.

Lemma poll_expired (get : nat -> Interaction) (fuel n : nat) (elapsed : Z) :
  max_wait <= elapsed ->
  poll get fuel n elapsed = Some (Exn (py "Gemini Deep Research 타임아웃 (30분)"), []).
Proof.
  intros H. assert ((elapsed <? max_wait) = false) as E by (apply Z.ltb_ge; lia).
  destruct fuel; cbn [poll]; by rewrite E.
Qed.

Lemma deep_research_decided (get : nat -> Interaction) (k : nat) :
  (k < 120)%nat -> (forall i, (i < k)%nat -> get i = IxPending) -> get k <> IxPending ->
  _deep_research (Val tt) get = Some (verdict (get k), pending_events 0 k ++ [PollGet]).
Proof.
  intros Hk Hp Hd. unfold _deep_research.
  assert (exists f, Z.to_nat max_wait = (k + S f)%nat) as [f ->].
  { exists (Z.to_nat max_wait - k - 1)%nat. unfold max_wait. lia. }
  change 0 with (15 * Z.of_nat 0) at 1.
  rewrite poll_pending by (try lia; exact Hp).
  cbn [Nat.add poll].
  assert ((15 * Z.of_nat k <? max_wait) = true) as ->
    by (apply Z.ltb_lt; unfold max_wait; lia).
  unfold verdict. by destruct (get k).
Qed.

Lemma deep_research_undecided (get : nat -> Interaction) :
  (forall i, (i < 120)%nat -> get i = IxPending) ->
  _deep_research (Val tt) get
  = Some (Exn (py "Gemini Deep Research 타임아웃 (30분)"), pending_events 0 120).
Proof.
  intros Hp. unfold _deep_research.
  assert (exists f, Z.to_nat max_wait = (120 + f)%nat) as [f ->].
  { exists (Z.to_nat max_wait - 120)%nat. unfold max_wait. lia. }
  change 0 with (15 * Z.of_nat 0) at 1.
  rewrite poll_pending by (try lia; exact Hp).
  rewrite poll_expired by (unfold max_wait; lia).
  by rewrite app_nil_r.
Qed.

Lemma first_decisive (get : nat -> Interaction) (n : nat) :
  (forall i, (i < n)%nat -> get i = IxPending) \/
  exists k, (k < n)%nat /\ (forall i, (i < k)%nat -> get i = IxPending) /\ get k <> IxPending.
Proof.
  induction n as [|n [IH|(k & Hk & Hp & Hd)]].
  - left. lia.
  - assert (get n = IxPending \/ get n <> IxPending) as [H|H]
      by (destruct (get n); auto; right; discriminate).
    + left. intros i Hi. destruct (decide (i = n)) as [->|]; [done|]. apply IH. lia.
    + right. exists n. split; [lia|]. done.
  - right. exists k. split; [lia|]. done.
Qed.

(** X11.  Gemini's deep research always ends, whatever the service
    answers: after at most 120 [get]s and at most 1800 seconds of sleep,
    with a progress line at multiples of 60 seconds only. *)
Theorem deep_research_is_bounded (create : res unit) (get : nat -> Interaction) :
  exists r evs,
    _deep_research create get = Some (r, evs) /\
    (gets evs <= 120)%nat /\ 0 <= slept evs <= max_wait /\
    Forall (fun t => t mod 60 = 0 /\ 0 < t <= max_wait) (progress evs).
Proof.
  destruct create as [[]|e].
  2:{ exists (Exn e), []. split; [done|]. cbn. unfold max_wait. repeat split; try lia.
      constructor. }
  destruct (first_decisive get 120) as [Hp|(k & Hk & Hp & Hd)].
  - eexists _, _. split; [by apply deep_research_undecided|].
    rewrite pending_events_gets, pending_events_slept. unfold max_wait.
    split; [lia|]. split; [lia|].
    eapply Forall_impl; [apply pending_events_progress|]. cbn beta. lia.
  - eexists _, _. split; [by apply deep_research_decided|].
    rewrite gets_app, slept_app, progress_app, pending_events_gets, pending_events_slept,
      gets_one.
    cbn [slept progress foldr omap]. rewrite app_nil_r. unfold max_wait.
    split; [lia|]. split; [lia|].
    eapply Forall_impl; [apply pending_events_progress|]. cbn beta. lia.
Qed.

(** X12.  When the first [k] polls (with [k < 120]) find the interaction
    neither completed nor failed and the next one does not, the deep
    research ends at that poll, after [k + 1] [get]s and [15 * k] seconds of
    sleep: with the text of the last output when completed (an index error
    when there is no output), with the failure message when failed, with
    the client's exception when the [get] raised. *)
Theorem first_decisive_poll_decides (get : nat -> Interaction) (k : nat) :
  (k < 120)%nat -> (forall i, (i < k)%nat -> get i = IxPending) -> get k <> IxPending ->
  exists evs,
    _deep_research (Val tt) get = Some (verdict (get k), evs) /\
    gets evs = S k /\ slept evs = 15 * Z.of_nat k.
Proof.
  intros Hk Hp Hd. eexists. split; [by apply deep_research_decided|].
  rewrite gets_app, slept_app, pending_events_gets, pending_events_slept, gets_one.
  cbn [slept foldr]. lia.
Qed.

Lemma first_decisive_poll_decides_witness :
  exists evs,
    _deep_research (Val tt) done_at_third = Some (Val (py "report"), evs) /\
    gets evs = 3%nat /\ slept evs = 30.
Proof.
  assert (H1 : (2 < 120)%nat) by lia.
  assert (H2 : forall i, (i < 2)%nat -> done_at_third i = IxPending).
  { intros i Hi. unfold done_at_third. rewrite bool_decide_eq_false_2; [done|lia]. }
  assert (H3 : done_at_third 2 <> IxPending) by discriminate.
  exact (first_decisive_poll_decides done_at_third 2 H1 H2 H3).
Defined.

(** X13.  When the interaction stays pending through 120 polls, the deep
    research raises its time-out error after exactly 120 [get]s and 1800
    seconds of sleep, having written a progress line for every full minute
    from 60 to 1800 seconds. *)
Theorem deep_research_times_out (get : nat -> Interaction) :
  (forall i, (i < 120)%nat -> get i = IxPending) ->
  exists evs,
    _deep_research (Val tt) get
    = Some (Exn (py "Gemini Deep Research 타임아웃 (30분)"), evs) /\
    gets evs = 120%nat /\ slept evs = max_wait /\
    progress evs = map (fun i => 60 * Z.of_nat i) (seq 1 30).
Proof.
  intros Hp. eexists. split; [by apply deep_research_undecided|].
  rewrite pending_events_gets, pending_events_slept. split; [done|]. split; [done|].
  vm_compute. reflexivity.
Qed.

Lemma deep_research_times_out_witness :
  exists evs,
    _deep_research (Val tt) never_done
    = Some (Exn (py "Gemini Deep Research 타임아웃 (30분)"), evs) /\
    gets evs = 120%nat /\ slept evs = max_wait /\
    progress evs = map (fun i => 60 * Z.of_nat i) (seq 1 30).
Proof. exact (deep_research_times_out never_done (fun _ _ => eq_refl)). Defined.

Local Instance True_plumbing : Plumbing (fun _ => True).
Proof. intros e _. exact I. Qed.

(** ** Which phase writes which attribute *)

Section Frame.
Context {T : Type} (keep : St -> T) (W : World) (self : Orchestrator) (st0 : St).
Hypothesis keep_emit : forall e st, keep (emit e st) = keep st.
Hypothesis keep_stdin : forall l st, keep (set_stdin l st) = keep st.

Let Inv (st : St) : Prop := keep st = keep st0.
Let R : relation St := inv_ext Inv (fun _ => True).

Local Instance frame_blind : TraceBlind Inv.
Proof. intros e st H. unfold Inv. by rewrite keep_emit. Qed.

Lemma frame_stdin (st : St) (l : list input_ev) : Inv st -> Inv (set_stdin l st).
Proof. unfold Inv. by rewrite keep_stdin. Qed.

Lemma frame_read_input : steps R read_input.
Proof. apply steps_read_input; [apply _|apply frame_stdin|done]. Qed.

Lemma frame_phase0 :
  (forall v st, keep (set_ctx v st) = keep st) -> steps R (phase0_clarify W self).
Proof.
  intros Hctx. unfold phase0_clarify.
  steps_bind; [by apply steps_log; try apply _|].
  steps_bind.
  { apply steps_gather; [apply _|]. intros [name prov]. unfold clarify_ask.
    steps_solve; done. }
  steps_bind; [by apply steps_save; try apply _|].
  steps_bind; [apply frame_read_input|].
  steps_bind; [apply steps_get; apply _|].
  steps_bind.
  { destruct (if decide _ then _ else _); [|steps_ret].
    apply steps_modify; [|done]. intros st. unfold Inv. by rewrite Hctx. }
  steps_bind; [by apply steps_save_state; try apply _|].
  apply steps_ask; [apply _|apply frame_stdin|done].
Qed.

Lemma frame_phaseA :
  (forall v st, keep (set_research v st) = keep st) -> steps R (phaseA_research W self).
Proof.
  intros Hres. unfold phaseA_research, research_batch.
  steps_bind; [by apply steps_log; try apply _|].
  steps_bind.
  { apply steps_gather; [apply _|]. intros [name prov]. unfold research_do.
    steps_solve; try done; intros st; unfold Inv; by rewrite Hres. }
  steps_bind; [by apply steps_save_state; try apply _|].
  apply steps_ask; [apply _|apply frame_stdin|done].
Qed.

Lemma frame_round_consensus (rnd : Z) :
  (forall v st, keep (set_consensus v st) = keep st) ->
  steps R (_round_consensus W self rnd).
Proof.
  intros Hcons. unfold _round_consensus.
  steps_bind; [by apply steps_log; try apply _|].
  steps_bind; [apply steps_get; apply _|].
  steps_bind; [apply steps_lift_res; apply _|].
  match goal with |- steps _ (let '(_, _) := ?x in _) => destruct x as [lead_n lead] end.
  steps_bind; [by apply steps_call; try apply _|].
  steps_bind; [apply steps_modify; [|done]; intros st; unfold Inv; by rewrite Hcons|].
  steps_bind; [by apply steps_save; try apply _|].
  steps_bind.
  { apply steps_for_each; [apply _|]. intros [name prov]. unfold verify_do.
    case_decide; steps_solve; done. }
  match goal with |- steps _ (match ?x with _ => _ end) => destruct x end; [steps_ret|].
  steps_bind; [by apply steps_call; try apply _|].
  steps_bind; [apply steps_modify; [|done]; intros st; unfold Inv; by rewrite Hcons|].
  steps_bind; [by apply steps_save; try apply _ | steps_ret].
Qed.

Lemma frame_debate_rounds (rnds : list Z) (actual : Z) :
  (forall v st, keep (set_consensus v st) = keep st) ->
  (forall v st, keep (set_debate v st) = keep st) ->
  steps R (debate_rounds W self rnds actual).
Proof.
  intros Hcons Hdeb. revert actual.
  induction rnds as [|rnd rnds IH]; intros actual; cbn [debate_rounds]; [steps_ret|].
  generalize (bool_decide (rnd = self_rounds self)). intros is_last.
  assert (steps R (_save_state self;;
            (if negb is_last
             then g ← Gate.ask_round;
                  match g with
                  | Abort => _round_consensus W self (rnd + 1);; mret rnd
                  | _ => debate_rounds W self rnds rnd
                  end
             else debate_rounds W self rnds rnd))) as Hafter.
  { steps_bind; [by apply steps_save_state; try apply _|].
    destruct (negb _); [|apply IH].
    steps_bind; [apply steps_ask_round; [apply _|apply frame_stdin|done]|].
    match goal with |- steps _ (match ?x with _ => _ end) => destruct x end; try apply IH.
    steps_bind; [by apply frame_round_consensus | steps_ret]. }
  destruct (bool_decide (rnd = 1)).
  - steps_bind; [|exact Hafter]. unfold _round_critique.
    steps_bind; [by apply steps_log; try apply _|].
    apply steps_gather; [apply _|]. intros [name prov]. unfold critique_do.
    steps_solve; try done. intros st; unfold Inv; by rewrite Hdeb.
  - destruct is_last.
    + steps_bind; [by apply frame_round_consensus | steps_ret].
    + steps_bind; [|exact Hafter]. unfold _round_respond.
      steps_bind; [by apply steps_log; try apply _|].
      apply steps_gather; [apply _|]. intros [name prov]. unfold respond_do.
      steps_solve; try done. intros st; unfold Inv; by rewrite Hdeb.
Qed.

Lemma frame_phaseB :
  (forall v st, keep (set_consensus v st) = keep st) ->
  (forall v st, keep (set_debate v st) = keep st) ->
  steps R (phaseB_debate W self).
Proof.
  intros Hcons Hdeb. unfold phaseB_debate.
  steps_bind; [by apply steps_log; try apply _|].
  steps_bind; [by apply frame_debate_rounds|].
  steps_bind; [by apply steps_save_state; try apply _|].
  apply steps_ask; [apply _|apply frame_stdin|done].
Qed.

Lemma frame_phaseD : steps R (phaseD_report W self).
Proof.
  unfold phaseD_report.
  steps_bind; [by apply steps_log; try apply _|].
  do 3 (steps_bind; [apply steps_get; apply _|]).
  steps_bind; [apply steps_lift_res; apply _|].
  match goal with |- steps _ (let '(_, _) := ?x in _) => destruct x as [lead_n lead] end.
  steps_bind; [by apply steps_call; try apply _|].
  steps_bind; [by apply steps_save; try apply _|].
  steps_bind; [by apply steps_save_state; try apply _|].
  apply steps_ask; [apply _|apply frame_stdin|done].
Qed.

End Frame.

(** X14.  Each phase writes only the attributes that are its own, whether
    it returns or raises: the clarification phase leaves the research
    mapping, the debate and the consensus alone; the research phase leaves
    the context, the debate and the consensus alone; the debate phase
    leaves the context and the research mapping alone; the report phase
    changes none of the four. *)
Theorem phases_write_their_own_attributes (W : World) (self : Orchestrator) (st : St) :
  (research (phase0_clarify W self st).2 = research st /\
   debate (phase0_clarify W self st).2 = debate st /\
   consensus (phase0_clarify W self st).2 = consensus st) /\
  (ctx (phaseA_research W self st).2 = ctx st /\
   debate (phaseA_research W self st).2 = debate st /\
   consensus (phaseA_research W self st).2 = consensus st) /\
  (ctx (phaseB_debate W self st).2 = ctx st /\
   research (phaseB_debate W self st).2 = research st) /\
  session (phaseD_report W self st).2 = session st.
Proof.
  split; [|split; [|split]].
  - pose proof (frame_phase0 (fun s => (research s, debate s, consensus s)) W self st
                  (fun _ _ => eq_refl) (fun _ _ => eq_refl) (fun _ _ => eq_refl) st eq_refl)
      as [H _].
    by injection H as -> -> ->.
  - pose proof (frame_phaseA (fun s => (ctx s, debate s, consensus s)) W self st
                  (fun _ _ => eq_refl) (fun _ _ => eq_refl) (fun _ _ => eq_refl) st eq_refl)
      as [H _].
    by injection H as -> -> ->.
  - pose proof (frame_phaseB (fun s => (ctx s, research s)) W self st
                  (fun _ _ => eq_refl) (fun _ _ => eq_refl) (fun _ _ => eq_refl)
                  (fun _ _ => eq_refl) st eq_refl)
      as [H _].
    by injection H as -> ->.
  - by pose proof (frame_phaseD session W self st
                  (fun _ _ => eq_refl) (fun _ _ => eq_refl) st eq_refl)
      as [H _].
Qed.

(** ** The debate log *)

Lemma range_from_1_bounds (n : Z) : Forall (fun rnd => 1 <= rnd <= n) (range_from_1 n).
Proof.
  unfold range_from_1. apply Forall_forall. intros rnd Hin.
  apply list_elem_of_fmap in Hin as (k & -> & Hk). apply elem_of_seq in Hk. lia.
Qed.

Section DebateLog.
Variables (W : World) (self : Orchestrator) (d0 : list DebateEntry).

Let Inv (st : St) : Prop :=
  exists more, debate st = d0 ++ more /\ Forall (debate_entry_of self) more.
Let R : relation St := inv_ext Inv (fun _ => True).

Local Instance log_blind : TraceBlind Inv.
Proof. intros e st H. exact H. Qed.

(** A computation that keeps the debate keeps the invariant. *)
Lemma log_kept {A} (m : M A) :
  (forall st1, steps (inv_ext (fun s => debate s = debate st1) (fun _ => True)) m) ->
  steps R m.
Proof.
  intros Hm st HI. destruct (Hm st st eq_refl) as [Hd Hext].
  split; [|exact Hext]. unfold Inv. by rewrite Hd.
Qed.

Lemma log_append (rec : DebateEntry) :
  debate_entry_of self rec ->
  steps R (modify (fun st => set_debate (debate st ++ [rec]) st)).
Proof.
  intros Hrec. apply steps_modify; [|done].
  intros st (more & E & F). exists (more ++ [rec]). cbn [debate set_debate].
  split; [by rewrite E, app_assoc|]. apply Forall_app. split; [done|]. by constructor.
Qed.

Lemma in_dict_keys {V} (k : pystr) (v : V) (d : pydict V) : (k, v) ∈ d -> k ∈ dict_keys d.
Proof. intros H. unfold dict_keys. apply list_elem_of_fmap. by exists (k, v). Qed.

Lemma log_round_critique (rnd : Z) : rnd = 1 -> steps R (_round_critique W self rnd).
Proof.
  intros ->. unfold _round_critique.
  steps_bind; [by apply steps_log; try apply _|].
  apply steps_gather_in; [apply _|]. intros [name prov] Hin. unfold critique_do.
  steps_bind; [apply steps_get; apply _|].
  apply steps_try_except; [apply _| |intros ?; steps_ret].
  steps_bind; [by apply steps_call; try apply _|].
  steps_bind; [|steps_solve; done].
  apply log_append. split; [by eapply in_dict_keys|]. left. done.
Qed.

Lemma log_round_respond (rnd : Z) :
  1 < rnd < self_rounds self -> steps R (_round_respond W self rnd).
Proof.
  intros Hr. unfold _round_respond.
  steps_bind; [by apply steps_log; try apply _|].
  apply steps_gather_in; [apply _|]. intros [name prov] Hin. unfold respond_do.
  steps_bind; [apply steps_get; apply _|].
  apply steps_try_except; [apply _| |intros ?; steps_ret].
  steps_bind; [by apply steps_call; try apply _|].
  steps_bind; [|steps_solve; done].
  apply log_append. split; [by eapply in_dict_keys|]. right. done.
Qed.

Lemma log_round_consensus (rnd : Z) : steps R (_round_consensus W self rnd).
Proof.
  apply log_kept. intros st1.
  by apply (frame_round_consensus debate W self st1).
Qed.

Lemma log_debate_rounds (rnds : list Z) (actual : Z) :
  Forall (fun rnd => 1 <= rnd <= self_rounds self) rnds ->
  steps R (debate_rounds W self rnds actual).
Proof.
  intros HF. revert actual.
  induction HF as [|rnd rnds Hrnd HF IH]; intros actual; cbn [debate_rounds]; [steps_ret|].
  destruct (bool_decide_reflect (rnd = self_rounds self)) as [Hlast|Hlast]; cbn [negb].
  - destruct (bool_decide_reflect (rnd = 1)) as [H1|H1].
    + steps_bind; [by apply log_round_critique|].
      steps_bind; [by apply steps_save_state; try apply _|]. apply IH.
    + steps_bind; [apply log_round_consensus | steps_ret].
  - assert (steps R (_save_state self;;
              g ← Gate.ask_round;
              match g with
              | Abort => _round_consensus W self (rnd + 1);; mret rnd
              | _ => debate_rounds W self rnds rnd
              end)) as Hafter.
    { steps_bind; [by apply steps_save_state; try apply _|].
      steps_bind; [by apply steps_ask_round; try apply _|].
      match goal with |- steps _ (match ?x with _ => _ end) => destruct x end; try apply IH.
      steps_bind; [apply log_round_consensus | steps_ret]. }
    destruct (bool_decide_reflect (rnd = 1)) as [H1|H1].
    + steps_bind; [by apply log_round_critique | exact Hafter].
    + steps_bind; [apply log_round_respond; lia | exact Hafter].
Qed.

Lemma debate_log_run (skip_clarify skip_extra : bool) :
  steps R (run W self skip_clarify skip_extra).
Proof.
  assert (steps R (phase0_clarify W self)) as H0.
  { apply log_kept. intros st1. by apply (frame_phase0 debate W self st1). }
  assert (steps R (phaseA_research W self)) as HA.
  { apply log_kept. intros st1. by apply (frame_phaseA debate W self st1). }
  assert (steps R (phaseB_debate W self)) as HB.
  { unfold phaseB_debate.
    steps_bind; [by apply steps_log; try apply _|].
    steps_bind; [apply log_debate_rounds, range_from_1_bounds|].
    steps_bind; [by apply steps_save_state; try apply _|].
    by apply steps_ask; try apply _. }
  assert (steps R (phaseC_extra W self)) as HC.
  { apply log_kept. intros st1 st Hst.
    destruct (extra_phase_steps W self st st eq_refl) as [Hs (evs & E & _)].
    split.
    - unfold session in Hs. injection Hs as _ _ Hd _. by rewrite Hd.
    - exists evs. split; [done|]. by apply Forall_forall. }
  assert (steps R (phaseD_report W self)) as HD.
  { apply log_kept. intros st1. by apply (frame_phaseD debate W self st1). }
  unfold run.
  assert (steps R (phaseD_report W self;; log EvDone;; mret Completed)) as Hend.
  { steps_bind; [exact HD|]. steps_bind; [by apply steps_log; try apply _ | steps_ret]. }
  assert (steps R (gC ← (if skip_extra then mret Proceed else phaseC_extra W self);
                   match gC with
                   | Abort => mret (StoppedAfter PhaseC)
                   | _ => phaseD_report W self;; log EvDone;; mret Completed
                   end)) as HCD.
  { steps_bind; [destruct skip_extra; [steps_ret|exact HC]|].
    match goal with |- steps _ (match ?x with _ => _ end) => destruct x end;
      [exact Hend|exact Hend|steps_ret]. }
  steps_bind; [destruct skip_clarify; [steps_ret|exact H0]|].
  assert (steps R (gA ← phaseA_research W self;
                   match gA with
                   | Abort => mret (StoppedAfter PhaseA)
                   | _ =>
                     gB ← phaseB_debate W self;
                     match gB with
                     | Abort => mret (StoppedAfter PhaseB)
                     | _ =>
                       gC ← (if skip_extra then mret Proceed else phaseC_extra W self);
                       match gC with
                       | Abort => mret (StoppedAfter PhaseC)
                       | _ => phaseD_report W self;; log EvDone;; mret Completed
                       end
                     end
                   end)) as HABCD.
  { steps_bind; [exact HA|].
    assert (steps R (gB ← phaseB_debate W self;
                     match gB with
                     | Abort => mret (StoppedAfter PhaseB)
                     | _ =>
                       gC ← (if skip_extra then mret Proceed else phaseC_extra W self);
                       match gC with
                       | Abort => mret (StoppedAfter PhaseC)
                       | _ => phaseD_report W self;; log EvDone;; mret Completed
                       end
                     end)) as HBCD.
    { steps_bind; [exact HB|].
      match goal with |- steps _ (match ?x with _ => _ end) => destruct x end;
        [exact HCD|exact HCD|steps_ret]. }
    match goal with |- steps _ (match ?x with _ => _ end) => destruct x end;
      [exact HBCD|exact HBCD|steps_ret]. }
  match goal with |- steps _ (match ?x with _ => _ end) => destruct x end;
    [exact HABCD|exact HABCD|steps_ret].
Qed.

End DebateLog.

(** X15.  Over a whole run, however it ends, the debate sequence only
    grows at its end, and what it gains are critiques of round 1 and
    responses of rounds strictly between the first and the last, each by
    an active provider: the consensus round and the extra phase add no
    entry, and no entry is removed or rewritten. *)
Theorem debate_log_only_grows (W : World) (self : Orchestrator)
    (skip_clarify skip_extra : bool) (st : St) :
  exists more,
    debate (run W self skip_clarify skip_extra st).2 = debate st ++ more /\
    Forall (debate_entry_of self) more.
Proof.
  destruct (debate_log_run W self (debate st) skip_clarify skip_extra st) as [H _].
  - exists []. by rewrite app_nil_r.
  - exact H.
Qed.

(** ** What a critique prompt is built from *)

Section CritiqueRound.
Variables (W : World) (self : Orchestrator) (rnd : Z) (r0 : pydict pystr).

Let Inv (st : St) : Prop := research st = r0.

Local Instance critique_blind : TraceBlind Inv.
Proof. intros e st H. exact H. Qed.

Local Instance critique_plumbing : Plumbing (critique_call_from self rnd r0).
Proof. intros e H. by destruct e. Qed.

Lemma critique_do_steps (np : pystr * Provider) :
  np ∈ self_ai self ->
  steps (inv_ext Inv (critique_call_from self rnd r0)) (critique_do W self rnd np).
Proof.
  intros Hin. destruct np as [name prov]. unfold critique_do.
  intros st HI. rewrite bind_run, get_run. unfold Inv in HI. rewrite HI.
  assert (Hs : steps (inv_ext Inv (critique_call_from self rnd r0))
    (try_except
       (r ← call W (OCritique rnd) name prov
              (PCritique (role prov) (critique_others self name r0)
                 (take 6000 (default [] (dict_get name r0)))) false;
        modify (fun st => set_debate (debate st ++ [mkEntry rnd critique name r]) st);;
        save (CritiqueFile rnd name) r;;
        mret [CritiqueFile rnd name])
       (fun _ => mret []))).
  { steps_solve; try done.
    intros r. simpl. split; [done|]. by exists prov. }
  exact (Hs st HI).
Qed.

Lemma round_critique_steps :
  steps (inv_ext Inv (critique_call_from self rnd r0)) (_round_critique W self rnd).
Proof.
  unfold _round_critique. steps_bind; [by apply steps_log; try apply _|].
  apply steps_gather_in; [apply _ | apply critique_do_steps].
Qed.

End CritiqueRound.

(** X16.  In the critique round the reports a provider is shown under
    the others' heading are exactly the entries of the research mapping of
    the other providers that pass the answer test, in the order of the
    mapping, each cut to 6000 characters under a heading with the
    provider's name and role name; the round leaves the research mapping as
    it was, and every call of the round is a critique call for an active
    provider with the prompt built from the mapping the round began with. *)
Theorem critique_prompt_sources (W : World) (self : Orchestrator) (rnd : Z) (st : St) :
  (forall name kv,
     kv ∈ critique_refs name (research st) <->
     kv ∈ research st /\ kv.1 <> name /\ is_answer kv.2 = true) /\
  (forall name,
     critique_others self name (research st)
     = join (nl ++ nl)
         (map (fun kv : pystr * pystr =>
                 py "### " ++ kv.1 ++ py " (" ++ _rname self kv.1 ++ py ")" ++ nl
                   ++ take 6000 kv.2)
            (critique_refs name (research st)))) /\
  research (_round_critique W self rnd st).2 = research st /\
  extends (critique_call_from self rnd (research st)) st (_round_critique W self rnd st).2.
Proof.
  split; [|split; [|exact (round_critique_steps W self rnd (research st) st eq_refl)]].
  - intros name kv. unfold critique_refs. rewrite list_elem_of_filter. tauto.
  - intros name. reflexivity.
Qed.

(** ** A debate without rounds *)

Lemma debate_without_rounds (W : World) (self : Orchestrator) (st : St) :
  self_rounds self <= 0 ->
  exists g i,
    (phaseB_debate W self st).1 = Val g /\
    trace (phaseB_debate W self st).2
    = trace st ++ [EvBanner PhaseB; EvSaveState (snapshot self st); EvInput i] /\
    session (phaseB_debate W self st).2 = session st.
Proof.
  intros Hr. unfold phaseB_debate.
  assert (range_from_1 (self_rounds self) = []) as ->.
  { unfold range_from_1. replace (Z.to_nat (self_rounds self)) with 0%nat by lia. done. }
  cbn [debate_rounds].
  rewrite !bind_run, log_run. cbn [fst snd]. rewrite bind_run, ret_run. cbn [fst snd].
  rewrite bind_run, save_state_run. cbn [fst snd].
  change (snapshot self (emit (EvBanner PhaseB) st)) with (snapshot self st).
  unfold Gate.ask. rewrite bind_run. unfold read_input. cbn [stdin emit].
  destruct (stdin st) as [|i rest].
  - cbn [fst snd].
    repeat case_decide; eexists _, Eof; cbn; rewrite <- ?app_assoc;
      (split; [reflexivity|done]).
  - cbn [fst snd].
    repeat case_decide; eexists _, i; cbn; rewrite <- ?app_assoc;
      (split; [reflexivity|done]).
Qed.

(** X17.  When the configuration asks for no debate round (a number of
    rounds of 0 or below), the orchestrator keeps that number, and the
    debate phase makes no call at all: it prints its banner, saves the
    state, asks at its gate and returns the gate's decision, with the
    session unchanged; no critique, response or consensus is made. *)
Theorem no_rounds_no_debate (W : World) (env : gmap pystr pystr) (config : Config)
    (query : pystr) (deep : bool) (rs_name : pystr) (roles : gmap pystr RoleInfo)
    (orc : Orchestrator) (n : Z) (st : St) :
  cfg_debate_rounds config = Some n -> n <= 0 ->
  Orchestrator_init env config query deep rs_name roles = Val orc ->
  self_rounds orc = n /\
  exists g i,
    (phaseB_debate W orc st).1 = Val g /\
    trace (phaseB_debate W orc st).2
    = trace st ++ [EvBanner PhaseB; EvSaveState (snapshot orc st); EvInput i] /\
    session (phaseB_debate W orc st).2 = session st.
Proof.
  intros Hcfg Hn Hinit.
  assert (self_rounds orc = n) as Hr.
  { unfold Orchestrator_init in Hinit.
    destruct (init_providers _ _ _ _) as [|np ai]; [done|]. injection Hinit as <-.
    cbn [self_rounds]. rewrite Hcfg. simpl. lia. }
  split; [exact Hr|]. apply debate_without_rounds. lia.
Qed.

Lemma no_rounds_no_debate_witness :
  exists orc,
    Orchestrator_init ∅ no_rounds [] false [] ∅ = Val orc /\
    self_rounds orc = 0 /\
    exists g i,
      (phaseB_debate calm_world orc (initial_state [])).1 = Val g /\
      trace (phaseB_debate calm_world orc (initial_state [])).2
      = trace (initial_state [])
          ++ [EvBanner PhaseB; EvSaveState (snapshot orc (initial_state [])); EvInput i] /\
      session (phaseB_debate calm_world orc (initial_state [])).2
      = session (initial_state []).
Proof.
  destruct (Orchestrator_init ∅ no_rounds [] false [] ∅) as [orc|e] eqn:E.
  - exists orc. split; [reflexivity|].
    assert (H0 : (0 <= 0)%Z) by lia.
    exact (no_rounds_no_debate calm_world ∅ no_rounds [] false [] ∅ orc 0
             (initial_state []) eq_refl H0 E).
  - exfalso. vm_compute in E. discriminate.
Defined.

(** ** The question file *)

(** *** Text lemmas *)

Lemma universal_newlines_id (s : pystr) : 13%N ∉ s -> universal_newlines s = s.
Proof.
  induction s as [|c s IH]; [done|]. rewrite not_elem_of_cons. intros [Hc Hs].
  cbn [universal_newlines]. rewrite (proj2 (N.eqb_neq c 13)) by done. by rewrite IH.
Qed.

Lemma split_nl_line (l : pystr) : 10%N ∉ l -> split_nl l = [l].
Proof.
  induction l as [|c l IH]; [done|]. rewrite not_elem_of_cons. intros [Hc Hl].
  cbn [split_nl]. rewrite (proj2 (N.eqb_neq c 10)) by done. by rewrite IH.
Qed.

Lemma split_nl_app (l rest : pystr) :
  10%N ∉ l -> split_nl (l ++ 10%N :: rest) = l :: split_nl rest.
Proof.
  induction l as [|c l IH]; [done|]. rewrite not_elem_of_cons. intros [Hc Hl].
  cbn [app split_nl]. rewrite (proj2 (N.eqb_neq c 10)) by done. by rewrite IH.
Qed.

Lemma split_nl_join (lines : list pystr) :
  lines <> [] -> Forall (fun l => 10%N ∉ l) lines -> split_nl (join nl lines) = lines.
Proof.
  induction lines as [|l lines IH]; [done|]. intros _ HF.
  apply Forall_cons in HF as [Hl HF]. destruct lines as [|l' lines].
  - cbn [join]. by apply split_nl_line.
  - change (join nl (l :: l' :: lines)) with (l ++ 10%N :: join nl (l' :: lines)).
    rewrite split_nl_app by done. by rewrite IH.
Qed.

Lemma join_no_char (c : N) (sep : pystr) (lines : list pystr) :
  c ∉ sep -> Forall (fun l => c ∉ l) lines -> c ∉ join sep lines.
Proof.
  intros Hsep. induction lines as [|l lines IH]; [intros _; apply not_elem_of_nil|].
  intros HF. apply Forall_cons in HF as [Hl HF]. destruct lines as [|l' lines]; [done|].
  change (join sep (l :: l' :: lines)) with (l ++ sep ++ join sep (l' :: lines)).
  rewrite !elem_of_app. intros [?|[?|?]]; [done..|]. by apply IH.
Qed.

Lemma lstrip_head (c : N) (s : pystr) : isspace c = false -> lstrip (c :: s) = c :: s.
Proof. intros H. cbn [lstrip]. by rewrite H. Qed.

Lemma lstrip_app_stop (a b : pystr) (c : N) :
  head b = Some c -> isspace c = false -> lstrip (a ++ b) = lstrip a ++ b.
Proof.
  intros Hb Hc. induction a as [|x a IH].
  - destruct b as [|y b]; [done|]. injection Hb as ->. cbn [app]. by rewrite lstrip_head.
  - cbn [app lstrip]. destruct (isspace x); [exact IH|done].
Qed.

(** A prefix that starts and ends with a visible character survives
    [strip]. *)
Lemma strip_keeps_prefix (p x : pystr) (c d : N) :
  head p = Some c -> isspace c = false -> last p = Some d -> isspace d = false ->
  strip (p ++ x) = p ++ rstrip x.
Proof.
  intros Hc Hcs Hd Hds. unfold strip, rstrip.
  destruct p as [|c' p]; [done|]. injection Hc as ->.
  change ((c :: p) ++ x) with (c :: (p ++ x)). rewrite lstrip_head by done.
  change (c :: (p ++ x)) with ((c :: p) ++ x).
  rewrite rev_app_distr.
  rewrite (lstrip_app_stop (rev x) (rev (c :: p)) d) by (by rewrite ?head_rev).
  by rewrite rev_app_distr, rev_involutive.
Qed.

Lemma rstrip_nil : rstrip [] = [].
Proof. reflexivity. Qed.

Lemma startswith_app_l (q a b : pystr) :
  (length q <= length a)%nat -> startswith q (a ++ b) = startswith q a.
Proof. intros H. unfold startswith. by rewrite take_app_le. Qed.

Lemma startswith_prefix (q b : pystr) : startswith q (q ++ b) = true.
Proof. unfold startswith. rewrite take_app_length. by apply bool_decide_eq_true. Qed.

(** *** The parser away from questions and answers *)

Lemma qa_line_other (isdecimal : N -> bool) (p : QAParse) (line : pystr) :
  startswith (py "### Q") (strip line) = false ->
  startswith (py "답변:") (strip line) = false ->
  startswith (py "## 추가 맥락") (strip line) = false ->
  qa_in_free p = false ->
  qa_line isdecimal p line = p.
Proof. intros H1 H2 H3 H4. unfold qa_line. by rewrite H1, H2, H3, H4. Qed.

Lemma qa_line_question (isdecimal : N -> bool) (p : QAParse) (line : pystr) :
  startswith (py "### Q") (strip line) = true ->
  qa_line isdecimal p line
  = mkQAParse (qa_answers p)
      (Some (match question_match isdecimal (strip line) with
             | Some g => g
             | None => drop 5 (strip line)
             end))
      (qa_free p) (qa_in_free p).
Proof. intros H1. unfold qa_line. by rewrite H1. Qed.

Lemma qa_line_blank_answer (isdecimal : N -> bool) (p : QAParse) :
  qa_line isdecimal p (py "답변: ")
  = mkQAParse (qa_answers p) None (qa_free p) (qa_in_free p).
Proof.
  unfold qa_line.
  assert (startswith (py "### Q") (strip (py "답변: ")) = false) as -> by (by vm_compute).
  assert (startswith (py "답변:") (strip (py "답변: ")) = true) as -> by (by vm_compute).
  assert (strip (drop 3 (strip (py "답변: "))) = []) as -> by (by vm_compute).
  done.
Qed.

Lemma startswith_head_ne (q s : pystr) (a : N) :
  head q = Some a -> head s <> Some a -> startswith q s = false.
Proof.
  intros Hq Hs. destruct (startswith q s) eqn:E; [|done].
  apply startswith_spec in E as [r ->]. destruct q as [|a' q]; [done|].
  injection Hq as ->. by destruct Hs.
Qed.

Lemma inert_other (isdecimal : N -> bool) (line : pystr) :
  startswith (py "### Q") (strip line) = false ->
  startswith (py "답변:") (strip line) = false ->
  startswith (py "## 추가 맥락") (strip line) = false ->
  inert isdecimal line.
Proof. intros H1 H2 H3 p Hp. by rewrite qa_line_other. Qed.

Lemma inert_quiet (isdecimal : N -> bool) (line : pystr) :
  inert isdecimal line -> quiet isdecimal line.
Proof. intros H p Hp. rewrite H; [done|]. by destruct Hp as (_ & _ & ?). Qed.

Lemma quiet_question (isdecimal : N -> bool) (x : pystr) :
  quiet isdecimal (py "### Q" ++ x).
Proof.
  intros p (H1 & H2 & H3).
  rewrite qa_line_question.
  - done.
  - rewrite (strip_keeps_prefix (py "### Q") x 35 81) by (by vm_compute).
    apply startswith_prefix.
Qed.

Lemma quiet_blank_answer (isdecimal : N -> bool) : quiet isdecimal (py "답변: ").
Proof. intros p (H1 & H2 & H3). by rewrite qa_line_blank_answer. Qed.

(** A line that starts with a visible character other than the first
    character of a question, an answer or a heading. *)
Lemma inert_visible (isdecimal : N -> bool) (c : N) (x : pystr) :
  isspace c = false -> head (py "### Q") <> Some c -> head (py "답변:") <> Some c ->
  inert isdecimal (c :: x).
Proof.
  intros Hc H1 H2.
  assert (strip (c :: x) = c :: rstrip x) as E
    by exact (strip_keeps_prefix [c] x c c eq_refl Hc eq_refl Hc).
  apply inert_other; rewrite E.
  - apply (startswith_head_ne _ _ 35); [by vm_compute|]. cbn. intros [= ->]. by apply H1.
  - destruct (head (py "답변:")) as [a|] eqn:Ea; [|by vm_compute in Ea].
    apply (startswith_head_ne _ _ a); [done|]. cbn. intros [= ->]. by apply H2.
  - apply (startswith_head_ne _ _ 35); [by vm_compute|]. cbn. intros [= ->]. by apply H1.
Qed.

Lemma inert_literal (isdecimal : N -> bool) (line : pystr) :
  (startswith (py "### Q") (strip line)
   || startswith (py "답변:") (strip line)
   || startswith (py "## 추가 맥락") (strip line)) = false ->
  inert isdecimal line.
Proof.
  rewrite !orb_false_iff. intros [[H1 H2] H3]. by apply inert_other.
Qed.

Lemma fold_inert (isdecimal : N -> bool) (lines : list pystr) (p : QAParse) :
  Forall (inert isdecimal) lines -> qa_in_free p = false ->
  fold_left (qa_line isdecimal) lines p = p.
Proof.
  intros HF. revert p. induction HF as [|l lines Hl HF IH]; intros p Hp; [done|].
  cbn [fold_left]. rewrite Hl by done. by apply IH.
Qed.

Lemma fold_quiet (isdecimal : N -> bool) (lines : list pystr) (p : QAParse) :
  Forall (quiet isdecimal) lines -> calm p -> calm (fold_left (qa_line isdecimal) lines p).
Proof.
  intros HF. revert p. induction HF as [|l lines Hl HF IH]; intros p Hp; [done|].
  cbn [fold_left]. apply IH. by apply Hl.
Qed.

Lemma header_inert (isdecimal : N -> bool) (self : Orchestrator) (now : pystr) :
  Forall (inert isdecimal) (qa_header self now).
Proof.
  unfold qa_header.
  assert (forall lit x, head lit = Some 62%N -> inert isdecimal (lit ++ x)) as Hq.
  { intros lit x Hlit. destruct lit as [|c lit]; [done|]. injection Hlit as ->.
    apply inert_visible; by vm_compute. }
  repeat (apply Forall_cons; split;
          [first [apply inert_literal; vm_compute; reflexivity
                 |apply Hq; vm_compute; reflexivity]|]).
  apply Forall_nil. exact I.
Qed.

Lemma inert_empty (isdecimal : N -> bool) : inert isdecimal [].
Proof. apply inert_literal. by vm_compute. Qed.

Lemma quiet_empty (isdecimal : N -> bool) : quiet isdecimal [].
Proof. apply inert_quiet, inert_empty. Qed.

Lemma questions_quiet (isdecimal : N -> bool) (qs : list pystr) (num : nat) :
  Forall (quiet isdecimal) (qa_questions num qs).1.
Proof.
  revert num. induction qs as [|q qs IH]; intros num; cbn [qa_questions]; [constructor|].
  specialize (IH (S num)). destruct (qa_questions (S num) qs) as [more num'].
  cbn [fst] in *.
  cbn [app].
  apply Forall_cons; split; [apply quiet_question|].
  apply Forall_cons; split; [apply quiet_empty|].
  apply Forall_cons; split; [apply quiet_blank_answer|].
  apply Forall_cons; split; [apply quiet_empty|].
  exact IH.
Qed.

Lemma heading_inert (isdecimal : N -> bool) (name rn : pystr) (cls : ProviderKind) :
  provider_class name = Some cls ->
  inert isdecimal (py "## " ++ name ++ py " — " ++ rn).
Proof.
  intros Hn. apply provider_class_names in Hn.
  assert (py " — " = py " —" ++ py " ") as -> by (by vm_compute).
  replace (py "## " ++ name ++ (py " —" ++ py " ") ++ rn)
    with ((py "## " ++ name ++ py " —") ++ (py " " ++ rn))
    by (by rewrite <- !app_assoc).
  destruct Hn as [->|[->| ->]].
  all: apply inert_other;
    rewrite (strip_keeps_prefix _ _ 35 8212) by (by vm_compute);
    rewrite startswith_app_l by (vm_compute; lia); by vm_compute.
Qed.

Lemma sections_quiet (isdecimal : N -> bool) (self : Orchestrator)
    (all_qs : pydict (list pystr)) (num : nat) :
  Forall (fun nq => is_Some (provider_class nq.1)) all_qs ->
  Forall (quiet isdecimal) (qa_sections self num all_qs).
Proof.
  intros HF. revert num.
  induction HF as [|[name qs] all_qs [cls Hcls] HF IH]; intros num;
    cbn [qa_sections]; [constructor|].
  apply Forall_app. split.
  { apply Forall_cons; split; [by eapply inert_quiet, heading_inert|].
    apply Forall_cons; split; [apply quiet_empty|]. constructor. }
  destruct qs as [|q qs].
  - apply Forall_app. split; [|apply IH].
    apply Forall_cons; split; [apply inert_quiet, inert_literal; by vm_compute|].
    apply Forall_cons; split; [apply quiet_empty|]. constructor.
  - pose proof (questions_quiet isdecimal (q :: qs) num) as Hq.
    destruct (qa_questions num (q :: qs)) as [ls num'].
    apply Forall_app. split; [exact Hq|apply IH].
Qed.

Lemma footer_run (isdecimal : N -> bool) (p : QAParse) :
  qa_free p = [] -> qa_in_free p = false ->
  fold_left (qa_line isdecimal) qa_footer p
  = mkQAParse (qa_answers p) (qa_cur_q p) [] true.
Proof.
  destruct p as [answers cur_q free in_free]. cbn [qa_free qa_in_free qa_answers qa_cur_q].
  intros -> ->. vm_compute. reflexivity.
Qed.

(** *** The counter's digits *)

Lemma utf8_decode_ascii (bs : list N) :
  Forall (fun b => (b < 128)%N) bs -> utf8_decode bs = bs.
Proof.
  induction 1 as [|b bs Hb HF IH]; [done|].
  cbn [utf8_decode]. rewrite (proj2 (N.ltb_lt b 128)) by done. by rewrite IH.
Qed.

Lemma pretty_N_char_digit (x : N) : (48 <= N_of_ascii (pretty_N_char x) <= 57)%N.
Proof.
  unfold pretty_N_char.
  repeat match goal with |- context [match ?y with _ => _ end] => destruct y end;
    vm_compute; split; discriminate.
Qed.

Lemma pretty_N_go_digits (x : N) (s : string) :
  Forall (fun a => (48 <= N_of_ascii a <= 57)%N) (list_ascii_of_string s) ->
  Forall (fun a => (48 <= N_of_ascii a <= 57)%N) (list_ascii_of_string (pretty_N_go x s)).
Proof.
  revert s. induction (N.lt_wf_0 x) as [x _ IH]; intros s Hs.
  assert (x = 0 \/ 0 < x)%N as [->|Hx] by lia.
  - by rewrite pretty_N_go_0.
  - rewrite pretty_N_go_step by done. apply IH.
    + by apply N.div_lt.
    + cbn [list_ascii_of_string]. constructor; [apply pretty_N_char_digit|done].
Qed.

Lemma pretty_N_go_nonempty (x : N) (s : string) :
  s <> EmptyString -> pretty_N_go x s <> EmptyString.
Proof.
  revert s. induction (N.lt_wf_0 x) as [x _ IH]; intros s Hs.
  assert (x = 0 \/ 0 < x)%N as [->|Hx] by lia.
  - by rewrite pretty_N_go_0.
  - rewrite pretty_N_go_step by done. apply IH; [by apply N.div_lt|done].
Qed.

Lemma str_of_nat_digits (n : nat) :
  Forall (fun c => (48 <= c <= 57)%N) (str_of_nat n) /\ str_of_nat n <> [].
Proof.
  unfold str_of_nat, py, pretty, pretty_nat, pretty, pretty_N.
  assert (Forall (fun a => (48 <= N_of_ascii a <= 57)%N)
            (list_ascii_of_string
               (if decide (N.of_nat n = 0%N) then "0"%string
                else pretty_N_go (N.of_nat n) "")) /\
          (if decide (N.of_nat n = 0%N) then "0"%string
           else pretty_N_go (N.of_nat n) "") <> EmptyString) as [HF Hne].
  { case_decide.
    - split; [|done]. repeat constructor; by vm_compute.
    - split; [apply pretty_N_go_digits; constructor|].
      rewrite pretty_N_go_step by lia. by apply pretty_N_go_nonempty. }
  revert HF Hne. generalize (if decide (N.of_nat n = 0%N) then "0"%string
                             else pretty_N_go (N.of_nat n) ""). intros s HF Hne.
  rewrite utf8_decode_ascii.
  - split.
    + apply Forall_fmap. eapply Forall_impl; [exact HF|]. done.
    + destruct s; [done|]. done.
  - apply Forall_fmap. eapply Forall_impl; [exact HF|]. cbn. intros a Ha. lia.
Qed.

(** *** The lines of the built file *)

Lemma not_in_literal (c : N) (lit : pystr) : bool_decide (c ∉ lit) = true -> c ∉ lit.
Proof. apply bool_decide_eq_true. Qed.

Lemma not_in_literal_app (c : N) (lit x : pystr) :
  bool_decide (c ∉ lit) = true -> c ∉ x -> c ∉ lit ++ x.
Proof.
  intros H Hx. apply bool_decide_eq_true in H. rewrite elem_of_app. tauto.
Qed.

Lemma not_in_digits (c : N) (n : nat) : (c < 48)%N -> c ∉ str_of_nat n.
Proof.
  intros Hc Hin. destruct (str_of_nat_digits n) as [HF _].
  rewrite Forall_forall in HF. specialize (HF c Hin). lia.
Qed.

Lemma header_lines (c : N) (self : Orchestrator) (now : pystr) :
  c = 10%N \/ c = 13%N ->
  c ∉ self_query self -> c ∉ self_rs_name self -> c ∉ now ->
  Forall (fun l => c ∉ l) (qa_header self now).
Proof.
  intros Hc H1 H2 H3. unfold qa_header.
  destruct Hc as [-> | ->];
    repeat (apply Forall_cons; split;
            [first [apply not_elem_of_nil
                   |apply not_in_literal_app; [vm_compute; reflexivity|assumption]
                   |apply not_in_literal; vm_compute; reflexivity]|]);
    apply Forall_nil; exact I.
Qed.

Lemma questions_lines (c : N) (qs : list pystr) (num : nat) :
  c = 10%N \/ c = 13%N -> Forall (fun q => c ∉ q) qs ->
  Forall (fun l => c ∉ l) (qa_questions num qs).1.
Proof.
  intros Hc HF. revert num.
  induction HF as [|q qs Hq HF IH]; intros num; cbn [qa_questions]; [constructor|].
  specialize (IH (S num)). destruct (qa_questions (S num) qs) as [more num'].
  cbn [fst app] in *.
  apply Forall_cons; split.
  { apply not_in_literal_app; [destruct Hc as [-> | ->]; by vm_compute|].
    rewrite elem_of_app. intros [H|H].
    - revert H. apply not_in_digits. destruct Hc as [-> | ->]; lia.
    - revert H. apply not_in_literal_app; [destruct Hc as [-> | ->]; by vm_compute|done]. }
  apply Forall_cons; split; [apply not_elem_of_nil|].
  apply Forall_cons; split; [apply not_in_literal; destruct Hc as [-> | ->]; by vm_compute|].
  apply Forall_cons; split; [apply not_elem_of_nil|]. exact IH.
Qed.

Lemma sections_lines (c : N) (self : Orchestrator) (all_qs : pydict (list pystr))
    (num : nat) :
  c = 10%N \/ c = 13%N ->
  Forall (fun nq => is_Some (provider_class nq.1) /\ (c ∉ _rname self nq.1)
                    /\ Forall (fun q => c ∉ q) nq.2) all_qs ->
  Forall (fun l => c ∉ l) (qa_sections self num all_qs).
Proof.
  intros Hc HF. revert num.
  induction HF as [|[name qs] all_qs ([cls Hcls] & Hrn & Hqs) HF IH]; intros num;
    cbn [qa_sections]; [constructor|].
  cbn [fst snd] in *. apply Forall_app. split.
  { apply Forall_cons; split; [|apply Forall_cons; split; [apply not_elem_of_nil|constructor]].
    apply not_in_literal_app; [destruct Hc as [-> | ->]; by vm_compute|].
    rewrite elem_of_app. intros [H|H].
    - apply provider_class_names in Hcls.
      revert H. apply not_in_literal.
      destruct Hc as [-> | ->]; destruct Hcls as [->|[->| ->]]; by vm_compute.
    - revert H. apply not_in_literal_app; [destruct Hc as [-> | ->]; by vm_compute|done]. }
  destruct qs as [|q qs].
  - apply Forall_app. split; [|apply IH].
    apply Forall_cons; split;
      [apply not_in_literal; destruct Hc as [-> | ->]; by vm_compute|].
    apply Forall_cons; split; [apply not_elem_of_nil|constructor].
  - pose proof (questions_lines c (q :: qs) num Hc Hqs) as Hq.
    destruct (qa_questions num (q :: qs)) as [ls num'].
    apply Forall_app. split; [exact Hq|apply IH].
Qed.

Lemma footer_lines (c : N) : c = 10%N \/ c = 13%N -> Forall (fun l => c ∉ l) qa_footer.
Proof.
  intros [-> | ->]; apply Forall_forall; intros l Hl;
    apply (bool_decide_unpack _) in Hl || idtac;
    unfold qa_footer in Hl; rewrite !elem_of_cons, elem_of_nil in Hl;
    destruct_or!; subst; try apply not_elem_of_nil; try done;
    apply not_in_literal; by vm_compute.
Qed.

Lemma built_lines (c : N) (self : Orchestrator) (now : pystr)
    (all_qs : pydict (list pystr)) :
  c = 10%N \/ c = 13%N ->
  c ∉ self_query self -> c ∉ self_rs_name self -> c ∉ now ->
  Forall (fun nq => is_Some (provider_class nq.1) /\ (c ∉ _rname self nq.1)
                    /\ Forall (fun q => c ∉ q) nq.2) all_qs ->
  Forall (fun l => c ∉ l) (qa_header self now ++ qa_sections self 1 all_qs ++ qa_footer).
Proof.
  intros Hc H1 H2 H3 H4. apply Forall_app. split; [by apply header_lines|].
  apply Forall_app. split; [by apply sections_lines|by apply footer_lines].
Qed.

(** X18.  Round trip of the question file, left as written: over texts of
    one line (query, role-set name, date, role names and questions) and
    sections named after known providers, [_parse_qa_file] reads the file
    [_build_qa_file] writes as the empty context, whatever digits the
    pattern takes for decimal. *)
Theorem untouched_question_file_gives_no_context (isdecimal : N -> bool)
    (self : Orchestrator) (now : pystr) (all_qs : pydict (list pystr)) :
  one_line (self_query self) -> one_line (self_rs_name self) -> one_line now ->
  Forall (fun nq => is_Some (provider_class nq.1) /\ one_line (_rname self nq.1)
                    /\ Forall one_line nq.2) all_qs ->
  _parse_qa_file isdecimal (_build_qa_file self now all_qs) = [].
Proof.
  intros [Q1 Q2] [R1 R2] [N1 N2] HF.
  assert (Forall (fun l => 10%N ∉ l)
            (qa_header self now ++ qa_sections self 1 all_qs ++ qa_footer)) as L10.
  { apply built_lines; [auto|done..|]. eapply Forall_impl; [exact HF|].
    intros nq (H1 & [H2 _] & H3). split; [done|]. split; [done|].
    eapply Forall_impl; [exact H3|]. by intros q [? _]. }
  assert (Forall (fun l => 13%N ∉ l)
            (qa_header self now ++ qa_sections self 1 all_qs ++ qa_footer)) as L13.
  { apply built_lines; [auto|done..|]. eapply Forall_impl; [exact HF|].
    intros nq (H1 & [_ H2] & H3). split; [done|]. split; [done|].
    eapply Forall_impl; [exact H3|]. by intros q [_ ?]. }
  unfold _parse_qa_file, _build_qa_file.
  rewrite universal_newlines_id
    by (apply join_no_char; [apply not_in_literal; vm_compute; reflexivity|done]).
  rewrite split_nl_join; [|unfold qa_header; cbn [app]; discriminate|done].
  rewrite !fold_left_app.
  set (p1 := fold_left (qa_line isdecimal) (qa_sections self 1 all_qs)
               (fold_left (qa_line isdecimal) (qa_header self now)
                  (mkQAParse [] None [] false))).
  assert (calm p1) as (C1 & C2 & C3).
  { apply fold_quiet.
    - apply sections_quiet. eapply Forall_impl; [exact HF|]. by intros nq [? _].
    - apply fold_quiet; [|done]. eapply Forall_impl; [apply header_inert|].
      apply inert_quiet. }
  rewrite footer_run by done. cbn [qa_answers qa_free]. cbv zeta. rewrite C1. done.
Qed.

(** *** White space at the two ends *)

Lemma strip_rstrip_lstrip (s : pystr) : strip s = rstrip (lstrip s).
Proof. reflexivity. Qed.

Lemma lstrip_idem (s : pystr) : lstrip (lstrip s) = lstrip s.
Proof.
  induction s as [|c s IH]; [done|]. cbn [lstrip].
  destruct (isspace c) eqn:E; [done|]. cbn [lstrip]. by rewrite E.
Qed.

Lemma rstrip_idem (s : pystr) : rstrip (rstrip s) = rstrip s.
Proof. unfold rstrip. by rewrite rev_involutive, lstrip_idem. Qed.

Lemma lstrip_snoc (a : pystr) (c : N) :
  lstrip (a ++ [c])
  = match lstrip a with
    | [] => if isspace c then [] else [c]
    | l => l ++ [c]
    end.
Proof.
  induction a as [|x a IH]; [done|]. cbn [app lstrip].
  destruct (isspace x); [exact IH|done].
Qed.

Lemma rstrip_cons (c : N) (s : pystr) :
  rstrip (c :: s)
  = match rstrip s with
    | [] => if isspace c then [] else [c]
    | r => c :: r
    end.
Proof.
  unfold rstrip. cbn [rev]. rewrite lstrip_snoc.
  destruct (lstrip (rev s)) as [|x l] eqn:E.
  - cbn [rev]. by destruct (isspace c).
  - rewrite rev_app_distr. cbn [rev app].
    destruct (rev l ++ [x]) eqn:E2; [|done]. by destruct (rev l).
Qed.

Lemma lstrip_rstrip (s : pystr) : lstrip (rstrip s) = rstrip (lstrip s).
Proof.
  induction s as [|c s IH]; [done|].
  rewrite rstrip_cons. cbn [lstrip]. destruct (isspace c) eqn:E.
  - rewrite <- IH. destruct (rstrip s) as [|x r]; [done|]. cbn [lstrip]. by rewrite E.
  - rewrite rstrip_cons. destruct (rstrip s) as [|x r]; cbn [lstrip]; by rewrite E.
Qed.

Lemma strip_space_left (x : pystr) : strip (rstrip (py " " ++ x)) = strip x.
Proof.
  assert (py " " = [32%N]) as -> by (by vm_compute).
  rewrite strip_rstrip_lstrip, lstrip_rstrip, rstrip_idem.
  by rewrite <- strip_rstrip_lstrip.
Qed.

Lemma lstrip_space_left (x : pystr) : lstrip (rstrip (py " " ++ x)) = strip x.
Proof.
  assert (py " " = [32%N]) as -> by (by vm_compute).
  by rewrite lstrip_rstrip.
Qed.

Lemma lstrip_subset (c : N) (s : pystr) : c ∈ lstrip s -> c ∈ s.
Proof.
  induction s as [|x s IH]; [done|]. cbn [lstrip].
  destruct (isspace x); [|done]. intros H. apply elem_of_cons. right. by apply IH.
Qed.

Lemma in_rev_iff {A} (c : A) (s : list A) : c ∈ rev s <-> c ∈ s.
Proof.
  induction s as [|x s IH]; [done|]. cbn [rev].
  rewrite elem_of_app, !elem_of_cons, IH, elem_of_nil. tauto.
Qed.

Lemma strip_subset (c : N) (s : pystr) : c ∈ strip s -> c ∈ s.
Proof.
  unfold strip. rewrite in_rev_iff. intros H. apply lstrip_subset in H.
  rewrite in_rev_iff in H. by apply lstrip_subset.
Qed.

Lemma keep_while_all (f : N -> bool) (s : pystr) :
  Forall (fun c => f c = true) s -> keep_while f s = s.
Proof. induction 1 as [|c s Hc HF IH]; [done|]. cbn [keep_while]. by rewrite Hc, IH. Qed.

Lemma keep_while_app_stop (f : N -> bool) (a : pystr) (c : N) (r : pystr) :
  Forall (fun x => f x = true) a -> f c = false -> keep_while f (a ++ c :: r) = a.
Proof.
  intros HF Hc. induction HF as [|x a Hx HF IH]; cbn [app keep_while].
  - by rewrite Hc.
  - by rewrite Hx, IH.
Qed.

Lemma skip_while_app_stop (f : N -> bool) (a : pystr) (c : N) (r : pystr) :
  Forall (fun x => f x = true) a -> f c = false -> skip_while f (a ++ c :: r) = c :: r.
Proof.
  intros HF Hc. induction HF as [|x a Hx HF IH]; cbn [app skip_while].
  - by rewrite Hc.
  - by rewrite Hx, IH.
Qed.

(** *** Questions and answers as the file has them *)

Lemma question_line_read (isdecimal : N -> bool) (p : QAParse) (num : nat) (q : pystr) :
  reads_digits isdecimal -> 10%N ∉ q ->
  qa_line isdecimal p (py "### Q" ++ str_of_nat num ++ py ". " ++ q)
  = mkQAParse (qa_answers p) (Some (strip q)) (qa_free p) (qa_in_free p).
Proof.
  intros [Hdig Hdot] Hq.
  destruct (str_of_nat_digits num) as [HF Hne].
  assert (py ". " = [46%N] ++ py " ") as -> by (by vm_compute).
  replace (py "### Q" ++ str_of_nat num ++ ([46%N] ++ py " ") ++ q)
    with ((py "### Q" ++ str_of_nat num ++ [46%N]) ++ (py " " ++ q))
    by (by rewrite <- !app_assoc).
  assert (strip ((py "### Q" ++ str_of_nat num ++ [46%N]) ++ (py " " ++ q))
          = py "### Q" ++ str_of_nat num ++ 46%N :: rstrip (py " " ++ q)) as E.
  { rewrite (strip_keeps_prefix _ _ 35 46).
    - by rewrite <- !app_assoc.
    - by vm_compute.
    - by vm_compute.
    - rewrite !app_assoc. apply last_snoc.
    - by vm_compute. }
  rewrite qa_line_question by (rewrite E; apply startswith_prefix).
  rewrite E. unfold question_match. rewrite startswith_prefix.
  assert (drop 5 (py "### Q" ++ str_of_nat num ++ 46%N :: rstrip (py " " ++ q))
          = str_of_nat num ++ 46%N :: rstrip (py " " ++ q)) as ->.
  { assert (5%nat = length (py "### Q")) as -> by (by vm_compute). apply drop_app_length. }
  assert (Forall (fun x => isdecimal x = true) (str_of_nat num)) as HD.
  { eapply Forall_impl; [exact HF|]. exact Hdig. }
  rewrite keep_while_app_stop, skip_while_app_stop by done.
  destruct (str_of_nat num) as [|d ds]; [done|].
  rewrite lstrip_space_left. rewrite keep_while_all; [done|].
  apply Forall_forall. intros c Hc. apply negb_true_iff, N.eqb_neq. intros ->.
  by apply strip_subset in Hc.
Qed.

Lemma answer_line_read (isdecimal : N -> bool) (p : QAParse) (a : pystr) :
  qa_line isdecimal p (py "답변: " ++ a)
  = mkQAParse
      (match strip a, qa_cur_q p with
       | d :: a', Some (c :: q) =>
         qa_answers p ++ [ py "Q: " ++ (c :: q) ++ nl ++ py "A: " ++ (d :: a') ]
       | _, _ => qa_answers p
       end)
      None (qa_free p) (qa_in_free p).
Proof.
  assert (py "답변: " = py "답변:" ++ py " ") as -> by (by vm_compute).
  rewrite <- app_assoc.
  assert (strip (py "답변:" ++ py " " ++ a) = py "답변:" ++ rstrip (py " " ++ a)) as E.
  { apply (strip_keeps_prefix _ _ 45813 58); by vm_compute. }
  unfold qa_line. rewrite E.
  assert (startswith (py "### Q") (py "답변:" ++ rstrip (py " " ++ a)) = false) as ->.
  { apply (startswith_head_ne _ _ 35); [by vm_compute|].
    assert (exists t, py "답변:" = 45813%N :: t) as [t ->] by (eexists; by vm_compute).
    done. }
  rewrite startswith_prefix.
  assert (drop 3 (py "답변:" ++ rstrip (py " " ++ a)) = rstrip (py " " ++ a)) as ->.
  { assert (3%nat = length (py "답변:")) as -> by (by vm_compute). apply drop_app_length. }
  rewrite strip_space_left. by destruct (strip a).
Qed.

Lemma fold_left_step {A B} (f : A -> B -> A) (x : B) (l : list B) (a : A) :
  fold_left f (x :: l) a = fold_left f l (f a x).
Proof. reflexivity. Qed.

Lemma answered_questions_run (isdecimal : N -> bool) (qs : list pystr) :
  reads_digits isdecimal -> Forall (fun q => 10%N ∉ q) qs ->
  forall answers num p, qa_in_free p = false ->
    fold_left (qa_line isdecimal) (answered_questions num qs answers).1 p
    = mkQAParse (qa_answers p ++ answered_pairs qs answers)
        (match qs with [] => qa_cur_q p | _ => None end) (qa_free p) (qa_in_free p).
Proof.
  intros Hdec HF. induction HF as [|q qs Hq HF IH]; intros answers num p Hp.
  - cbn. rewrite app_nil_r. by destruct p.
  - cbn [answered_questions].
    specialize (IH (tail answers) (S num)).
    destruct (answered_questions (S num) qs (tail answers)) as [more num'].
    cbn [fst app] in *.
    rewrite fold_left_step, question_line_read; [|exact Hdec|exact Hq].
    rewrite fold_left_step, inert_empty by exact Hp.
    rewrite fold_left_step, answer_line_read.
    cbn [qa_answers qa_cur_q qa_free qa_in_free].
    rewrite fold_left_step, inert_empty by exact Hp.
    rewrite IH by exact Hp. cbn [qa_answers qa_cur_q qa_free qa_in_free answered_pairs].
    f_equal.
    + destruct (strip q) as [|c q'], (strip (default [] (head answers))) as [|d a'];
        cbn [app]; by rewrite <- ?app_assoc.
    + by destruct qs.
Qed.

Lemma answered_pairs_app (qs rest answers : list pystr) :
  answered_pairs (qs ++ rest) answers
  = answered_pairs qs answers ++ answered_pairs rest (drop (length qs) answers).
Proof.
  revert answers. induction qs as [|q qs IH]; intros answers; [done|].
  cbn [app answered_pairs length]. rewrite IH, <- app_assoc.
  destruct answers; [cbn [tail]; by rewrite !drop_nil|done].
Qed.

Lemma answered_sections_run (isdecimal : N -> bool) (self : Orchestrator)
    (all_qs : pydict (list pystr)) :
  reads_digits isdecimal ->
  Forall (fun nq => is_Some (provider_class nq.1) /\ Forall (fun q => 10%N ∉ q) nq.2)
    all_qs ->
  forall answers num p, qa_in_free p = false ->
    exists cq,
      fold_left (qa_line isdecimal) (answered_sections self num all_qs answers) p
      = mkQAParse (qa_answers p ++ answered_pairs (concat all_qs.*2) answers) cq
          (qa_free p) (qa_in_free p).
Proof.
  intros Hdec HF.
  induction HF as [|[name qs] all_qs [[cls Hcls] Hqs] HF IH]; intros answers num p Hp.
  - exists (qa_cur_q p). cbn. rewrite app_nil_r. by destruct p.
  - cbn [answered_sections fst snd] in *. rewrite fold_left_app.
    rewrite fold_left_step, (heading_inert isdecimal name _ cls Hcls) by exact Hp.
    rewrite fold_left_step, inert_empty by exact Hp. cbn [fold_left].
    rewrite fmap_cons. cbn [snd concat]. rewrite answered_pairs_app.
    destruct qs as [|q qs].
    + rewrite fold_left_app.
      rewrite fold_left_step, (inert_literal isdecimal (py "_(질문 생성 실패)_"));
        [|by vm_compute|exact Hp].
      rewrite fold_left_step, inert_empty by exact Hp. cbn [fold_left].
      cbn [answered_pairs app length drop].
      by apply IH.
    + pose proof (answered_questions_run isdecimal (q :: qs) Hdec Hqs answers num p Hp)
        as Hrun.
      destruct (answered_questions num (q :: qs) answers) as [ls num'].
      cbn [fst] in Hrun. rewrite fold_left_app, Hrun.
      destruct (IH (drop (length (q :: qs)) answers) num'
                  (mkQAParse (qa_answers p ++ answered_pairs (q :: qs) answers) None
                     (qa_free p) (qa_in_free p)) Hp) as [cq E].
      exists cq. rewrite E. cbn [qa_answers qa_free qa_in_free]. by rewrite <- app_assoc.
Qed.

Lemma answered_questions_lines (c : N) (qs answers : list pystr) (num : nat) :
  c = 10%N \/ c = 13%N -> Forall (fun q => c ∉ q) qs -> Forall (fun a => c ∉ a) answers ->
  Forall (fun l => c ∉ l) (answered_questions num qs answers).1.
Proof.
  intros Hc HF. revert num answers.
  induction HF as [|q qs Hq HF IH]; intros num answers Ha; cbn [answered_questions];
    [constructor|].
  assert (Forall (fun a => c ∉ a) (tail answers)) as Ht
    by (destruct Ha; [constructor|done]).
  specialize (IH (S num) (tail answers) Ht).
  destruct (answered_questions (S num) qs (tail answers)) as [more num'].
  cbn [fst app] in *.
  apply Forall_cons; split.
  { apply not_in_literal_app; [destruct Hc as [-> | ->]; by vm_compute|].
    rewrite elem_of_app. intros [H|H].
    - revert H. apply not_in_digits. destruct Hc as [-> | ->]; lia.
    - revert H. apply not_in_literal_app; [destruct Hc as [-> | ->]; by vm_compute|done]. }
  apply Forall_cons; split; [apply not_elem_of_nil|].
  apply Forall_cons; split.
  { apply not_in_literal_app; [destruct Hc as [-> | ->]; by vm_compute|].
    destruct Ha; [apply not_elem_of_nil|done]. }
  apply Forall_cons; split; [apply not_elem_of_nil|]. exact IH.
Qed.

Lemma answered_sections_lines (c : N) (self : Orchestrator)
    (all_qs : pydict (list pystr)) :
  c = 10%N \/ c = 13%N ->
  Forall (fun nq => is_Some (provider_class nq.1) /\ (c ∉ _rname self nq.1)
                    /\ Forall (fun q => c ∉ q) nq.2) all_qs ->
  forall answers num, Forall (fun a => c ∉ a) answers ->
    Forall (fun l => c ∉ l) (answered_sections self num all_qs answers).
Proof.
  intros Hc HF.
  induction HF as [|[name qs] all_qs ([cls Hcls] & Hrn & Hqs) HF IH]; intros answers num Ha;
    cbn [answered_sections]; [constructor|].
  cbn [fst snd] in *. apply Forall_app. split.
  { apply Forall_cons; split; [|apply Forall_cons; split; [apply not_elem_of_nil|constructor]].
    apply not_in_literal_app; [destruct Hc as [-> | ->]; by vm_compute|].
    rewrite elem_of_app. intros [H|H].
    - apply provider_class_names in Hcls.
      revert H. apply not_in_literal.
      destruct Hc as [-> | ->]; destruct Hcls as [->|[->| ->]]; by vm_compute.
    - revert H. apply not_in_literal_app; [destruct Hc as [-> | ->]; by vm_compute|done]. }
  destruct qs as [|q qs].
  - apply Forall_app. split; [|by apply IH].
    apply Forall_cons; split;
      [apply not_in_literal; destruct Hc as [-> | ->]; by vm_compute|].
    apply Forall_cons; split; [apply not_elem_of_nil|constructor].
  - pose proof (answered_questions_lines c (q :: qs) answers num Hc Hqs Ha) as Hq.
    destruct (answered_questions num (q :: qs) answers) as [ls num'].
    apply Forall_app. split; [exact Hq|]. apply IH. by apply Forall_drop.
Qed.

Lemma answered_questions_blank (qs : list pystr) (num : nat) :
  answered_questions num qs [] = qa_questions num qs.
Proof.
  revert num. induction qs as [|q qs IH]; intros num; [done|].
  cbn [answered_questions qa_questions tail head default]. rewrite IH.
  by rewrite app_nil_r.
Qed.

Lemma answered_sections_blank (self : Orchestrator) (all_qs : pydict (list pystr))
    (num : nat) :
  answered_sections self num all_qs [] = qa_sections self num all_qs.
Proof.
  revert num. induction all_qs as [|[name qs] all_qs IH]; intros num; [done|].
  cbn [answered_sections qa_sections]. destruct qs as [|q qs].
  - by rewrite IH.
  - rewrite answered_questions_blank. destruct (qa_questions num (q :: qs)) as [ls num'].
    by rewrite drop_nil, IH.
Qed.

(** X19.  Round trip of the question file, filled in: when the user writes
    one line after each answer label of the file [_build_qa_file] wrote,
    [_parse_qa_file] gives back, for every question whose answer is not
    blank, in the order of the file and separated by blank lines, the
    question and its answer, both without the white space around them; a
    question left without answer gives nothing, and with no answer written
    the file is the one that was built. *)
Theorem answers_are_read_back (isdecimal : N -> bool) (self : Orchestrator)
    (now : pystr) (all_qs : pydict (list pystr)) (answers : list pystr) :
  reads_digits isdecimal ->
  one_line (self_query self) -> one_line (self_rs_name self) -> one_line now ->
  Forall (fun nq => is_Some (provider_class nq.1) /\ one_line (_rname self nq.1)
                    /\ Forall one_line nq.2) all_qs ->
  Forall one_line answers ->
  answered_file self now all_qs [] = _build_qa_file self now all_qs /\
  _parse_qa_file isdecimal (answered_file self now all_qs answers)
  = join (nl ++ nl) (answered_pairs (concat all_qs.*2) answers).
Proof.
  intros Hdec [Q1 Q2] [R1 R2] [N1 N2] HF HA.
  split; [unfold answered_file, _build_qa_file; by rewrite answered_sections_blank|].
  assert (forall c, c = 10%N \/ c = 13%N ->
            c ∉ self_query self -> c ∉ self_rs_name self -> c ∉ now ->
            Forall (fun nq => is_Some (provider_class nq.1) /\ (c ∉ _rname self nq.1)
                              /\ Forall (fun q => c ∉ q) nq.2) all_qs ->
            Forall (fun a => c ∉ a) answers ->
            Forall (fun l => c ∉ l)
              (qa_header self now ++ answered_sections self 1 all_qs answers ++ qa_footer))
    as Hlines.
  { intros c Hc H1 H2 H3 H4 H5. apply Forall_app. split; [by apply header_lines|].
    apply Forall_app. split; [by apply answered_sections_lines|by apply footer_lines]. }
  assert (Forall (fun l => 10%N ∉ l)
            (qa_header self now ++ answered_sections self 1 all_qs answers ++ qa_footer))
    as L10.
  { apply Hlines; [auto|done..| |].
    - eapply Forall_impl; [exact HF|].
      intros nq (H1 & [H2 _] & H3). split; [done|]. split; [done|].
      eapply Forall_impl; [exact H3|]. by intros q [? _].
    - eapply Forall_impl; [exact HA|]. by intros a [? _]. }
  assert (Forall (fun l => 13%N ∉ l)
            (qa_header self now ++ answered_sections self 1 all_qs answers ++ qa_footer))
    as L13.
  { apply Hlines; [auto|done..| |].
    - eapply Forall_impl; [exact HF|].
      intros nq (H1 & [_ H2] & H3). split; [done|]. split; [done|].
      eapply Forall_impl; [exact H3|]. by intros q [_ ?].
    - eapply Forall_impl; [exact HA|]. by intros a [_ ?]. }
  unfold _parse_qa_file, answered_file.
  rewrite universal_newlines_id
    by (apply join_no_char; [apply not_in_literal; vm_compute; reflexivity|done]).
  rewrite split_nl_join; [|unfold qa_header; cbn [app]; discriminate|done].
  rewrite !fold_left_app.
  rewrite (fold_inert isdecimal (qa_header self now)) by (apply header_inert || done).
  destruct (answered_sections_run isdecimal self all_qs Hdec) with
    (answers := answers) (num := 1%nat) (p := mkQAParse [] None [] false) as [cq E].
  { eapply Forall_impl; [exact HF|]. intros nq (H1 & _ & H3). split; [done|].
    eapply Forall_impl; [exact H3|]. by intros q [? _]. }
  { done. }
  rewrite E. cbn [qa_answers qa_free qa_in_free app].
  rewrite footer_run by done. cbn [qa_answers qa_free]. done.
Qed.

(** ** The topics of the extra phase *)

Lemma strip_idem (s : pystr) : strip (strip s) = strip s.
Proof.
  rewrite !strip_rstrip_lstrip. by rewrite lstrip_rstrip, rstrip_idem, lstrip_idem.
Qed.

(** X20.  The topics of the extra phase are the input lines before the
    first blank line, end of input or interrupt, in order and without the
    white space around them; none of them is empty; the line that ends the
    list is read and dropped, and the rest of the input is left for the
    gates. *)
Theorem topics_are_the_lines_before_a_blank (inp : list input_ev) :
  exists k,
    (read_topics_from inp).1.1 = map line_text (take k inp) /\
    Forall (fun t => t <> [] /\ strip t = t) (read_topics_from inp).1.1 /\
    (read_topics_from inp).1.2 = drop (S k) inp /\
    inputs_read (read_topics_from inp).2
    = take (S k) inp ++ (if bool_decide (k < length inp)%nat then [] else [Eof]) /\
    (forall i, inp !! k = Some i -> line_text i = []).
Proof.
  induction inp as [|i inp (k & IH1 & IH2 & IH3 & IH4 & IH5)].
  - exists 0%nat. cbn. split; [done|]. split; [constructor|]. done.
  - assert (line_text i = [] ->
              read_topics_from (i :: inp) = ([], inp, [EvInput i]) ->
              exists k,
                (read_topics_from (i :: inp)).1.1 = map line_text (take k (i :: inp)) /\
                Forall (fun t => t <> [] /\ strip t = t) (read_topics_from (i :: inp)).1.1 /\
                (read_topics_from (i :: inp)).1.2 = drop (S k) (i :: inp) /\
                inputs_read (read_topics_from (i :: inp)).2
                = take (S k) (i :: inp)
                    ++ (if bool_decide (k < length (i :: inp))%nat then [] else [Eof]) /\
                (forall i', (i :: inp) !! k = Some i' -> line_text i' = [])) as Hstop.
    { intros Hi ->. exists 0%nat. cbn [fst snd take map drop length lookup].
      rewrite drop_0. split; [done|]. split; [constructor|]. split; [done|].
      split; [|by intros i' [= <-]].
      rewrite bool_decide_eq_true_2 by lia. done. }
    destruct i as [s| |]; [|by apply Hstop..].
    destruct (strip s) as [|c t] eqn:Es.
    { apply Hstop; [done|]. cbn [read_topics_from]. by rewrite Es. }
    clear Hstop. cbn [read_topics_from]. rewrite Es.
    destruct (read_topics_from inp) as [[topics rest] evs]. cbn [fst snd] in *.
    exists (S k). cbn [take map line_text drop]. rewrite Es, IH1, IH3.
    split; [done|]. split.
    { constructor; [|by rewrite <- IH1]. split; [done|]. by rewrite <- Es, strip_idem. }
    split; [done|]. split; [|exact IH5].
    change (inputs_read (EvInput (Line s) :: evs)) with (Line s :: inputs_read evs).
    rewrite IH4. cbn [length app].
    destruct (bool_decide_reflect (k < length inp)%nat),
      (bool_decide_reflect (S k < S (length inp))%nat); try lia; done.
Qed.

(** ** The number of rounds *)

(** X21.  An orchestrator [main] has built never has more than 5 rounds.
    A [--rounds] value other than 0 replaces the configured number and is
    capped at 5; without it, or with 0, the number is the configured one
    (3 when absent), capped at 5. *)
Theorem rounds_are_capped (env : gmap pystr pystr) (config : Config) (query : pystr)
    (deep : bool) (rounds_arg : option Z) (rs_name : pystr) (roles : gmap pystr RoleInfo)
    (orc : Orchestrator) :
  Orchestrator_init env (override_rounds rounds_arg config) query deep rs_name roles
  = Val orc ->
  self_rounds orc <= 5 /\
  (forall r, rounds_arg = Some r -> r <> 0 -> self_rounds orc = Z.min r 5) /\
  (rounds_arg = None \/ rounds_arg = Some 0 ->
   self_rounds orc = Z.min (default 3 (cfg_debate_rounds config)) 5).
Proof.
  unfold Orchestrator_init.
  destruct (init_providers _ _ _ _) as [|np ai]; [done|]. intros [= <-].
  cbn [self_rounds]. split; [lia|]. split.
  - intros r -> Hr. unfold override_rounds. rewrite decide_False by done.
    simpl. lia.
  - intros [-> | ->]; unfold override_rounds; [done|]. by rewrite decide_True.
Qed.

Lemma rounds_are_capped_witness :
  exists orc,
    Orchestrator_init ∅ (override_rounds (Some 9) two_enabled) [] false [] ∅ = Val orc /\
    self_rounds orc <= 5 /\ self_rounds orc = Z.min 9 5.
Proof.
  destruct (Orchestrator_init ∅ (override_rounds (Some 9) two_enabled) [] false [] ∅)
    as [orc|e] eqn:E.
  - exists orc. split; [reflexivity|].
    destruct (rounds_are_capped ∅ two_enabled [] false (Some 9) [] ∅ orc E) as (H1 & H2 & _).
    split; [exact H1|]. apply H2; [reflexivity|discriminate].
  - exfalso. vm_compute in E. discriminate.
Defined.

(** ** The question file, tried *)

Lemma qa_self_lines :
  one_line (self_query qa_self) /\ one_line (self_rs_name qa_self) /\
  one_line (py "2026-01-01 10:00") /\
  Forall (fun nq => is_Some (provider_class nq.1) /\ one_line (_rname qa_self nq.1)
                    /\ Forall one_line nq.2) qa_questions_asked.
Proof.
  unfold one_line. repeat split; try (apply not_in_literal; vm_compute; reflexivity).
  repeat (apply Forall_cons; split; [repeat split|]); try apply Forall_nil; try exact I;
    try (apply not_in_literal; vm_compute; reflexivity);
    try (eexists; vm_compute; reflexivity).
Qed.

Lemma ascii_digit_reads : reads_digits ascii_digit.
Proof.
  split; [|reflexivity]. intros c Hc. unfold ascii_digit.
  apply andb_true_iff. rewrite !N.leb_le. lia.
Qed.

Lemma untouched_question_file_gives_no_context_witness :
  _parse_qa_file ascii_digit
    (_build_qa_file qa_self (py "2026-01-01 10:00") qa_questions_asked) = [].
Proof.
  destruct qa_self_lines as (H1 & H2 & H3 & H4).
  exact (untouched_question_file_gives_no_context ascii_digit qa_self
           (py "2026-01-01 10:00") qa_questions_asked H1 H2 H3 H4).
Defined.

Lemma answers_are_read_back_witness :
  _parse_qa_file ascii_digit
    (answered_file qa_self (py "2026-01-01 10:00") qa_questions_asked
       [py " 1.80 and 1.22 "; []])
  = py "Q: Which versions?" ++ nl ++ py "A: 1.80 and 1.22".
Proof.
  destruct qa_self_lines as (H1 & H2 & H3 & H4).
  assert (Forall one_line [py " 1.80 and 1.22 "; []]) as H5.
  { repeat (apply Forall_cons; split; [split; apply not_in_literal; vm_compute; reflexivity|]).
    apply Forall_nil. exact I. }
  destruct (answers_are_read_back ascii_digit qa_self (py "2026-01-01 10:00")
              qa_questions_asked [py " 1.80 and 1.22 "; []] ascii_digit_reads H1 H2 H3 H4 H5)
    as [_ H].
  rewrite H. vm_compute. reflexivity.
Defined.

(** ** Where the deep-research mode is used *)

Section DeepMode.
Variables (W : World) (self : Orchestrator).

Let R : relation St := inv_ext (fun _ => True) (deep_call self).

Lemma deep_steps_call (o : Origin) (name : pystr) (prov : Provider) (prompt : Prompt)
    (deep : bool) :
  (deep = true ->
   self_deep self = true /\ match prompt with PResearch _ _ _ => True | _ => False end) ->
  steps R (call W o name prov prompt deep).
Proof.
  intros Hd st _. split; [done|].
  unfold call, query_with_fallback, try_except, query, _cli_fallback, api_call, extends.
  case_decide.
  - destruct (cli_world W (length (trace st)) (kind prov) prompt) as [a|e];
      cbn [fst snd res_of_outcome outcome_of_res trace emit].
    + eexists [_; _]. rewrite <- app_assoc. split; [done|]. by repeat constructor.
    + eexists [_; _; _]. rewrite <- !app_assoc. split; [done|]. by repeat constructor.
  - assert (forall r, deep_call self (EvApi (kind prov) prompt deep r)) as Hapi.
    { intros r. cbn. destruct deep; [by apply Hd|done]. }
    destruct (api_world W (length (trace st)) (kind prov) prompt deep) as [a|e] eqn:E;
      cbn [fst snd res_of_outcome outcome_of_res trace emit].
    + eexists [_; _]. rewrite <- app_assoc. split; [done|].
      constructor; [apply Hapi|by repeat constructor].
    + eexists [_; _; _]. rewrite <- !app_assoc. split; [done|].
      constructor; [apply Hapi|by repeat constructor].
Qed.

Ltac deep_solve :=
  repeat match goal with
  | |- steps _ (mret _) => steps_ret
  | |- steps _ (_ ≫= _) => steps_bind
  | |- steps _ (get _) => apply steps_get; apply _
  | |- steps _ (log _) => apply steps_log; [apply _|done]
  | |- steps _ (save _ _) => apply steps_save; [apply _|done]
  | |- steps _ (modify _) => apply steps_modify; [done|done]
  | |- steps _ (call _ _ _ _ _ false) => apply deep_steps_call; discriminate
  | |- steps _ (lift_res _) => apply steps_lift_res; apply _
  | |- steps _ (try_except _ _) => apply steps_try_except; [apply _| |intros ?]
  | |- steps _ (for_each _ _) => apply steps_for_each; [apply _ | intros [? ?]]
  | |- steps _ (gather _ _ _) => apply steps_gather; [apply _ | intros [? ?]]
  | |- steps _ (_save_state _) => apply steps_save_state; [apply _|done]
  | |- steps _ Gate.ask => apply steps_ask; [apply _|done|done]
  | |- steps _ Gate.ask_round => apply steps_ask_round; [apply _|done|done]
  | |- steps _ read_input => apply steps_read_input; [apply _|done|done]
  | |- steps _ read_topics => apply steps_read_topics; [done|done]
  | |- steps _ (match ?x with _ => _ end) => destruct x
  end.

Lemma deep_phase0 : steps R (phase0_clarify W self).
Proof. unfold phase0_clarify. deep_solve. unfold clarify_ask. deep_solve. Qed.

Lemma deep_phaseA : steps R (phaseA_research W self).
Proof.
  unfold phaseA_research, research_batch. deep_solve. unfold research_do.
  steps_bind; [apply steps_get; apply _|].
  apply steps_try_except; [apply _| |intros ?; deep_solve].
  steps_bind; [|deep_solve].
  apply deep_steps_call. intros Hd. by rewrite Hd.
Qed.

Lemma deep_round_consensus (rnd : Z) : steps R (_round_consensus W self rnd).
Proof. unfold _round_consensus. deep_solve. unfold verify_do. deep_solve. Qed.

Lemma deep_debate_rounds (rnds : list Z) (actual : Z) :
  steps R (debate_rounds W self rnds actual).
Proof.
  revert actual.
  induction rnds as [|rnd rnds IH]; intros actual; cbn [debate_rounds]; [steps_ret|].
  generalize (bool_decide (rnd = self_rounds self)). intros is_last.
  assert (steps R (_save_state self;;
            (if negb is_last
             then g ← Gate.ask_round;
                  match g with
                  | Abort => _round_consensus W self (rnd + 1);; mret rnd
                  | _ => debate_rounds W self rnds rnd
                  end
             else debate_rounds W self rnds rnd))) as Hafter.
  { steps_bind; [by apply steps_save_state; try apply _|].
    destruct (negb _); [|apply IH].
    steps_bind; [by apply steps_ask_round; try apply _|].
    match goal with |- steps _ (match ?x with _ => _ end) => destruct x end; try apply IH.
    steps_bind; [apply deep_round_consensus | steps_ret]. }
  destruct (bool_decide (rnd = 1)).
  - steps_bind; [|exact Hafter]. unfold _round_critique. deep_solve.
    unfold critique_do. deep_solve.
  - destruct is_last.
    + steps_bind; [apply deep_round_consensus | steps_ret].
    + steps_bind; [|exact Hafter]. unfold _round_respond. deep_solve.
      unfold respond_do. deep_solve.
Qed.

Lemma deep_phaseB : steps R (phaseB_debate W self).
Proof.
  unfold phaseB_debate.
  steps_bind; [by apply steps_log; try apply _|].
  steps_bind; [apply deep_debate_rounds|]. deep_solve.
Qed.

Lemma deep_extra_topics (n : nat) (items : list (nat * pystr)) :
  steps R (extra_topics W self n items).
Proof.
  induction items as [|[i topic] rest IH]; cbn [extra_topics]; [steps_ret|].
  steps_bind; [unfold _focused; deep_solve; unfold focused_do; deep_solve|].
  steps_bind; [by apply steps_save_state; try apply _|].
  destruct (bool_decide _).
  - steps_bind; [by apply steps_ask_round; try apply _|].
    match goal with |- steps _ (match ?x with _ => _ end) => destruct x end;
      [| |steps_ret]; (steps_bind; [apply IH | steps_ret]).
  - steps_bind; [apply IH | steps_ret].
Qed.

Lemma deep_phaseC : steps R (phaseC_extra W self).
Proof.
  unfold phaseC_extra.
  steps_bind; [by apply steps_log; try apply _|].
  steps_bind; [by apply steps_read_topics|].
  steps_bind; [apply deep_extra_topics|]. deep_solve.
Qed.

Lemma deep_phaseD : steps R (phaseD_report W self).
Proof. unfold phaseD_report. deep_solve. Qed.

Lemma deep_run (skip_clarify skip_extra : bool) :
  steps R (run W self skip_clarify skip_extra).
Proof.
  pose proof deep_phase0 as H0. pose proof deep_phaseA as HA.
  pose proof deep_phaseB as HB. pose proof deep_phaseC as HC.
  pose proof deep_phaseD as HD.
  unfold run.
  assert (steps R (phaseD_report W self;; log EvDone;; mret Completed)) as Hend.
  { steps_bind; [exact HD|]. steps_bind; [by apply steps_log; try apply _ | steps_ret]. }
  assert (steps R (gC ← (if skip_extra then mret Proceed else phaseC_extra W self);
                   match gC with
                   | Abort => mret (StoppedAfter PhaseC)
                   | _ => phaseD_report W self;; log EvDone;; mret Completed
                   end)) as HCD.
  { steps_bind; [destruct skip_extra; [steps_ret|exact HC]|].
    match goal with |- steps _ (match ?x with _ => _ end) => destruct x end;
      [exact Hend|exact Hend|steps_ret]. }
  assert (steps R (gB ← phaseB_debate W self;
                   match gB with
                   | Abort => mret (StoppedAfter PhaseB)
                   | _ =>
                     gC ← (if skip_extra then mret Proceed else phaseC_extra W self);
                     match gC with
                     | Abort => mret (StoppedAfter PhaseC)
                     | _ => phaseD_report W self;; log EvDone;; mret Completed
                     end
                   end)) as HBCD.
  { steps_bind; [exact HB|].
    match goal with |- steps _ (match ?x with _ => _ end) => destruct x end;
      [exact HCD|exact HCD|steps_ret]. }
  steps_bind; [destruct skip_clarify; [steps_ret|exact H0]|].
  assert (steps R (gA ← phaseA_research W self;
                   match gA with
                   | Abort => mret (StoppedAfter PhaseA)
                   | _ =>
                     gB ← phaseB_debate W self;
                     match gB with
                     | Abort => mret (StoppedAfter PhaseB)
                     | _ =>
                       gC ← (if skip_extra then mret Proceed else phaseC_extra W self);
                       match gC with
                       | Abort => mret (StoppedAfter PhaseC)
                       | _ => phaseD_report W self;; log EvDone;; mret Completed
                       end
                     end
                   end)) as HABCD.
  { steps_bind; [exact HA|].
    match goal with |- steps _ (match ?x with _ => _ end) => destruct x end;
      [exact HBCD|exact HBCD|steps_ret]. }
  match goal with |- steps _ (match ?x with _ => _ end) => destruct x end;
    [exact HABCD|exact HABCD|steps_ret].
Qed.

End DeepMode.

(** X22.  Over a whole run, however it ends, a primary path is called in
    deep-research mode only for a research prompt of phase A, and only by
    an orchestrator built in deep mode: clarification, critique, response,
    consensus, extra topics and the final report always use the standard
    mode. *)
Theorem deep_mode_is_for_research_only (W : World) (self : Orchestrator)
    (skip_clarify skip_extra : bool) (st : St) :
  extends (deep_call self) st (run W self skip_clarify skip_extra st).2.
Proof. by destruct (deep_run W self skip_clarify skip_extra st I). Qed.

(** ** Consensus with feedback *)

Section Feedback.
Variables (W : World) (rnd : Z) (lead_n : pystr) (q : Prompt).

(** One verification, the other way round: a verification that leaves no
    feedback made no successful call. *)
Lemma verify_do_feedback (np : pystr * Provider) (st : St) :
  exists verified evs,
    verify_do W rnd lead_n q np st = (Val verified, with_trace evs st) /\
    calls_from is_synthesis evs = [] /\ calls_from is_amend evs = [] /\
    (verified = [] -> Forall failed (calls_from is_verify evs)) /\
    Forall (fun af => af.1 <> ConsensusFinal) verified.
Proof.
  destruct np as [name prov]. unfold verify_do. case_decide.
  - exists [], []. rewrite ret_run. unfold with_trace. rewrite app_nil_r.
    split; [by destruct st|]. repeat split; constructor.
  - rewrite try_except_run, bind_run.
    destruct (call_spec W (OVerify rnd) name prov q false st) as (r & low & F & E).
    rewrite E. destruct r as [vr|e].
    + rewrite bind_run. unfold save. rewrite log_run, ret_run.
      eexists _, (low ++ [EvCall (OVerify rnd) name q (Ok vr)]
                    ++ [EvSave (VerifyFile rnd name) vr]).
      split.
      { f_equal. unfold emit, with_trace. simpl. by rewrite <- !app_assoc. }
      rewrite !calls_from_call_save by done. simpl.
      split; [done|]. split; [done|]. split; [done|]. by repeat constructor.
    + rewrite ret_run. exists [], (low ++ [EvCall (OVerify rnd) name q (Fail e)]).
      split; [done|]. rewrite !calls_from_call by done. simpl.
      split; [done|]. split; [done|]. split; [|constructor].
      intros _. by repeat constructor.
Qed.

Lemma verify_pass_feedback (xs : pydict Provider) :
  forall st, exists verified evs,
    for_each (verify_do W rnd lead_n q) xs st = (Val verified, with_trace evs st) /\
    calls_from is_synthesis evs = [] /\ calls_from is_amend evs = [] /\
    (verified = [] -> Forall failed (calls_from is_verify evs)) /\
    Forall (fun af => af.1 <> ConsensusFinal) verified.
Proof.
  induction xs as [|np xs IH]; intros st.
  - exists [], []. cbn [for_each]. rewrite ret_run. unfold with_trace. rewrite app_nil_r.
    split; [by destruct st|]. repeat split; constructor.
  - destruct (verify_do_feedback np st) as (v1 & evs1 & E1 & Hs1 & Ha1 & Hf1 & Hn1).
    destruct (IH (with_trace evs1 st)) as (v2 & evs2 & E2 & Hs2 & Ha2 & Hf2 & Hn2).
    exists (v1 ++ v2), (evs1 ++ evs2). cbn [for_each].
    rewrite bind_run, E1, bind_run, E2, ret_run, with_trace_with_trace.
    split; [done|]. rewrite !calls_from_app, Hs1, Hs2, Ha1, Ha2.
    split; [done|]. split; [done|]. split; [|by apply Forall_app].
    intros [-> ->]%app_eq_nil. apply Forall_app. auto.
Qed.

End Feedback.

(** X23.  In a consensus round whose synthesis answered [c] and where at
    least one verification came back with an answer, exactly one amendment
    is asked, of the lead.  When it answers, its answer is the consensus,
    it is saved as the final consensus file, and that file is listed last
    and once among the round's files; when it fails, the round raises its
    error and the consensus stays the synthesis [c]. *)
Theorem feedback_amends_consensus (W : World) (self : Orchestrator) (rnd : Z)
    (st : St) (c : pystr) (evs : list Event) :
  trace (_round_consensus W self rnd st).2 = trace st ++ evs ->
  (calls_from is_synthesis evs).*2 = [Ok c] ->
  ~ Forall failed (calls_from is_verify evs) ->
  exists o,
    calls_from is_amend evs = [(lead_name self, o)] /\
    match o with
    | Ok final =>
      consensus (_round_consensus W self rnd st).2 = final /\
      exists files,
        (_round_consensus W self rnd st).1 = Val (files ++ [ConsensusFinal]) /\
        (ConsensusFinal ∉ files) /\
        EvSave ConsensusFinal final ∈ evs
    | Fail e =>
      (_round_consensus W self rnd st).1 = Exn e /\
      consensus (_round_consensus W self rnd st).2 = c
    end.
Proof.
  destruct (_round_consensus W self rnd st) as [res st'] eqn:ER. cbn [fst snd].
  unfold _round_consensus in ER.
  rewrite bind_run, log_run, bind_run, get_run, bind_run, lift_res_run in ER.
  destruct (lead_claude_first self) as [[lead_n lead]|e] eqn:Elead.
  2: { injection ER as <- <-. cbn [trace emit]. intros H1%trace_app_inv. subst evs.
       discriminate. }
  apply lead_claude_first_name in Elead. cbn [fst] in Elead. subst lead_n.
  cbv beta iota in ER. rewrite bind_run in ER.
  match type of ER with context [call W ?o ?n ?p ?q ?d ?s] =>
    destruct (call_spec W o n p q d s) as (r & low & F & E); rewrite E in ER end.
  destruct r as [c'|e].
  2: { injection ER as <- <-. cbn [trace emit with_trace]. rewrite <- app_assoc.
       intros H1%trace_app_inv. subst evs.
       rewrite (calls_from_app _ [_]), calls_from_call by done. discriminate. }
  rewrite bind_run, modify_run, bind_run in ER. unfold save at 1 in ER.
  rewrite log_run, bind_run in ER.
  match type of ER with context [for_each (verify_do W ?r ?l ?q) ?xs ?s] =>
    destruct (verify_pass_feedback W r l q xs s)
      as (verified & evs_v & E2 & Hs & Ha & Hf & Hn);
    rewrite E2 in ER end.
  destruct (verified.*2) as [|fb fbs] eqn:Efb.
  - rewrite ret_run in ER. injection ER as <- <-.
    cbn [trace emit with_trace set_consensus consensus outcome_of_res].
    rewrite <- !app_assoc. intros H1%trace_app_inv. subst evs.
    intros _ H3. exfalso. apply H3.
    rewrite !calls_from_app, !(calls_from_plumbing _ low) by done.
    cbn [calls_from omap is_verify app].
    apply Hf. by apply fmap_nil_inv in Efb.
  - rewrite bind_run in ER.
    match type of ER with context [call W ?o ?n ?p ?q ?d ?s] =>
      destruct (call_spec W o n p q d s) as (r2 & low2 & F2 & E3); rewrite E3 in ER end.
    destruct r2 as [final|e].
    + rewrite bind_run, modify_run, bind_run in ER. unfold save in ER.
      rewrite log_run, ret_run in ER. injection ER as <- <-.
      cbn [trace emit with_trace set_consensus consensus outcome_of_res].
      rewrite <- !app_assoc. intros H1%trace_app_inv. subst evs.
      rewrite !calls_from_app, !(calls_from_plumbing _ low), !(calls_from_plumbing _ low2)
        by done.
      rewrite Hs, Ha. cbn [calls_from omap is_synthesis is_amend app fmap list_fmap snd].
      intros [= ->] _. exists (Ok final). split; [done|]. split; [done|].
      exists (ConsensusFile rnd :: verified.*1). split; [done|]. split.
      * rewrite not_elem_of_cons. split; [done|]. intros Hin.
        apply list_elem_of_fmap in Hin as (af & Haf & Hin).
        rewrite Forall_forall in Hn. by apply (Hn af Hin).
      * repeat (rewrite elem_of_cons || rewrite elem_of_app). auto 20.
    + injection ER as <- <-.
      cbn [trace emit with_trace set_consensus consensus outcome_of_res].
      rewrite <- !app_assoc. intros H1%trace_app_inv. subst evs.
      rewrite !calls_from_app, !(calls_from_plumbing _ low), !(calls_from_plumbing _ low2)
        by done.
      rewrite Hs, Ha. cbn [calls_from omap is_synthesis is_amend app fmap list_fmap snd].
      intros [= ->] _. exists (Fail e). done.
Qed.

Lemma feedback_amends_consensus_witness :
  exists o,
    calls_from is_amend
      (drop 1 (trace (_round_consensus calm_world gemini_first 3 (initial_state [])).2))
    = [(lead_name gemini_first, o)].
Proof.
  destruct (feedback_amends_consensus calm_world gemini_first 3 (initial_state [])
              (py "answer")
              (drop 1 (trace (_round_consensus calm_world gemini_first 3
                                (initial_state [])).2))) as (o & Ho & _).
  - vm_compute. reflexivity.
  - vm_compute. reflexivity.
  - vm_compute. intros H. apply Forall_cons in H as [H _]. exact H.
  - exists o. exact Ho.
Defined.

(** ** The order of the phases *)

Local Instance no_banner_plumbing : Plumbing no_banner.
Proof. intros e H. by destruct e. Qed.

Lemma banners_app (a b : list Event) : banners (a ++ b) = banners a ++ banners b.
Proof. apply omap_app. Qed.

Lemma banners_none (evs : list Event) : Forall no_banner evs -> banners evs = [].
Proof.
  induction 1 as [|e evs He _ IH]; [done|]. destruct e; done.
Qed.

Lemma begins_intro {A} (ph : Phase) (rest : M A) :
  steps (inv_ext (fun _ => True) no_banner) rest ->
  begins ph (log (EvBanner ph);; rest).
Proof.
  intros Hrest st. rewrite bind_run, log_run.
  destruct (Hrest (emit (EvBanner ph) st) I) as (_ & evs & E & F).
  exists (EvBanner ph :: evs). split.
  - rewrite E. cbn [trace emit]. by rewrite <- app_assoc.
  - change (EvBanner ph :: evs) with ([EvBanner ph] ++ evs).
    by rewrite banners_app, (banners_none evs).
Qed.

Section Order.
Variables (W : World) (self : Orchestrator).

Let R : relation St := inv_ext (fun _ => True) no_banner.

Lemma order_round_consensus (rnd : Z) : steps R (_round_consensus W self rnd).
Proof.
  unfold _round_consensus. steps_solve; try done. unfold verify_do.
  case_decide; steps_solve; done.
Qed.

Lemma order_debate_rounds (rnds : list Z) (actual : Z) :
  steps R (debate_rounds W self rnds actual).
Proof.
  revert actual.
  induction rnds as [|rnd rnds IH]; intros actual; cbn [debate_rounds]; [steps_ret|].
  generalize (bool_decide (rnd = self_rounds self)). intros is_last.
  assert (steps R (_save_state self;;
            (if negb is_last
             then g ← Gate.ask_round;
                  match g with
                  | Abort => _round_consensus W self (rnd + 1);; mret rnd
                  | _ => debate_rounds W self rnds rnd
                  end
             else debate_rounds W self rnds rnd))) as Hafter.
  { steps_bind; [by apply steps_save_state; try apply _|].
    destruct (negb _); [|apply IH].
    steps_bind; [by apply steps_ask_round; try apply _|].
    match goal with |- steps _ (match ?x with _ => _ end) => destruct x end; try apply IH.
    steps_bind; [apply order_round_consensus | steps_ret]. }
  destruct (bool_decide (rnd = 1)).
  - steps_bind; [|exact Hafter]. unfold _round_critique. steps_solve; try done.
    unfold critique_do. steps_solve; done.
  - destruct is_last.
    + steps_bind; [apply order_round_consensus | steps_ret].
    + steps_bind; [|exact Hafter]. unfold _round_respond. steps_solve; try done.
      unfold respond_do. steps_solve; done.
Qed.

Lemma order_extra_topics (n : nat) (items : list (nat * pystr)) :
  steps R (extra_topics W self n items).
Proof.
  induction items as [|[i topic] rest IH]; cbn [extra_topics]; [steps_ret|].
  steps_bind.
  { unfold _focused. steps_solve; try done. unfold focused_do. steps_solve; done. }
  steps_bind; [by apply steps_save_state; try apply _|].
  destruct (bool_decide _).
  - steps_bind; [by apply steps_ask_round; try apply _|].
    match goal with |- steps _ (match ?x with _ => _ end) => destruct x end;
      [| |steps_ret]; (steps_bind; [apply IH | steps_ret]).
  - steps_bind; [apply IH | steps_ret].
Qed.

Lemma begins_phase0 : begins Phase0 (phase0_clarify W self).
Proof.
  unfold phase0_clarify. apply begins_intro.
  steps_bind.
  { apply steps_gather; [apply _|]. intros [name prov]. unfold clarify_ask.
    steps_solve; done. }
  steps_bind; [by apply steps_save; try apply _|].
  steps_bind; [by apply steps_read_input; try apply _|].
  steps_bind; [apply steps_get; apply _|].
  steps_bind.
  { destruct (if decide _ then _ else _); [by apply steps_modify|steps_ret]. }
  steps_bind; [by apply steps_save_state; try apply _|].
  by apply steps_ask; try apply _.
Qed.

Lemma begins_phaseA : begins PhaseA (phaseA_research W self).
Proof.
  unfold phaseA_research, research_batch. apply begins_intro.
  steps_solve; try done. unfold research_do. steps_solve; done.
Qed.

Lemma begins_phaseB : begins PhaseB (phaseB_debate W self).
Proof.
  unfold phaseB_debate. apply begins_intro.
  steps_bind; [apply order_debate_rounds|]. steps_solve; done.
Qed.

Lemma begins_phaseC : begins PhaseC (phaseC_extra W self).
Proof.
  unfold phaseC_extra. apply begins_intro.
  steps_bind; [by apply steps_read_topics|].
  steps_bind; [apply order_extra_topics|].
  match goal with |- steps _ (match ?x with _ => _ end) => destruct x end;
    [steps_ret|by apply steps_ask; try apply _].
Qed.

Lemma begins_phaseD : begins PhaseD (phaseD_report W self).
Proof. unfold phaseD_report. apply begins_intro. steps_solve; done. Qed.

Lemma went_through_gate (m : M GateDecision) (ph : Phase) (k : M RunEnd)
    (planned : list Phase) :
  begins ph m ->
  (forall st, went_through planned (k st).1 st (k st).2) ->
  forall st,
    went_through (ph :: planned)
      ((g ← m; match g with Abort => mret (StoppedAfter ph) | _ => k end) st).1 st
      ((g ← m; match g with Abort => mret (StoppedAfter ph) | _ => k end) st).2.
Proof.
  intros Hm Hk st. rewrite bind_run.
  destruct (Hm st) as (evs & E & B). destruct (m st) as [[g|e] st1]. 
  - cbn [snd] in E.
    assert (went_through (ph :: planned) (k st1).1 st (k st1).2) as Hgo.
    { destruct (Hk st1) as (evs' & n & E' & B' & Hne & Hc & Hs).
      exists (evs ++ evs'), (S n). rewrite E', E, <- app_assoc, banners_app, B, B'.
      cbn [take app]. split; [done|]. split; [done|]. split; [done|]. split.
      - intros Hr. rewrite <- B'. by rewrite (Hc Hr).
      - intros ph' Hr. specialize (Hs ph' Hr). rewrite B' in Hs.
        destruct (take n planned) as [|p l]; [done|]. exact Hs. }
    destruct g; [by destruct (k st1)|by destruct (k st1)|].
    rewrite ret_run. cbn [fst snd]. exists evs, 1%nat. rewrite B. cbn [take].
    split; [done|]. split; [by rewrite take_0|]. split; [done|]. split; [done|].
    by intros ph' [= <-].
  - cbn [fst snd] in *. exists evs, 1%nat. rewrite B. cbn [take].
    split; [done|]. split; [by rewrite take_0|]. done.
Qed.

Lemma went_through_last :
  forall st,
    went_through [PhaseD]
      ((phaseD_report W self;; log EvDone;; mret Completed) st).1 st
      ((phaseD_report W self;; log EvDone;; mret Completed) st).2.
Proof.
  intros st. rewrite bind_run.
  destruct (begins_phaseD st) as (evs & E & B).
  destruct (phaseD_report W self st) as [[g|e] st1]; cbn [snd] in E.
  - rewrite bind_run, log_run, ret_run. cbn [fst snd].
    exists (evs ++ [EvDone]), 1%nat. cbn [trace emit]. rewrite E, <- app_assoc.
    rewrite banners_app, B. cbn. done.
  - cbn [fst snd]. exists evs, 1%nat. rewrite B. cbn. done.
Qed.

Lemma went_through_run (skip_clarify skip_extra : bool) (st : St) :
  went_through (phases_planned skip_clarify skip_extra)
    (run W self skip_clarify skip_extra st).1 st
    (run W self skip_clarify skip_extra st).2.
Proof.
  assert (forall st1,
            went_through ((if skip_extra then [] else [PhaseC]) ++ [PhaseD])
              ((gC ← (if skip_extra then mret Proceed else phaseC_extra W self);
                match gC with
                | Abort => mret (StoppedAfter PhaseC)
                | _ => phaseD_report W self;; log EvDone;; mret Completed
                end) st1).1 st1
              ((gC ← (if skip_extra then mret Proceed else phaseC_extra W self);
                match gC with
                | Abort => mret (StoppedAfter PhaseC)
                | _ => phaseD_report W self;; log EvDone;; mret Completed
                end) st1).2) as HCD.
  { intros st1. destruct skip_extra.
    - rewrite bind_run, ret_run. apply went_through_last.
    - apply went_through_gate; [apply begins_phaseC|apply went_through_last]. }
  unfold run, phases_planned. destruct skip_clarify.
  - rewrite bind_run, ret_run. cbn [app].
    apply went_through_gate; [apply begins_phaseA|]. intros st1.
    apply went_through_gate; [apply begins_phaseB|exact HCD].
  - cbn [app]. apply went_through_gate; [apply begins_phase0|]. intros st0.
    apply went_through_gate; [apply begins_phaseA|]. intros st1.
    apply went_through_gate; [apply begins_phaseB|exact HCD].
Qed.

End Order.

(** X24.  The phases of a run begin in the order 0, A, B, C, D, each at
    most once, with phase 0 and phase C left out when they are skipped:
    the phase banners of a run are a non-empty first part of that list; all
    of it when the run completes; and they end with [ph] when the run
    stops at the gate after [ph]. *)
Theorem phases_run_in_order (W : World) (self : Orchestrator)
    (skip_clarify skip_extra : bool) (st : St) :
  exists evs k,
    trace (run W self skip_clarify skip_extra st).2 = trace st ++ evs /\
    banners evs = take k (phases_planned skip_clarify skip_extra) /\
    banners evs <> [] /\
    ((run W self skip_clarify skip_extra st).1 = Val Completed ->
     banners evs = phases_planned skip_clarify skip_extra) /\
    (forall ph, (run W self skip_clarify skip_extra st).1 = Val (StoppedAfter ph) ->
       last (banners evs) = Some ph).
Proof. exact (went_through_run W self skip_clarify skip_extra st). Qed.
